(** * Contribution state machine and resumable upload of the phase2cli

    Shallow embedding of [packages/phase2cli/src/lib/utils.ts]:
    the time decomposition, the zkey index formatter, the multi-part
    upload and the contribution run, then the other helpers of the file
    (powers of tau, prefixes, countdowns, circuit metadata, the next
    circuit) and [getCeremonyCircuits] of
    [packages/actions/src/core/contribute/index.ts], followed by the
    properties proved about them.

    Conventions of the embedding:
    - a JavaScript [number] is an exact rational ([Q]) in the time
      decomposition, an integer ([Z]) for a progress or a duration and
      a natural number for a part number; IEEE rounding, NaN and the
      infinities are outside the model;
    - a JavaScript string is a [string] of 8-bit characters;
    - an awaited call to an external service is an [Event] appended to
      the trace of the run; what the service answers comes from an
      explicit environment record;
    - [showError (_, true)] and a rejected promise both end the run:
      the run returns the trace so far and the reason. *)

From Stdlib Require Import ZArith QArith Qround Lqa Lia.
From Stdlib Require Import Bool List String Ascii DecimalString.
From Stdlib Require Import Permutation Sorted.
From Stdlib Require DecimalPos.
Import ListNotations.

Local Open Scope Z_scope.

(* ================================================================= *)
(** ** Time decomposition *)

(** The [Timing] type of [types/index]: four numeric fields. *)
Record Timing : Set := mkTiming
  { seconds : Z;
    minutes : Z;
    hours : Z;
    days : Z }.

(** [Math.floor] on a finite number. *)
Definition Math_floor (x : Q) : Z := Qfloor x.

(** The [%] operator on integral numbers: the remainder takes the sign
    of the dividend. *)
Definition js_rem (a b : Z) : Z := Z.rem a b.

(** The four constants [days], [hours], [minutes], [seconds] of
    [getSecondsMinutesHoursFromMillis] as they stand just before the
    [return] (lines 164-175). *)
Definition decomposeMillis (millis : Q) : Timing :=
  let delta := (millis / 1000)%Q in
  let days := Math_floor (delta / 86400) in
  let delta := (delta - inject_Z days * 86400)%Q in
  let hours := js_rem (Math_floor (delta / 3600)) 24 in
  let delta := (delta - inject_Z hours * 3600)%Q in
  let minutes := js_rem (Math_floor (delta / 60)) 60 in
  let delta := (delta - inject_Z minutes * 60)%Q in
  let seconds := js_rem (Math_floor delta) 60 in
  mkTiming seconds minutes hours days.

(** The object literal of the [return] (lines 177-182). *)
Definition clampTiming (t : Timing) : Timing :=
  {| seconds := if 60 <=? seconds t then 59 else seconds t;
     minutes := if 60 <=? minutes t then 59 else minutes t;
     hours := if 24 <=? hours t then 23 else hours t;
     days := days t |}.

Definition getSecondsMinutesHoursFromMillis (millis : Q) : Timing :=
  clampTiming (decomposeMillis millis).

(** The decomposition as the specification words it: whole seconds
    first, then integer quotients and remainders. *)
Definition decompositionSpec (millis : Q) : Timing :=
  let delta := Qfloor (millis / 1000) in
  let days := delta / 86400 in
  let remaining := delta - days * 86400 in
  let hours := (remaining / 3600) mod 24 in
  let remaining := remaining - hours * 3600 in
  let minutes := (remaining / 60) mod 60 in
  let remainder := remaining - minutes * 60 in
  let seconds := remainder mod 60 in
  mkTiming seconds minutes hours days.

(* ================================================================= *)
(** ** Zkey index formatting *)

(** [constants.ts], line 21. *)
Definition firstZkeyIndex : string := "00000".

(** [Number.prototype.toString] on an integer below 1e21: the decimal
    digits, after a minus sign for a negative number. *)
Definition Number_toString (n : Z) : string :=
  DecimalString.NilZero.string_of_int (Z.to_int n).

(** The [while] loop of [formatZkeyIndex] (lines 414-416). Every turn
    makes [index] one character longer, so the loop is run on a bound
    [fuel] on the number of turns; [formatZkeyIndex_fuel] shows that
    the bound chosen below is never the reason why the loop stops. *)
Fixpoint padLoop (fuel : nat) (index : string) : string :=
  if (String.length index <? String.length firstZkeyIndex)%nat then
    match fuel with
    | O => index
    | S fuel' => padLoop fuel' (String "0" index)
    end
  else index.

Definition formatZkeyIndex (progress : Z) : string :=
  let index := Number_toString progress in
  padLoop (String.length firstZkeyIndex) index.

(** The string of [n] characters [0], to state what the loop computes. *)
Fixpoint zeros (n : nat) : string :=
  match n with
  | O => EmptyString
  | S n' => String "0" (zeros n')
  end.

(* ================================================================= *)
(** ** Strings: the regular expression of the contribution hash *)

(** The pattern
    [/Contribution.+Hash.+\n\t\t.+\n\t\t.+\n.+\n\t\t.+\n/]
    is a sequence of literals and of [.+] items. *)
Inductive RegexItem : Set :=
| Lit (text : string)
| AnyPlus.

Definition LF : ascii := "010"%char.
Definition CR : ascii := "013"%char.
Definition TAB : ascii := "009"%char.

(** [.] matches every character but a line terminator. *)
Definition isLineTerminator (c : ascii) : bool :=
  (c =? LF)%char || (c =? CR)%char.

Fixpoint stripPrefix (p s : string) : option string :=
  match p, s with
  | EmptyString, _ => Some s
  | String a p', String b s' => if (a =? b)%char then stripPrefix p' s' else None
  | String _ _, EmptyString => None
  end.

(** Match of the items at the start of [s]: the matched text. [.+] is
    greedy: it first tries to take one more character and gives
    characters back only when the rest of the pattern fails. *)
Fixpoint matchHere (re : list RegexItem) : string -> option string :=
  match re with
  | [] => fun _ => Some EmptyString
  | Lit l :: re' =>
      fun s =>
        match stripPrefix l s with
        | Some s' => option_map (append l) (matchHere re' s')
        | None => None
        end
  | AnyPlus :: re' =>
      fix plus (s : string) : option string :=
        match s with
        | EmptyString => None
        | String c s' =>
            if isLineTerminator c then None
            else match plus s' with
                 | Some m => Some (String c m)
                 | None => option_map (String c) (matchHere re' s')
                 end
        end
  end.

(** [String.prototype.match] with a pattern without the [g] flag:
    element 0 of the result (the text of the leftmost match), or
    [None] for [null]. *)
Fixpoint String_match (re : list RegexItem) (s : string) : option string :=
  match matchHere re s with
  | Some m => Some m
  | None =>
      match s with
      | EmptyString => None
      | String _ s' => String_match re s'
      end
  end.

(** [String.prototype.replace] with a string pattern: the first
    occurrence only. *)
Fixpoint String_replace (pat rep s : string) : string :=
  match stripPrefix pat s with
  | Some rest => rep ++ rest
  | None =>
      match s with
      | EmptyString => EmptyString
      | String c s' => String c (String_replace pat rep s')
      end
  end.

Definition LF_TAB_TAB : string := String LF (String TAB (String TAB EmptyString)).
Definition LF_only : string := String LF EmptyString.

(** Line 1017. *)
Definition contributionHashRegex : list RegexItem :=
  [ Lit "Contribution"; AnyPlus; Lit "Hash"; AnyPlus;
    Lit LF_TAB_TAB; AnyPlus;
    Lit LF_TAB_TAB; AnyPlus;
    Lit LF_only; AnyPlus;
    Lit LF_TAB_TAB; AnyPlus;
    Lit LF_only ].

(* ================================================================= *)
(** ** Documents, external calls and runs *)

(** Modelled from the spec: [ParticipantContributionStep] of
    [types/index], which is not among the sources; the members are those
    of the specification's ContributionStep, in its order. *)
Inductive ParticipantContributionStep : Set :=
| NOT_STARTED | DOWNLOADING | COMPUTING | UPLOADING | VERIFYING | COMPLETED.

Record ETagWithPartNumber : Set := mkPart
  { ETag : string;
    PartNumber : nat }.

Record ChunkWithUrl : Set := mkChunk
  { partNumber : nat;
    preSignedUrl : string }.

(** [tempContributionData]: an absent [chunks] is the empty list. *)
Record TempContributionData : Set := mkTemp
  { uploadId : option string;
    chunks : list ETagWithPartNumber }.

(** The fields of the participant document that the run reads. *)
Record DocumentData : Set := mkParticipant
  { contributionStep : option ParticipantContributionStep;
    tempContributionData : option TempContributionData }.

Record CeremonyDocument : Set := mkCeremony
  { ceremony_id : string;
    ceremony_prefix : string }.

Record CircuitDocument : Set := mkCircuit
  { circuit_id : string;
    circuit_prefix : string;
    completedContributions : Z }.

Record VerifyContributionComputation : Set := mkVerdict
  { valid : bool;
    verifyCloudFunctionTime : Z;
    fullContributionTime : Z }.

Definition HttpsCallable : Set := string.

(** One constructor per awaited call that leaves the process. Console
    output, spinners and timers are not recorded. *)
Inductive Event : Set :=
| EvDownloadLocalFileFromBucket (bucketName objectKey localPath : string)
| EvProgressToNextContributionStep (ceremonyId : string)
| EvZKeyContribute (lastZkey newZkey name entropy : string)
| EvZKeyBeacon (lastZkey newZkey name beacon : string)
| EvPermanentlyStoreCurrentContributionTimeAndHash
    (ceremonyId : string) (contributionComputationTime : Z) (contributionHash : string)
| EvOpenMultiPartUpload (bucketName objectKey : string) (ceremonyId : option string)
| EvTemporaryStoreCurrentContributionMultiPartUploadId
    (ceremonyId : option string) (uploadId : string)
| EvGeneratePreSignedUrlsParts
    (bucketName objectKey uploadId : string) (partNumbers : list nat)
    (expiration : string) (ceremonyId : option string)
| EvTransmitPart (partNumber : nat) (preSignedUrl : string) (contentType : option string)
| EvTemporaryStoreCurrentContributionUploadedChunkData
    (ceremonyId : string) (eTag : string) (partNumber : nat)
| EvCompleteMultiPartUpload
    (bucketName objectKey uploadId : string) (parts : list ETagWithPartNumber)
    (ceremonyId : option string)
| EvVerifyContribution (ceremonyId circuitId ghUsername bucketName : string).

(** Why a run stops early: the three messages of [GENERIC_ERRORS] that
    the modelled code passes to [showError (_, true)], or a rejected
    promise. *)
Inductive Failure : Set :=
| GENERIC_NOT_CONFIGURED_PROPERLY
| GENERIC_CONTRIBUTION_HASH_INVALID
| GENERIC_ERROR_RETRIEVING_DATA
| Rejected.

Inductive Outcome (A : Type) : Type :=
| Done (a : A)
| Failed (f : Failure).
Arguments Done {A} a.
Arguments Failed {A} f.

(** A run: the calls made, in order, and how it ended. *)
Definition Run (A : Type) : Type := (list Event * Outcome A)%type.

Definition ret {A : Type} (a : A) : Run A := ([], Done a).

Definition bind {A B : Type} (m : Run A) (k : A -> Run B) : Run B :=
  match m with
  | (tr, Done a) => let (tr', o) := k a in (tr ++ tr', o)
  | (tr, Failed f) => (tr, Failed f)
  end.

(** [await] of a call: the call is made; [None] is a rejection. *)
Definition await {A : Type} (e : Event) (answer : option A) : Run A :=
  ([e], match answer with Some a => Done a | None => Failed Rejected end).

(** Modelled from the spec: [showError] of [./errors] is not among the
    sources; with [true] as second argument it ends the process, which
    is what the specification's fatal errors are. *)
Definition showError_exit {A : Type} (f : Failure) : Run A := ([], Failed f).

Definition when (b : bool) (m : Run unit) : Run unit :=
  if b then m else ret tt.

Declare Scope run_scope.
Delimit Scope run_scope with run.
Notation "x <- m ;; k" := (bind m (fun x => k))
  (at level 61, m at next level, right associativity) : run_scope.
Notation "m ;; k" := (bind m (fun _ => k))
  (at level 61, right associativity) : run_scope.

Definition trace {A : Type} (r : Run A) : list Event := fst r.
Definition outcome {A : Type} (r : Run A) : Outcome A := snd r.

Definition resolves (b : bool) : option unit := if b then Some tt else None.

(** What is outside the process: configuration, the file system and
    the answers of the remote services. *)
Record World : Type := mkWorld
  { (* process.env and constants of [./constants] *)
    CONFIG_PRESIGNED_URL_EXPIRATION_IN_SECONDS : option string;
    contributionTranscriptsPath : string;
    finalTranscriptsPath : string;
    contributionsPath : string;
    finalZkeysPath : string;
    (* libraries *)
    getBucketName : string -> string;
    mime_lookup : string -> option string;
    (* local files *)
    readFile : string -> string;
    fileSize : string -> nat;
    partSize : nat;
    timer_ms : Z;
    (* answers of the services *)
    downloadResolves : bool;
    progressResolves : bool;
    computeResolves : bool;
    storeTimeAndHashResolves : bool;
    openedUploadId : option string;
    storeUploadIdResolves : bool;
    (* the upload session of the checkpoint, which the authority holds *)
    tempUpload : option TempContributionData;
    preSignedUrlOf : option (nat -> string);
    transmittedETag : nat -> option string;
    storeChunkResolves : bool;
    completeResolves : bool;
    verification : option (option VerifyContributionComputation) }.

Local Open Scope run_scope.
Local Open Scope string_scope.

(** The falsy strings: [undefined] and the empty string. *)
Definition falsyString (s : option string) : bool :=
  match s with
  | None => true
  | Some s => String.eqb s ""
  end.

(* ================================================================= *)
(** ** Multi-part upload *)

(** Modelled from the spec: the number of parts of a file, [ceil (s / p)]
    for fixed part size [p], and one part for an empty file (§4.2, §8). *)
Definition partCount (size part : nat) : nat :=
  Nat.max 1 ((size + part - 1) / part).

(** Modelled from the spec: [openMultiPartUpload] of [./storage], which
    is not among the sources, is [openTransfer (bucket, key) -> uploadId]
    of §6. *)
Definition openMultiPartUpload (w : World) (bucketName objectKey : string)
    (ceremonyId : option string) : Run string :=
  await (EvOpenMultiPartUpload bucketName objectKey ceremonyId) (openedUploadId w).

Definition isRecorded (n : nat) (parts : list ETagWithPartNumber) : bool :=
  existsb (fun p => Nat.eqb (PartNumber p) n) parts.

(** Modelled from the spec: the parts already present in the session of
    an upload identifier. The upload session belongs to the checkpoint,
    which the external authority owns (§3); the call at lines 318-326
    names the session by its upload identifier only. *)
Definition sessionParts (w : World) (uploadIdZkey : string) : list ETagWithPartNumber :=
  match tempUpload w with
  | Some session =>
      match uploadId session with
      | Some held => if String.eqb held uploadIdZkey then chunks session else []
      | None => []
      end
  | None => []
  end.

(** The parts of [1..n] that are not among [recorded]. *)
Definition missingParts (recorded : list ETagWithPartNumber) (n : nat) : list nat :=
  filter (fun i => negb (isRecorded i recorded)) (seq 1 n).

(** Modelled from the spec: [getChunksAndPreSignedUrls] of [./storage],
    which is not among the sources, is step 2 of §4.2 with
    [authorizeParts] of §6: the part count comes from the file size and
    the fixed part size, and one transfer authorization is requested per
    part not already present in the session; the answer is the ordered
    list of these parts, each with its authorization. Its arguments are
    those of the call at lines 318-326. *)
Definition getChunksAndPreSignedUrls (w : World)
    (bucketName objectKey localPath uploadId expiration : string)
    (ceremonyId : option string) : Run (list ChunkWithUrl) :=
  let n := partCount (fileSize w localPath) (partSize w) in
  let partNumbers := missingParts (sessionParts w uploadId) n in
  urls <- await (EvGeneratePreSignedUrlsParts bucketName objectKey uploadId partNumbers
                   expiration ceremonyId) (preSignedUrlOf w) ;;
  ret (map (fun i => mkChunk i (urls i)) partNumbers).

(** Modelled from the spec: [uploadParts] of [./storage], which is not
    among the sources, is step 3 of §4.2: the parts are taken one at a
    time in the order of the authorizations; a part already recorded is
    skipped, any other is transmitted and recorded with the completion
    token answered, and the record is stored remotely when the callable
    and the ceremony are given. Its arguments are those of the call at
    lines 329-335. *)
Fixpoint uploadParts (w : World) (chunksWithUrls : list ChunkWithUrl)
    (contentType : option string) (cf : option HttpsCallable)
    (ceremonyId : option string) (alreadyUploadedChunks : list ETagWithPartNumber)
    : Run (list ETagWithPartNumber) :=
  match chunksWithUrls with
  | [] => ret alreadyUploadedChunks
  | chunk :: rest =>
      if isRecorded (partNumber chunk) alreadyUploadedChunks then
        uploadParts w rest contentType cf ceremonyId alreadyUploadedChunks
      else
        eTag <- await (EvTransmitPart (partNumber chunk) (preSignedUrl chunk) contentType)
                  (transmittedETag w (partNumber chunk)) ;;
        match cf, ceremonyId with
        | Some _, Some id =>
            await (EvTemporaryStoreCurrentContributionUploadedChunkData
                     id eTag (partNumber chunk))
              (resolves (storeChunkResolves w))
        | _, _ => ret tt
        end ;;
        uploadParts w rest contentType cf ceremonyId
          (alreadyUploadedChunks ++ [mkPart eTag (partNumber chunk)])
  end.

Fixpoint insertByPartNumber (p : ETagWithPartNumber) (l : list ETagWithPartNumber)
    : list ETagWithPartNumber :=
  match l with
  | [] => [p]
  | q :: l' =>
      if (PartNumber p <? PartNumber q)%nat then p :: q :: l'
      else q :: insertByPartNumber p l'
  end.

Fixpoint sortByPartNumber (l : list ETagWithPartNumber) : list ETagWithPartNumber :=
  match l with
  | [] => []
  | p :: l' => insertByPartNumber p (sortByPartNumber l')
  end.


(** Modelled from the spec: [closeMultiPartUpload] of [./storage], which
    is not among the sources, is step 4 of §4.2: the finalize operation
    is invoked with the parts sorted by part number, ascending. Its
    arguments are those of the call at lines 341-348. *)
Definition closeMultiPartUpload (w : World)
    (bucketName objectKey uploadId : string) (parts : list ETagWithPartNumber)
    (ceremonyId : option string) : Run unit :=
  await (EvCompleteMultiPartUpload bucketName objectKey uploadId
           (sortByPartNumber parts) ceremonyId)
    (resolves (completeResolves w)).

(** Lines 294-307: start from scratch. *)
Definition startFromScratch (w : World) (bucketName objectKey : string)
    (temporaryStoreCurrentContributionMultiPartUploadId : option HttpsCallable)
    (ceremonyId : option string) : Run (string * list ETagWithPartNumber) :=
  uploadIdZkey <- openMultiPartUpload w bucketName objectKey ceremonyId ;;
  match temporaryStoreCurrentContributionMultiPartUploadId with
  | Some _ =>
      await (EvTemporaryStoreCurrentContributionMultiPartUploadId ceremonyId uploadIdZkey)
        (resolves (storeUploadIdResolves w))
  | None => ret tt
  end ;;
  ret (uploadIdZkey, []).

(** Lines 292-312: the upload identifier and the chunks already
    uploaded, from scratch or from the temporary data. *)
Definition startOrResume (w : World) (bucketName objectKey : string)
    (temporaryStoreCurrentContributionMultiPartUploadId : option HttpsCallable)
    (ceremonyId : option string) (tempContributionData : option TempContributionData)
    : Run (string * list ETagWithPartNumber) :=
  match tempContributionData with
  | None =>
      startFromScratch w bucketName objectKey
        temporaryStoreCurrentContributionMultiPartUploadId ceremonyId
  | Some temp =>
      if falsyString (uploadId temp) then
        startFromScratch w bucketName objectKey
          temporaryStoreCurrentContributionMultiPartUploadId ceremonyId
      else ret (match uploadId temp with Some u => u | None => "" end, chunks temp)
  end.

(** [multiPartUpload] (lines 268-351). *)
Definition multiPartUpload (w : World) (bucketName objectKey localPath : string)
    (temporaryStoreCurrentContributionMultiPartUploadId : option HttpsCallable)
    (temporaryStoreCurrentContributionUploadedChunkData : option HttpsCallable)
    (ceremonyId : option string) (tempContributionData : option TempContributionData)
    : Run unit :=
  (if falsyString (CONFIG_PRESIGNED_URL_EXPIRATION_IN_SECONDS w)
   then showError_exit GENERIC_NOT_CONFIGURED_PROPERLY
   else ret tt) ;;
  let contentType := mime_lookup w localPath in
  session <- startOrResume w bucketName objectKey
               temporaryStoreCurrentContributionMultiPartUploadId
               ceremonyId tempContributionData ;;
  let uploadIdZkey := fst session in
  let alreadyUploadedChunks := snd session in
  chunksWithUrlsZkey <-
    getChunksAndPreSignedUrls w bucketName objectKey localPath uploadIdZkey
      (match CONFIG_PRESIGNED_URL_EXPIRATION_IN_SECONDS w with
       | Some s => s
       | None => ""
       end)
      ceremonyId ;;
  partNumbersAndETagsZkey <-
    uploadParts w chunksWithUrlsZkey contentType
      temporaryStoreCurrentContributionUploadedChunkData ceremonyId
      alreadyUploadedChunks ;;
  closeMultiPartUpload w bucketName objectKey uploadIdZkey
    partNumbersAndETagsZkey ceremonyId.

(* ================================================================= *)
(** ** The contribution run *)

Definition step_eqb (a b : ParticipantContributionStep) : bool :=
  match a, b with
  | NOT_STARTED, NOT_STARTED | DOWNLOADING, DOWNLOADING | COMPUTING, COMPUTING
  | UPLOADING, UPLOADING | VERIFYING, VERIFYING | COMPLETED, COMPLETED => true
  | _, _ => false
  end.

(** [x === member], where [x] may be [undefined]. *)
Definition strictEq (x : option ParticipantContributionStep)
    (member : ParticipantContributionStep) : bool :=
  match x with
  | Some s => step_eqb s member
  | None => false
  end.

(** [newParticipantData?.contributionStep] and
    [newParticipantData?.tempContributionData]. *)
Definition optContributionStep (d : option DocumentData)
    : option ParticipantContributionStep :=
  match d with
  | Some data => contributionStep data
  | None => None
  end.

Definition optTempContributionData (d : option DocumentData)
    : option TempContributionData :=
  match d with
  | Some data => tempContributionData data
  | None => None
  end.

(** [makeContributionStepProgress] (lines 668-686). *)
Definition makeContributionStepProgress (w : World) (ceremonyId : string) : Run unit :=
  await (EvProgressToNextContributionStep ceremonyId) (resolves (progressResolves w)).

(** [downloadContribution] (lines 807-823). *)
Definition downloadContribution (w : World) (bucketName objectKey localPath : string)
    : Run unit :=
  await (EvDownloadLocalFileFromBucket bucketName objectKey localPath)
    (resolves (downloadResolves w)).

(** [computeContribution] (lines 576-639). *)
Definition computeContribution (w : World) (lastZkey newZkey name entropyOrBeacon : string)
    (finalize : bool) : Run unit :=
  if finalize then
    await (EvZKeyBeacon lastZkey newZkey name entropyOrBeacon) (resolves (computeResolves w))
  else
    await (EvZKeyContribute lastZkey newZkey name entropyOrBeacon) (resolves (computeResolves w)).

(** [computeVerification] (lines 851-906). *)
Definition computeVerification (w : World) (ceremony : CeremonyDocument)
    (circuit : CircuitDocument) (ghUsername : string)
    : Run VerifyContributionComputation :=
  response <- await (EvVerifyContribution (ceremony_id ceremony) (circuit_id circuit)
                       ghUsername (getBucketName w (ceremony_prefix ceremony)))
                (verification w) ;;
  match response with
  | None => showError_exit GENERIC_ERROR_RETRIEVING_DATA
  | Some data => ret data
  end.

(** The local constants of [makeContribution] (lines 928-945) and the
    paths built from them (lines 967-968, 995-996, 1062-1065). *)
Definition currentZkeyIndexOf (circuit : CircuitDocument) : string :=
  formatZkeyIndex (completedContributions circuit).

Definition nextZkeyIndexOf (circuit : CircuitDocument) : string :=
  formatZkeyIndex (completedContributions circuit + 1).

Definition transcriptsPathOf (w : World) (finalize : bool) : string :=
  if finalize then finalTranscriptsPath w else contributionTranscriptsPath w.

Definition contributionsPathOf (w : World) (finalize : bool) : string :=
  if finalize then finalZkeysPath w else contributionsPath w.

Definition contributionTranscriptLocalPathOf (w : World) (circuit : CircuitDocument)
    (ghUsername : string) (finalize : bool) : string :=
  transcriptsPathOf w finalize ++ "/" ++ circuit_prefix circuit ++ "_"
    ++ (if finalize then ghUsername ++ "_final" else nextZkeyIndexOf circuit) ++ ".log".

(** [finalize ? `final` : nextZkeyIndex]. *)
Definition newZkeyNameOf (circuit : CircuitDocument) (finalize : bool) : string :=
  if finalize then "final" else nextZkeyIndexOf circuit.

(** [collections.circuits] is "circuits" and [collections.contributions]
    is "contributions". *)
Definition zkeyStoragePath (circuit : CircuitDocument) (name : string) : string :=
  "circuits/" ++ circuit_prefix circuit ++ "/contributions/"
    ++ circuit_prefix circuit ++ "_" ++ name ++ ".zkey".

Definition zkeyLocalPath (w : World) (circuit : CircuitDocument) (finalize : bool)
    (name : string) : string :=
  contributionsPathOf w finalize ++ "/" ++ circuit_prefix circuit ++ "_" ++ name ++ ".zkey".

(** 1. Download last contribution (the block of lines 963-980). *)
Definition downloadStep (w : World) (ceremony : CeremonyDocument)
    (circuit : CircuitDocument) (finalize : bool) : Run unit :=
  let bucketName := getBucketName w (ceremony_prefix ceremony) in
  let storagePath := zkeyStoragePath circuit (currentZkeyIndexOf circuit) in
  let localPath := zkeyLocalPath w circuit finalize (currentZkeyIndexOf circuit) in
  downloadContribution w bucketName storagePath localPath ;;
  when (negb finalize) (makeContributionStepProgress w (ceremony_id ceremony)).

(** 2. Compute the new contribution, store its time and hash (the block
    of lines 989-1051). *)
Definition computeStep (w : World) (ceremony : CeremonyDocument)
    (circuit : CircuitDocument) (entropyOrBeacon ghUsername : string)
    (finalize : bool) : Run unit :=
  computeContribution w
    (zkeyLocalPath w circuit finalize (currentZkeyIndexOf circuit))
    (zkeyLocalPath w circuit finalize (newZkeyNameOf circuit finalize))
    ghUsername entropyOrBeacon finalize ;;
  let contributionComputationTime := timer_ms w in
  let transcript :=
    readFile w (contributionTranscriptLocalPathOf w circuit ghUsername finalize) in
  let matchContributionHash := String_match contributionHashRegex transcript in
  match matchContributionHash with
  | None => showError_exit GENERIC_CONTRIBUTION_HASH_INVALID
  | Some matched =>
      let contributionHash := String_replace LF_TAB_TAB "" matched in
      await (EvPermanentlyStoreCurrentContributionTimeAndHash
               (ceremony_id ceremony) contributionComputationTime contributionHash)
        (resolves (storeTimeAndHashResolves w)) ;;
      when (negb finalize) (makeContributionStepProgress w (ceremony_id ceremony))
  end.

(** The call of [multiPartUpload], lines 1072-1102. *)
Definition uploadCall (w : World) (ceremony : CeremonyDocument)
    (circuit : CircuitDocument) (finalize : bool)
    (newParticipantData : option DocumentData) : Run unit :=
  let bucketName := getBucketName w (ceremony_prefix ceremony) in
  let storagePath := zkeyStoragePath circuit (newZkeyNameOf circuit finalize) in
  let localPath := zkeyLocalPath w circuit finalize (newZkeyNameOf circuit finalize) in
  if negb finalize then
    multiPartUpload w bucketName storagePath localPath
      (Some "temporaryStoreCurrentContributionMultiPartUploadId")
      (Some "temporaryStoreCurrentContributionUploadedChunkData")
      (Some (ceremony_id ceremony))
      (optTempContributionData newParticipantData)
  else
    multiPartUpload w bucketName storagePath localPath None None None None.

(** 3. Store file (the block of lines 1061-1111). *)
Definition uploadStep (w : World) (ceremony : CeremonyDocument)
    (circuit : CircuitDocument) (finalize : bool)
    (newParticipantData : option DocumentData) : Run unit :=
  uploadCall w ceremony circuit finalize newParticipantData ;;
  when (negb finalize) (makeContributionStepProgress w (ceremony_id ceremony)).

(** 5. Verify contribution (the block of lines 1127-1168); the verdict
    and the times are only printed. *)
Definition verifyStep (w : World) (ceremony : CeremonyDocument)
    (circuit : CircuitDocument) (ghUsername : string) : Run unit :=
  computeVerification w ceremony circuit ghUsername ;;
  ret tt.

Section ContributionRun.

(** [!!member] for the members of [ParticipantContributionStep]: it
    depends on the values that [types/index], which is not among the
    sources, gives to the members. *)
Variable truthy : ParticipantContributionStep -> bool.

(** [!!x], where [x] may be [undefined]. *)
Definition notNot (x : option ParticipantContributionStep) : bool :=
  match x with
  | Some s => truthy s
  | None => false
  end.

(** The four conditions, lines 958-962, 983-988, 1054-1060, 1119-1126. *)
Definition downloadCondition (finalize : bool)
    (step : option ParticipantContributionStep) : bool :=
  finalize || (notNot step && strictEq step DOWNLOADING).

Definition computeCondition (finalize : bool)
    (step : option ParticipantContributionStep) : bool :=
  finalize || (notNot step && strictEq step DOWNLOADING)
  || strictEq step COMPUTING.

Definition uploadCondition (finalize : bool)
    (step : option ParticipantContributionStep) : bool :=
  finalize || (notNot step && strictEq step DOWNLOADING)
  || strictEq step COMPUTING || strictEq step UPLOADING.

Definition verifyCondition (finalize : bool)
    (step : option ParticipantContributionStep) : bool :=
  finalize || (notNot step && strictEq step DOWNLOADING)
  || strictEq step COMPUTING || strictEq step UPLOADING
  || strictEq step VERIFYING.

(** [makeContribution] (lines 919-1170). *)
Definition makeContribution (w : World) (ceremony : CeremonyDocument)
    (circuit : CircuitDocument) (entropyOrBeacon ghUsername : string)
    (finalize : bool) (newParticipantData : option DocumentData) : Run unit :=
  let step := optContributionStep newParticipantData in
  when (downloadCondition finalize step)
    (downloadStep w ceremony circuit finalize) ;;
  when (computeCondition finalize step)
    (computeStep w ceremony circuit entropyOrBeacon ghUsername finalize) ;;
  when (uploadCondition finalize step)
    (uploadStep w ceremony circuit finalize newParticipantData) ;;
  when (verifyCondition finalize step)
    (verifyStep w ceremony circuit ghUsername).

End ContributionRun.

(** Modelled from the spec: the checkpoint authority is outside the
    sources; a request for progress moves the step it holds to the next
    one (§4.1: COMPUTING after the download, UPLOADING after the
    computation, VERIFYING after the upload). *)
Definition nextStep (s : ParticipantContributionStep) : ParticipantContributionStep :=
  match s with
  | NOT_STARTED => DOWNLOADING
  | DOWNLOADING => COMPUTING
  | COMPUTING => UPLOADING
  | UPLOADING => VERIFYING
  | VERIFYING => COMPLETED
  | COMPLETED => COMPLETED
  end.

Definition isProgress (e : Event) : bool :=
  match e with
  | EvProgressToNextContributionStep _ => true
  | _ => false
  end.

(* ================================================================= *)
(** ** Reading a trace *)

(** The step that a call completes when it is answered: the download,
    the storing of the time and hash that ends the computation step,
    the completion of the multi-part upload, the verification. *)
Definition completes (e : Event) : option ParticipantContributionStep :=
  match e with
  | EvDownloadLocalFileFromBucket _ _ _ => Some DOWNLOADING
  | EvPermanentlyStoreCurrentContributionTimeAndHash _ _ _ => Some COMPUTING
  | EvCompleteMultiPartUpload _ _ _ _ _ => Some UPLOADING
  | EvVerifyContribution _ _ _ _ => Some VERIFYING
  | _ => None
  end.

Definition stepsCompleted (tr : list Event) : list ParticipantContributionStep :=
  flat_map (fun e => match completes e with Some k => [k] | None => [] end) tr.

(** The requests for progress of a trace, each with the step completed
    by the call made just before it (if any) and with the step that the
    authority holds after it, [held] being the step held before. *)
Fixpoint advancements (held : ParticipantContributionStep) (previous : option Event)
    (tr : list Event)
    : list (option ParticipantContributionStep * ParticipantContributionStep) :=
  match tr with
  | [] => []
  | e :: tr' =>
      if isProgress e then
        (match previous with Some p => completes p | None => None end, nextStep held)
          :: advancements (nextStep held) (Some e) tr'
      else advancements held (Some e) tr'
  end.

Definition isComputation (e : Event) : bool :=
  match e with
  | EvZKeyContribute _ _ _ _ | EvZKeyBeacon _ _ _ _ => true
  | _ => false
  end.

Definition isDownload (e : Event) : bool :=
  match e with
  | EvDownloadLocalFileFromBucket _ _ _ => true
  | _ => false
  end.

Definition isOpen (e : Event) : bool :=
  match e with
  | EvOpenMultiPartUpload _ _ _ => true
  | _ => false
  end.

Definition isStoreUploadId (e : Event) : bool :=
  match e with
  | EvTemporaryStoreCurrentContributionMultiPartUploadId _ _ => true
  | _ => false
  end.

Definition isUploadEvent (e : Event) : bool :=
  match e with
  | EvOpenMultiPartUpload _ _ _
  | EvTemporaryStoreCurrentContributionMultiPartUploadId _ _
  | EvGeneratePreSignedUrlsParts _ _ _ _ _ _
  | EvTransmitPart _ _ _
  | EvTemporaryStoreCurrentContributionUploadedChunkData _ _ _
  | EvCompleteMultiPartUpload _ _ _ _ _ => true
  | _ => false
  end.

(** The calls of [uploadParts]. *)
Definition isPartEvent (e : Event) : bool :=
  match e with
  | EvTransmitPart _ _ _
  | EvTemporaryStoreCurrentContributionUploadedChunkData _ _ _ => true
  | _ => false
  end.

(** The part numbers transmitted, in order. *)
Definition transmitted (e : Event) : list nat :=
  match e with
  | EvTransmitPart n _ _ => [n]
  | _ => []
  end.

Definition transmittedParts (tr : list Event) : list nat :=
  flat_map transmitted tr.





Definition isSome {A : Type} (o : option A) : bool :=
  match o with
  | Some _ => true
  | None => false
  end.

(** Line 293: no temporary data, or temporary data without upload
    identifier. *)
Definition startsFromScratch (tempContributionData : option TempContributionData) : bool :=
  match tempContributionData with
  | None => true
  | Some temp => falsyString (uploadId temp)
  end.

(** The step to which a call belongs; a request for progress belongs
    to none. *)
Definition blockOf (e : Event) : option ParticipantContributionStep :=
  match e with
  | EvDownloadLocalFileFromBucket _ _ _ => Some DOWNLOADING
  | EvZKeyContribute _ _ _ _
  | EvZKeyBeacon _ _ _ _
  | EvPermanentlyStoreCurrentContributionTimeAndHash _ _ _ => Some COMPUTING
  | EvOpenMultiPartUpload _ _ _
  | EvTemporaryStoreCurrentContributionMultiPartUploadId _ _
  | EvGeneratePreSignedUrlsParts _ _ _ _ _ _
  | EvTransmitPart _ _ _
  | EvTemporaryStoreCurrentContributionUploadedChunkData _ _ _
  | EvCompleteMultiPartUpload _ _ _ _ _ => Some UPLOADING
  | EvVerifyContribution _ _ _ _ => Some VERIFYING
  | EvProgressToNextContributionStep _ => None
  end.

(** The trace of a step that went through: calls that complete
    nothing, then the call that completes step [k], then the request
    for progress when [advance] holds. *)
Definition doneShape (k : ParticipantContributionStep) (advance : bool)
    (ceremonyId : string) (tr : list Event) : Prop :=
  exists pre e,
    tr = (pre ++ e :: (if advance then [EvProgressToNextContributionStep ceremonyId]
                       else []))%list
    /\ Forall (fun x => completes x = None /\ isProgress x = false) pre
    /\ completes e = Some k.

(** Whether the call that completes the download, the computation or
    the upload is answered. *)
Definition answered (w : World) (e : Event) : bool :=
  match e with
  | EvDownloadLocalFileFromBucket _ _ _ => downloadResolves w
  | EvPermanentlyStoreCurrentContributionTimeAndHash _ _ _ => storeTimeAndHashResolves w
  | EvCompleteMultiPartUpload _ _ _ _ _ => completeResolves w
  | _ => false
  end.

(** Every such call that is answered is followed at once by a request
    for progress. *)
Fixpoint progressFollows (w : World) (tr : list Event) : Prop :=
  match tr with
  | [] => True
  | e :: post =>
      (answered w e = true ->
       exists ceremonyId post', post = EvProgressToNextContributionStep ceremonyId :: post')
      /\ progressFollows w post
  end.

(** The order of the steps. *)
Definition rank (s : ParticipantContributionStep) : nat :=
  match s with
  | NOT_STARTED => 0
  | DOWNLOADING => 1
  | COMPUTING => 2
  | UPLOADING => 3
  | VERIFYING => 4
  | COMPLETED => 5
  end.

Definition fourSteps : list ParticipantContributionStep :=
  [DOWNLOADING; COMPUTING; UPLOADING; VERIFYING].

(** "The checkpoint's current step is at-or-before that step". *)
Definition atOrBefore (current k : ParticipantContributionStep) : bool :=
  (rank current <=? rank k)%nat.

(** The checkpoint's current step is one of DOWNLOADING, ..., [k]. *)
Definition fromDownloadingTo (current k : ParticipantContributionStep) : bool :=
  (rank DOWNLOADING <=? rank current)%nat && (rank current <=? rank k)%nat.

(** The same for a step that may be absent from the checkpoint. *)
Definition reached (current : option ParticipantContributionStep)
    (k : ParticipantContributionStep) : bool :=
  match current with
  | Some s => fromDownloadingTo s k
  | None => false
  end.

(* ================================================================= *)
(** ** An example world *)

Definition sampleTranscript : string :=
  "Contribution #4 alice:" ++ LF_only
  ++ "Contribution Hash: " ++ LF_TAB_TAB ++ "0a1b2c3d 4e5f6071"
  ++ LF_TAB_TAB ++ "8293a4b5 c6d7e8f9" ++ LF_only ++ "10213243 54657687"
  ++ LF_TAB_TAB ++ "98a9bacb dcedfe0f" ++ LF_only.

(** Every service answers; a file of 25 bytes goes in parts of 10. *)
Definition sampleWorld : World :=
  {| CONFIG_PRESIGNED_URL_EXPIRATION_IN_SECONDS := Some "7200";
     contributionTranscriptsPath := "output/contribute/transcripts";
     finalTranscriptsPath := "output/finalize/transcripts";
     contributionsPath := "output/contribute/zkeys";
     finalZkeysPath := "output/finalize/zkeys";
     getBucketName := fun prefix => prefix ++ "-ph2-ceremony";
     mime_lookup := fun _ => None;
     readFile := fun _ => sampleTranscript;
     fileSize := fun _ => 25%nat;
     partSize := 10%nat;
     timer_ms := 61000;
     downloadResolves := true;
     progressResolves := true;
     computeResolves := true;
     storeTimeAndHashResolves := true;
     openedUploadId := Some "fresh-upload";
     storeUploadIdResolves := true;
     tempUpload := None;
     preSignedUrlOf := Some (fun n => "https://storage/part/" ++ Number_toString (Z.of_nat n));
     transmittedETag := fun n => Some ("etag-" ++ Number_toString (Z.of_nat n));
     storeChunkResolves := true;
     completeResolves := true;
     verification := Some (Some (mkVerdict true 1500 90061000)) |}.

(** The same world, but the computation leaves a transcript without
    contribution hash. *)
Definition hashlessWorld : World :=
  {| CONFIG_PRESIGNED_URL_EXPIRATION_IN_SECONDS :=
       CONFIG_PRESIGNED_URL_EXPIRATION_IN_SECONDS sampleWorld;
     contributionTranscriptsPath := contributionTranscriptsPath sampleWorld;
     finalTranscriptsPath := finalTranscriptsPath sampleWorld;
     contributionsPath := contributionsPath sampleWorld;
     finalZkeysPath := finalZkeysPath sampleWorld;
     getBucketName := getBucketName sampleWorld;
     mime_lookup := mime_lookup sampleWorld;
     readFile := fun _ => "Contribution #4 alice:" ++ LF_only ++ "Contribution Hash: ";
     fileSize := fileSize sampleWorld;
     partSize := partSize sampleWorld;
     timer_ms := timer_ms sampleWorld;
     downloadResolves := true;
     progressResolves := true;
     computeResolves := true;
     storeTimeAndHashResolves := true;
     openedUploadId := openedUploadId sampleWorld;
     storeUploadIdResolves := true;
     tempUpload := tempUpload sampleWorld;
     preSignedUrlOf := preSignedUrlOf sampleWorld;
     transmittedETag := transmittedETag sampleWorld;
     storeChunkResolves := true;
     completeResolves := true;
     verification := verification sampleWorld |}.

(** The world [w], the checkpoint authority holding [session]. *)
Definition holding (w : World) (session : TempContributionData) : World :=
  {| CONFIG_PRESIGNED_URL_EXPIRATION_IN_SECONDS :=
       CONFIG_PRESIGNED_URL_EXPIRATION_IN_SECONDS w;
     contributionTranscriptsPath := contributionTranscriptsPath w;
     finalTranscriptsPath := finalTranscriptsPath w;
     contributionsPath := contributionsPath w;
     finalZkeysPath := finalZkeysPath w;
     getBucketName := getBucketName w;
     mime_lookup := mime_lookup w;
     readFile := readFile w;
     fileSize := fileSize w;
     partSize := partSize w;
     timer_ms := timer_ms w;
     downloadResolves := downloadResolves w;
     progressResolves := progressResolves w;
     computeResolves := computeResolves w;
     storeTimeAndHashResolves := storeTimeAndHashResolves w;
     openedUploadId := openedUploadId w;
     storeUploadIdResolves := storeUploadIdResolves w;
     tempUpload := Some session;
     preSignedUrlOf := preSignedUrlOf w;
     transmittedETag := transmittedETag w;
     storeChunkResolves := storeChunkResolves w;
     completeResolves := completeResolves w;
     verification := verification w |}.

Definition sampleCeremony : CeremonyDocument := mkCeremony "ceremony-1" "demo".
Definition sampleCircuit : CircuitDocument := mkCircuit "circuit-1" "multiplier" 3.

(* ================================================================= *)
(** ** Other helpers of [utils.ts] *)

(** The [while] loop of [estimatePoT] (lines 379-382), on a bound on
    the number of turns; [None] when the bound is reached, which
    [estimatePoT_loop_least] shows never to happen with the bound
    chosen below. *)
Fixpoint estimatePoT_loop (fuel : nat) (constraints outputs power pot : Z) : option Z :=
  if (constraints + outputs >? pot)%Z then
    match fuel with
    | O => None
    | S fuel' =>
        estimatePoT_loop fuel' constraints outputs (power + 1)%Z (2 ^ (power + 1))%Z
    end
  else Some power.

(** [estimatePoT] (lines 375-385), on integers. *)
Definition estimatePoT (constraints outputs : Z) : option Z :=
  let power := 2%Z in
  let pot := (2 ^ power)%Z in
  estimatePoT_loop (Z.to_nat (constraints + outputs)) constraints outputs power pot.

(** [Number (s)] for a string [s] made of decimal digits only; [None]
    stands for every other string, on which the conversion is not
    modelled. *)
Definition Number_ofDigits (s : string) : option Z :=
  option_map Z.of_uint (DecimalString.NilZero.uint_of_string s).

(** [convertToDoubleDigits] (line 190). *)
Definition convertToDoubleDigits (amount : Z) : string :=
  if (amount <? 10)%Z then String "0" (Number_toString amount)
  else Number_toString amount.

(** The template of lines 1044-1046 (also 592, 607-609, 623-625,
    866-868, 1151-1153, 1164-1166): hours, minutes and seconds, each
    through [convertToDoubleDigits], with colons between. *)
Definition clockText (t : Timing) : string :=
  convertToDoubleDigits (hours t) ++ ":" ++ convertToDoubleDigits (minutes t)
    ++ ":" ++ convertToDoubleDigits (seconds t).

(** The characters of the class of [extractPrefix] (line 404), a
    character being a code unit below 256. White space ([\s]) is TAB,
    LF, VT, FF, CR, SP and NBSP; the symbols are the backquote, the
    tilde, ! @ # $ % ^ & * ( ) | + - = ? ; : the two quotes, the comma,
    the dot, < > { } [ ], the backslash and the slash. The [i] flag adds
    nothing, no letter having a symbol as upper case. *)
Definition isWhiteSpace (c : ascii) : bool :=
  let n := nat_of_ascii c in
  ((9 <=? n) && (n <=? 13) || (n =? 32) || (n =? 160))%nat.

Definition isPrefixSymbol (c : ascii) : bool :=
  existsb (Ascii.eqb c)
    (list_ascii_of_string "`~!@#$%^&*()|+-=?;:',.<>{}[]\/")
  || Ascii.eqb c (ascii_of_nat 34).

(** [String.prototype.toLowerCase] on a code unit below 256: the
    letters A-Z, and the letters of 192-222 but the multiplication
    sign 215, move up by 32. Above 255, which is outside the model, the
    lower case of a character can take more code units than the
    character. *)
Definition toLowerCase_char (c : ascii) : ascii :=
  let n := nat_of_ascii c in
  if ((65 <=? n) && (n <=? 90)
      || (192 <=? n) && (n <=? 222) && negb (n =? 215))%nat
  then ascii_of_nat (n + 32) else c.

Fixpoint String_map (f : ascii -> ascii) (s : string) : string :=
  match s with
  | EmptyString => EmptyString
  | String c s' => String (f c) (String_map f s')
  end.

(** [extractPrefix] (lines 402-404): every character of the class
    becomes a hyphen, then the string is put in lower case. *)
Definition extractPrefix (str : string) : string :=
  String_map toLowerCase_char
    (String_map (fun c => if isWhiteSpace c || isPrefixSymbol c then "-"%char else c) str).

(** The fields that [getNextCircuitForContribution] reads of a circuit
    document: [id] and [data.sequencePosition]. *)
Record CircuitInfo : Set := mkCircuitInfo
  { info_id : string;
    sequencePosition : Z }.

(** [getNextCircuitForContribution] (lines 694-707); in the answer
    [None] stands for the [undefined] of [at (0)]. *)
Definition getNextCircuitForContribution (circuits : list CircuitInfo)
    (nextCircuitPosition : Z) : Run (option CircuitInfo) :=
  let filteredCircuits :=
    filter (fun circuit => (sequencePosition circuit =? nextCircuitPosition)%Z) circuits in
  (if negb (List.length filteredCircuits =? 1)%nat
   then showError_exit GENERIC_ERROR_RETRIEVING_DATA
   else ret tt) ;;
  ret (hd_error filteredCircuits).

(** The two variables that the callback of [createExpirationCountdown]
    updates (lines 458-482). *)
Record Countdown : Set := mkCountdown
  { cd_durationInSeconds : Z;
    cd_seconds : Z }.

(** Line 459: the state when the timer is set. *)
Definition createExpirationCountdown (durationInSeconds : Z) : Countdown :=
  {| cd_durationInSeconds := durationInSeconds;
     cd_seconds := if (durationInSeconds <=? 60)%Z then durationInSeconds else 60%Z |}.

(** What one call of the callback does: it writes the minutes and the
    seconds of [00:m:s] and leaves a new state, or the countdown is
    expired, [showError (GENERIC_COUNTDOWN_EXPIRED, true)] ending the
    process. *)
Inductive Tick : Set :=
| Written (next : Countdown) (minutesShown secondsShown : Z)
| CountdownExpired.

(** The callback, lines 462-480. *)
Definition countdownTick (intervalInSeconds : Z) (c : Countdown) : Tick :=
  if negb (cd_durationInSeconds c =? 0)%Z then
    let durationInSeconds := (cd_durationInSeconds c - intervalInSeconds)%Z in
    let seconds := (cd_seconds c - intervalInSeconds)%Z in
    let seconds := if (js_rem seconds 60 =? 0)%Z then 0%Z else seconds in
    Written (mkCountdown durationInSeconds seconds)
      (Math_floor (inject_Z durationInSeconds / 60)) seconds
  else CountdownExpired.

(** The state after [n] calls of the callback, [None] when the
    countdown has expired by then. *)
Fixpoint countdownTicks (n : nat) (intervalInSeconds : Z) (c : Countdown)
    : option Countdown :=
  match n with
  | O => Some c
  | S n' =>
      match countdownTick intervalInSeconds c with
      | Written next _ _ => countdownTicks n' intervalInSeconds next
      | CountdownExpired => None
      end
  end.

(** The decimal digits. *)
Definition isDigit (c : ascii) : bool :=
  let n := nat_of_ascii c in ((48 <=? n) && (n <=? 57))%nat.

(** [String.prototype.split] with a separator of one character. *)
Fixpoint String_split (separator : ascii) (s : string) : list string :=
  match s with
  | EmptyString => [EmptyString]
  | String c s' =>
      if Ascii.eqb c separator then EmptyString :: String_split separator s'
      else match String_split separator s' with
           | piece :: pieces => String c piece :: pieces
           | [] => [String c EmptyString]
           end
  end.

(** [extractPoTFromFilename] (lines 393-394): [pop ()] is the last
    piece, [at (0)] the first one. *)
Definition extractPoTFromFilename (potFileName : string) : option Z :=
  match hd_error (rev (String_split "_" potFileName)) with
  | Some piece =>
      match hd_error (String_split "." piece) with
      | Some powers => Number_ofDigits powers
      | None => None
      end
  | None => None
  end.

(** How [getCircuitMetadataFromR1csFile] ends: with a value, with
    [showError (GENERIC_R1CS_MISSING_INFO, true)], or with the
    [TypeError] of a method called on [undefined]. *)
Inductive Metadata : Set :=
| MetadataValue (value : string)
| GENERIC_R1CS_MISSING_INFO
| MetadataTypeError.

(** [getCircuitMetadataFromR1csFile] (lines 359-367). The regular
    expression is taken by what [match] answers with it: the text of
    the first match, or [None] for [null]. *)
Definition getCircuitMetadataFromR1csFile (circuitInfo : string)
    (rgx : string -> option string) : Metadata :=
  let matchInfo := rgx circuitInfo in
  match matchInfo with
  | None => GENERIC_R1CS_MISSING_INFO
  | Some text =>
      match nth_error (String_split ":" text) 1 with
      | None => MetadataTypeError
      | Some afterColon =>
          match hd_error (String_split "#" (String_replace " " "" afterColon)) with
          | None => MetadataTypeError
          | Some beforeHash => MetadataValue (String_replace LF_only "" beforeHash)
          end
      end
  end.

(** The object keys that a call reads from and writes to in the
    bucket, the local zkey files that a computation reads and writes,
    and the upload identifier that a call carries. *)
Definition downloadedKey (e : Event) : list string :=
  match e with
  | EvDownloadLocalFileFromBucket _ objectKey _ => [objectKey]
  | _ => []
  end.

Definition uploadedKey (e : Event) : list string :=
  match e with
  | EvOpenMultiPartUpload _ objectKey _
  | EvGeneratePreSignedUrlsParts _ objectKey _ _ _ _
  | EvCompleteMultiPartUpload _ objectKey _ _ _ => [objectKey]
  | _ => []
  end.

Definition computedFiles (e : Event) : list (string * string) :=
  match e with
  | EvZKeyContribute lastZkey newZkey _ _
  | EvZKeyBeacon lastZkey newZkey _ _ => [(lastZkey, newZkey)]
  | _ => []
  end.

Definition uploadIdOf (e : Event) : list string :=
  match e with
  | EvTemporaryStoreCurrentContributionMultiPartUploadId _ uploadId
  | EvGeneratePreSignedUrlsParts _ _ uploadId _ _ _
  | EvCompleteMultiPartUpload _ _ uploadId _ _ => [uploadId]
  | _ => []
  end.

(** The calls that only a contribution makes: the computation with
    entropy, the requests for progress and the temporary records of the
    upload. *)
Definition isContributionOnly (e : Event) : bool :=
  match e with
  | EvZKeyContribute _ _ _ _
  | EvProgressToNextContributionStep _
  | EvTemporaryStoreCurrentContributionMultiPartUploadId _ _
  | EvTemporaryStoreCurrentContributionUploadedChunkData _ _ _ => true
  | _ => false
  end.

(** The template of lines 556-558 of [handleTimedoutMessageForContributor]:
    days, hours, minutes and seconds, each through
    [convertToDoubleDigits]. *)
Definition retryText (t : Timing) : string :=
  convertToDoubleDigits (days t) ++ ":" ++ convertToDoubleDigits (hours t)
    ++ ":" ++ convertToDoubleDigits (minutes t)
    ++ ":" ++ convertToDoubleDigits (seconds t).

(** Lines 550-559: the text written for a timeout that ends at
    [endDate], read at the time [now], both in milliseconds. *)
Definition timeoutRetryText (endDate now : Z) : string :=
  retryText (getSecondsMinutesHoursFromMillis (inject_Z (endDate - now))).

(** [Array.prototype.sort] with the comparator
    [(a, b) => a.data.sequencePosition - b.data.sequencePosition]: the
    sort is stable, so a document goes before the documents of the same
    position that came after it. *)
Fixpoint insertBySequencePosition (c : CircuitInfo) (l : list CircuitInfo)
    : list CircuitInfo :=
  match l with
  | [] => [c]
  | d :: l' =>
      if (sequencePosition c <=? sequencePosition d)%Z then c :: d :: l'
      else d :: insertBySequencePosition c l'
  end.

Fixpoint sortBySequencePosition (l : list CircuitInfo) : list CircuitInfo :=
  match l with
  | [] => []
  | c :: l' => insertBySequencePosition c (sortBySequencePosition l')
  end.

(** [getCeremonyCircuits] ([contribute/index.ts], lines 27-34), from
    the documents that the query of the collection answers. *)
Definition getCeremonyCircuits (documents : list CircuitInfo) : list CircuitInfo :=
  sortBySequencePosition documents.

(** The texts that a sequence of items denotes: a literal denotes
    itself, [.+] one or more characters that are not line terminators. *)
Definition noLineTerminator (s : string) : bool :=
  forallb (fun c => negb (isLineTerminator c)) (list_ascii_of_string s).

Fixpoint denotes (re : list RegexItem) (m : string) : Prop :=
  match re with
  | [] => m = EmptyString
  | Lit l :: re' => exists m', m = l ++ m' /\ denotes re' m'
  | AnyPlus :: re' =>
      exists a m', m = a ++ m' /\ a <> EmptyString /\ noLineTerminator a = true
                   /\ denotes re' m'
  end.

(** The contribution hashes that a call stores. *)
Definition storedHash (e : Event) : list string :=
  match e with
  | EvPermanentlyStoreCurrentContributionTimeAndHash _ _ contributionHash =>
      [contributionHash]
  | _ => []
  end.

(* ================================================================= *)
(** * Properties *)

Local Open Scope list_scope.
Local Open Scope Z_scope.

(* ----------------------------------------------------------------- *)
(** ** Runs *)

Lemma trace_bind {A B : Type} (m : Run A) (k : A -> Run B) :
  trace (bind m k)
  = (trace m ++ match outcome m with
                | Done a => trace (k a)
                | Failed _ => []
                end)%list.
Proof.
  destruct m as [tr [a | f]]; cbn.
  - destruct (k a) as [tr' o]. reflexivity.
  - rewrite app_nil_r. reflexivity.
Qed.

Lemma outcome_bind {A B : Type} (m : Run A) (k : A -> Run B) :
  outcome (bind m k)
  = match outcome m with
    | Done a => outcome (k a)
    | Failed f => Failed f
    end.
Proof.
  destruct m as [tr [a | f]]; cbn.
  - destruct (k a) as [tr' o]. reflexivity.
  - reflexivity.
Qed.

Lemma trace_await {A : Type} (e : Event) (answer : option A) :
  trace (await e answer) = [e].
Proof. reflexivity. Qed.

Lemma outcome_await {A : Type} (e : Event) (answer : option A) :
  outcome (await e answer)
  = match answer with
    | Some a => Done a
    | None => Failed Rejected
    end.
Proof. reflexivity. Qed.

Lemma trace_ret {A : Type} (a : A) : trace (ret a) = [].
Proof. reflexivity. Qed.

Lemma outcome_ret {A : Type} (a : A) : outcome (ret a) = Done a.
Proof. reflexivity. Qed.

Lemma bind_done_inv {A B : Type} (m : Run A) (k : A -> Run B) (b : B) :
  outcome (bind m k) = Done b ->
  exists a, outcome m = Done a /\ outcome (k a) = Done b.
Proof.
  rewrite outcome_bind. destruct (outcome m) as [a | f]; [ | discriminate].
  intros H. exists a. split; [reflexivity | exact H].
Qed.

Lemma Forall_trace_bind {A B : Type} (P : Event -> Prop) (m : Run A) (k : A -> Run B) :
  Forall P (trace m) -> (forall a, Forall P (trace (k a))) ->
  Forall P (trace (bind m k)).
Proof.
  intros Hm Hk. rewrite trace_bind. apply Forall_app. split; [exact Hm | ].
  destruct (outcome m); [apply Hk | constructor].
Qed.

Lemma Forall_trace_await {A : Type} (P : Event -> Prop) (e : Event) (answer : option A) :
  P e -> Forall P (trace (await e answer)).
Proof. intros He. cbn. constructor; [exact He | constructor]. Qed.

Lemma Forall_trace_when (P : Event -> Prop) (b : bool) (m : Run unit) :
  Forall P (trace m) -> Forall P (trace (when b m)).
Proof. intros Hm. destruct b; cbn; [exact Hm | constructor]. Qed.

(* ----------------------------------------------------------------- *)
(** ** Floors of rationals *)

Lemma Qfloor_unique (x : Q) (z : Z) :
  (inject_Z z <= x)%Q -> (x < inject_Z (z + 1))%Q -> Qfloor x = z.
Proof.
  intros Hlo Hhi.
  apply Qfloor_resp_le in Hlo. rewrite Qfloor_Z in Hlo.
  assert (Qfloor x < z + 1).
  { destruct (Z_lt_le_dec (Qfloor x) (z + 1)) as [ | Hge]; [assumption | exfalso].
    apply (Qlt_irrefl x).
    apply Qlt_le_trans with (inject_Z (z + 1)); [assumption | ].
    apply Qle_trans with (inject_Z (Qfloor x)); [ | apply Qfloor_le].
    rewrite <- Zle_Qle. assumption. }
  lia.
Qed.

Lemma Qfloor_bounds (x : Q) :
  (inject_Z (Qfloor x) <= x)%Q /\ (x < inject_Z (Qfloor x) + 1)%Q.
Proof.
  split; [apply Qfloor_le | ].
  generalize (Qlt_floor x). rewrite inject_Z_plus. trivial.
Qed.

Lemma Qfloor_sub_mult (x : Q) (k c : Z) :
  Qfloor (x - inject_Z k * inject_Z c) = Qfloor x - k * c.
Proof.
  destruct (Qfloor_bounds x) as [Hlo Hhi].
  apply Qfloor_unique.
  - unfold Z.sub. rewrite inject_Z_plus, inject_Z_opp, inject_Z_mult. lra.
  - replace (Qfloor x - k * c + 1) with ((Qfloor x + 1) + - (k * c)) by ring.
    rewrite !inject_Z_plus, inject_Z_opp, inject_Z_mult.
    change (inject_Z 1) with 1%Q. lra.
Qed.

Lemma Qfloor_div_pos (x : Q) (n : Z) :
  0 < n -> Qfloor (x / inject_Z n) = Qfloor x / n.
Proof.
  intros Hn.
  assert (Hq : (0 < inject_Z n)%Q) by (change 0%Q with (inject_Z 0); rewrite <- Zlt_Qlt; exact Hn).
  destruct (Qfloor_bounds x) as [Hlo Hhi].
  pose proof (Z.div_mod (Qfloor x) n ltac:(lia)) as Hdm.
  pose proof (Z.mod_pos_bound (Qfloor x) n Hn) as Hmod.
  set (q := Qfloor x / n) in *. set (r := Qfloor x mod n) in *.
  assert (Hx : (inject_Z n * inject_Z q <= x)%Q).
  { apply Qle_trans with (inject_Z (Qfloor x)); [ | assumption].
    rewrite <- inject_Z_mult, <- Zle_Qle. lia. }
  assert (Hy : (x < inject_Z n * (inject_Z q + 1))%Q).
  { apply Qlt_le_trans with (inject_Z (Qfloor x) + 1)%Q; [assumption | ].
    change 1%Q with (inject_Z 1). rewrite <- !inject_Z_plus, <- inject_Z_mult, <- Zle_Qle. nia. }
  apply Qfloor_unique.
  - apply Qle_shift_div_l; [assumption | ]. lra.
  - apply Qlt_shift_div_r; [assumption | ].
    rewrite inject_Z_plus. change (inject_Z 1) with 1%Q. lra.
Qed.

(* ----------------------------------------------------------------- *)
(** ** Time decomposition *)

Lemma rem_is_mod (a b : Z) : 0 <= a -> 0 < b -> Z.rem a b = a mod b.
Proof. intros Ha Hb. apply Z.rem_mod_nonneg; assumption. Qed.

Lemma sub_quot_is_mod (a b : Z) : 0 < b -> a - a / b * b = a mod b.
Proof. intros Hb. rewrite (Z.mod_eq a b) by lia. ring. Qed.

Lemma div_of_mod_bound (a b c : Z) :
  0 < c -> 0 < b -> 0 <= (a mod (b * c)) / c < b.
Proof.
  intros Hc Hb.
  pose proof (Z.mod_pos_bound a (b * c) ltac:(nia)) as [Hlo Hhi].
  split.
  - apply Z.div_pos; lia.
  - apply Z.div_lt_upper_bound; lia.
Qed.

(** The code and the worded algorithm agree on every input. *)
Lemma decomposeMillis_spec (millis : Q) :
  decomposeMillis millis = decompositionSpec millis.
Proof.
  unfold decomposeMillis, decompositionSpec, Math_floor, js_rem.
  set (d0 := (millis / 1000)%Q).
  change 86400%Q with (inject_Z 86400).
  change 3600%Q with (inject_Z 3600).
  change 60%Q with (inject_Z 60).
  rewrite (Qfloor_div_pos d0 86400) by lia.
  set (s := Qfloor d0).
  set (d1 := (d0 - _)%Q).
  assert (H1 : Qfloor d1 = s mod 86400).
  { unfold d1. rewrite Qfloor_sub_mult. fold s. apply sub_quot_is_mod. lia. }
  rewrite (Qfloor_div_pos d1 3600), H1 by lia.
  rewrite (sub_quot_is_mod s 86400) by lia.
  pose proof (div_of_mod_bound s 24 3600 ltac:(lia) ltac:(lia)) as Hh.
  change (24 * 3600) with 86400 in Hh.
  rewrite (rem_is_mod (s mod 86400 / 3600) 24) by lia.
  rewrite (Z.mod_small (s mod 86400 / 3600) 24) by lia.
  set (h := s mod 86400 / 3600) in *.
  set (d2 := (d1 - _)%Q).
  assert (H2 : Qfloor d2 = s mod 86400 - h * 3600).
  { unfold d2. rewrite Qfloor_sub_mult, H1. reflexivity. }
  assert (Hr2 : s mod 86400 - h * 3600 = (s mod 86400) mod 3600).
  { unfold h. apply sub_quot_is_mod. lia. }
  rewrite (Qfloor_div_pos d2 60), H2 by lia.
  set (r2 := s mod 86400 - h * 3600) in *.
  pose proof (div_of_mod_bound (s mod 86400) 60 60 ltac:(lia) ltac:(lia)) as Hm.
  change (60 * 60) with 3600 in Hm. rewrite <- Hr2 in Hm.
  rewrite (rem_is_mod (r2 / 60) 60) by lia.
  set (d3 := (d2 - _)%Q).
  assert (H3 : Qfloor d3 = r2 - (r2 / 60) mod 60 * 60).
  { unfold d3. rewrite Qfloor_sub_mult, H2. reflexivity. }
  rewrite H3.
  assert (Hs : 0 <= r2 - (r2 / 60) mod 60 * 60).
  { rewrite (Z.mod_small (r2 / 60) 60) by lia.
    rewrite sub_quot_is_mod by lia. apply Z.mod_pos_bound. lia. }
  rewrite rem_is_mod by lia.
  reflexivity.
Qed.

(** Ranges of the worded algorithm: every field but [days] is within
    its natural bounds, whatever the input. *)
Lemma decompositionSpec_bounds (millis : Q) :
  let t := decompositionSpec millis in
  0 <= seconds t < 60 /\ 0 <= minutes t < 60 /\ 0 <= hours t < 24.
Proof.
  unfold decompositionSpec; cbn [seconds minutes hours].
  repeat split; try (apply Z.mod_pos_bound; lia).
Qed.

Lemma decompositionSpec_days_nonneg (millis : Q) :
  (0 <= millis)%Q -> 0 <= days (decompositionSpec millis).
Proof.
  intros Hm. unfold decompositionSpec; cbn [days].
  apply Z.div_pos; [ | lia].
  change 0 with (Qfloor (inject_Z 0)). apply Qfloor_resp_le.
  change (inject_Z 0) with 0%Q.
  apply Qle_shift_div_l; [reflexivity | lra].
Qed.

Lemma clampTiming_id (t : Timing) :
  seconds t < 60 -> minutes t < 60 -> hours t < 24 -> clampTiming t = t.
Proof.
  intros Hs Hm Hh. destruct t as [s m h d]; cbn in *.
  unfold clampTiming; cbn.
  destruct (Z.leb_spec 60 s), (Z.leb_spec 60 m), (Z.leb_spec 24 h); try lia.
  reflexivity.
Qed.

(** The worded algorithm recomposes to the whole seconds. *)
Lemma decompositionSpec_recompose (millis : Q) :
  let t := decompositionSpec millis in
  days t * 86400 + hours t * 3600 + minutes t * 60 + seconds t
  = Qfloor (millis / 1000).
Proof.
  unfold decompositionSpec; cbn [seconds minutes hours days].
  set (s := Qfloor (millis / 1000)).
  rewrite (sub_quot_is_mod s 86400) by lia.
  pose proof (div_of_mod_bound s 24 3600 ltac:(lia) ltac:(lia)) as Hh.
  change (24 * 3600) with 86400 in Hh.
  rewrite (Z.mod_small (s mod 86400 / 3600) 24) by lia.
  rewrite (sub_quot_is_mod (s mod 86400) 3600) by lia.
  pose proof (div_of_mod_bound (s mod 86400) 60 60 ltac:(lia) ltac:(lia)) as Hm.
  change (60 * 60) with 3600 in Hm.
  rewrite (Z.mod_small ((s mod 86400) mod 3600 / 60) 60) by lia.
  rewrite (sub_quot_is_mod ((s mod 86400) mod 3600) 60) by lia.
  rewrite Z.mod_mod by lia.
  pose proof (Z.div_mod s 86400 ltac:(lia)).
  pose proof (Z.div_mod (s mod 86400) 3600 ltac:(lia)).
  pose proof (Z.div_mod ((s mod 86400) mod 3600) 60 ltac:(lia)).
  lia.
Qed.

Lemma Qfloor_thousandth (millis : Z) :
  Qfloor (inject_Z millis / 1000) = millis / 1000.
Proof.
  change 1000%Q with (inject_Z 1000).
  rewrite Qfloor_div_pos by lia. rewrite Qfloor_Z. reflexivity.
Qed.

(** The value returned is the one of the worded algorithm. *)
Lemma getSecondsMinutesHoursFromMillis_spec (millis : Q) :
  getSecondsMinutesHoursFromMillis millis = decompositionSpec millis.
Proof.
  unfold getSecondsMinutesHoursFromMillis.
  rewrite decomposeMillis_spec.
  pose proof (decompositionSpec_bounds millis) as (Hs & Hmin & Hh).
  apply clampTiming_id; cbv zeta in *; lia.
Qed.

(** Whatever number is reduced, the remainder is below the modulus:
    the conditions of the three clamps are false for every value of
    the floors, not only for those of exact arithmetic. *)
Lemma js_rem_below (x m : Z) : 0 < m -> (m <=? js_rem x m) = false.
Proof.
  intros Hm. unfold js_rem. apply Z.leb_gt.
  pose proof (Z.rem_bound_abs x m ltac:(lia)). lia.
Qed.

(* ----------------------------------------------------------------- *)
(** ** Claims on the time decomposition *)

(** C7. For every non-negative millisecond input the three clamps of
    [getSecondsMinutesHoursFromMillis] are dead: before the clamp the
    seconds are below 60, the minutes below 60 and the hours below 24
    (and none of the four values is negative), so the value returned is
    the unclamped one. The conditions of the clamps are false already
    because each value is a remainder modulo 60 or 24, whatever number
    is reduced. *)
Theorem clamp_unreachable (millis : Q) :
  (0 <= millis)%Q ->
  let t := decomposeMillis millis in
  (0 <= seconds t < 60 /\ 0 <= minutes t < 60 /\ 0 <= hours t < 24 /\ 0 <= days t)
  /\ (60 <=? seconds t) = false
  /\ (60 <=? minutes t) = false
  /\ (24 <=? hours t) = false
  /\ getSecondsMinutesHoursFromMillis millis = t
  /\ (forall floored : Z,
        (60 <=? js_rem floored 60) = false /\ (24 <=? js_rem floored 24) = false).
Proof.
  intros Hm t.
  pose proof (decompositionSpec_bounds millis) as (Hs & Hmin & Hh).
  pose proof (decompositionSpec_days_nonneg millis Hm) as Hd.
  cbv zeta in Hs, Hmin, Hh.
  rewrite <- decomposeMillis_spec in Hs, Hmin, Hh, Hd. fold t in Hs, Hmin, Hh, Hd.
  split; [tauto | ].
  split; [apply Z.leb_gt; lia | ].
  split; [apply Z.leb_gt; lia | ].
  split; [apply Z.leb_gt; lia | ].
  split.
  - unfold getSecondsMinutesHoursFromMillis. fold t.
    apply clampTiming_id; lia.
  - intros floored. split; apply js_rem_below; lia.
Qed.

Lemma clamp_unreachable_witness :
  (0 <= 90061000)%Q
  /\ (60 <=? seconds (decomposeMillis 90061000)) = false
  /\ getSecondsMinutesHoursFromMillis 90061000 = decomposeMillis 90061000.
Proof.
  assert (H : (0 <= 90061000)%Q) by (unfold Qle; simpl; lia).
  split; [exact H | ].
  pose proof (clamp_unreachable 90061000 H) as (_ & Hs & _ & _ & Heq & _).
  split; [exact Hs | exact Heq].
Defined.

(** C8. The value returned by [getSecondsMinutesHoursFromMillis] is the
    one of the worded algorithm (whole seconds, days = delta / 86400,
    hours = remaining / 3600 mod 24, minutes = remaining / 60 mod 60,
    seconds = remainder mod 60) on every input; 90,061,000 ms give one
    day, one hour, one minute and one second, and 0 ms gives four zeros. *)
Theorem decomposition_follows_algorithm :
  (forall millis : Q,
      getSecondsMinutesHoursFromMillis millis = decompositionSpec millis)
  /\ getSecondsMinutesHoursFromMillis 90061000
     = {| seconds := 1; minutes := 1; hours := 1; days := 1 |}
  /\ getSecondsMinutesHoursFromMillis 0
     = {| seconds := 0; minutes := 0; hours := 0; days := 0 |}.
Proof.
  split; [exact getSecondsMinutesHoursFromMillis_spec | split; reflexivity].
Qed.

(** C10. For a non-negative number of milliseconds that is a multiple
    of 1000, the fields returned recompose to the number of seconds:
    days * 86400 + hours * 3600 + minutes * 60 + seconds = millis / 1000. *)
Theorem decomposition_recomposes (millis : Z) :
  0 <= millis -> (1000 | millis) ->
  let t := getSecondsMinutesHoursFromMillis (inject_Z millis) in
  days t * 86400 + hours t * 3600 + minutes t * 60 + seconds t = millis / 1000.
Proof.
  intros _ _ t. subst t.
  rewrite getSecondsMinutesHoursFromMillis_spec, <- Qfloor_thousandth.
  apply decompositionSpec_recompose.
Qed.

Lemma decomposition_recomposes_witness :
  0 <= 90061000 /\ (1000 | 90061000)
  /\ let t := getSecondsMinutesHoursFromMillis (inject_Z 90061000) in
     days t * 86400 + hours t * 3600 + minutes t * 60 + seconds t = 90061.
Proof.
  assert (Hpos : 0 <= 90061000) by lia.
  assert (Hdiv : (1000 | 90061000)) by (exists 90061; reflexivity).
  split; [exact Hpos | split; [exact Hdiv | ]].
  exact (decomposition_recomposes 90061000 Hpos Hdiv).
Defined.

(* ----------------------------------------------------------------- *)
(** ** Zkey index formatting *)

Lemma zeros_shift (n : nat) (s : string) :
  (zeros n ++ String "0" s)%string = (zeros (S n) ++ s)%string.
Proof.
  induction n as [ | n IH]; cbn.
  - reflexivity.
  - f_equal. exact IH.
Qed.

Lemma length_zeros_append (n : nat) (s : string) :
  String.length (zeros n ++ s)%string = (n + String.length s)%nat.
Proof.
  induction n as [ | n IH]; cbn; [reflexivity | ].
  f_equal. exact IH.
Qed.

(** With enough fuel the loop stops because its condition is false, and
    it has put the missing zeros in front. *)
Lemma padLoop_zeros (fuel : nat) (index : string) :
  (String.length firstZkeyIndex - String.length index <= fuel)%nat ->
  padLoop fuel index
  = (zeros (String.length firstZkeyIndex - String.length index) ++ index)%string.
Proof.
  revert index. induction fuel as [ | fuel IH]; intros index Hfuel; cbn [padLoop].
  - destruct (Nat.ltb_spec (String.length index) (String.length firstZkeyIndex)) as [Hlt | Hge].
    + lia.
    + replace (String.length firstZkeyIndex - String.length index)%nat with 0%nat by lia.
      reflexivity.
  - destruct (Nat.ltb_spec (String.length index) (String.length firstZkeyIndex)) as [Hlt | Hge].
    + rewrite IH by (cbn [String.length]; lia).
      cbn [String.length]. rewrite zeros_shift. f_equal. f_equal. lia.
    + replace (String.length firstZkeyIndex - String.length index)%nat with 0%nat by lia.
      reflexivity.
Qed.

Lemma formatZkeyIndex_zeros (progress : Z) :
  formatZkeyIndex progress
  = (zeros (5 - String.length (Number_toString progress)) ++ Number_toString progress)%string.
Proof.
  unfold formatZkeyIndex. rewrite padLoop_zeros by lia. reflexivity.
Qed.

(** The bound on the turns of the loop is never what stops it. *)
Lemma formatZkeyIndex_fuel (progress : Z) (extra : nat) :
  padLoop (String.length firstZkeyIndex + extra) (Number_toString progress)
  = formatZkeyIndex progress.
Proof.
  unfold formatZkeyIndex. rewrite !padLoop_zeros by lia. reflexivity.
Qed.

(** C9. [formatZkeyIndex] pads the decimal index with zeros on the left
    up to the width of [firstZkeyIndex], which is 5: index 3 gives
    "00003"; an index whose digits are at least as many as the width,
    such as 100000, comes back unchanged; in every case the digits are
    a suffix of the result, whose length is the larger of 5 and the
    number of digits. *)
Theorem formatZkeyIndex_pads :
  String.length firstZkeyIndex = 5%nat
  /\ formatZkeyIndex 3 = "00003"%string
  /\ formatZkeyIndex 100000 = "100000"%string
  /\ (forall progress : Z,
        formatZkeyIndex progress
        = (zeros (5 - String.length (Number_toString progress))
             ++ Number_toString progress)%string)
  /\ (forall progress : Z,
        String.length (formatZkeyIndex progress)
        = Nat.max 5 (String.length (Number_toString progress)))
  /\ (forall progress : Z,
        (5 <= String.length (Number_toString progress))%nat ->
        formatZkeyIndex progress = Number_toString progress).
Proof.
  split; [reflexivity | ].
  split; [reflexivity | ].
  split; [reflexivity | ].
  split; [exact formatZkeyIndex_zeros | ].
  split.
  - intros progress. rewrite formatZkeyIndex_zeros, length_zeros_append. lia.
  - intros progress Hlen. rewrite formatZkeyIndex_zeros.
    replace (5 - String.length (Number_toString progress))%nat with 0%nat by lia.
    reflexivity.
Qed.

(* ----------------------------------------------------------------- *)
(** ** Sorted lists of part numbers *)








Lemma isRecorded_In (n : nat) (parts : list ETagWithPartNumber) :
  isRecorded n parts = true <-> In n (map PartNumber parts).
Proof.
  unfold isRecorded. rewrite existsb_exists, in_map_iff.
  split; intros (p & H1 & H2).
  - exists p. apply Nat.eqb_eq in H2. split; assumption.
  - exists p. split; [assumption | apply Nat.eqb_eq; assumption].
Qed.

Lemma isRecorded_app (n : nat) (l1 l2 : list ETagWithPartNumber) :
  isRecorded n (l1 ++ l2) = isRecorded n l1 || isRecorded n l2.
Proof. unfold isRecorded. apply existsb_app. Qed.


(* ----------------------------------------------------------------- *)
(** ** The multi-part upload *)

Lemma bind_ret_l {A B : Type} (a : A) (k : A -> Run B) : bind (ret a) k = k a.
Proof. unfold bind, ret. destruct (k a) as [tr o]. reflexivity. Qed.

Lemma bind_assoc {A B C : Type} (m : Run A) (f : A -> Run B) (g : B -> Run C) :
  bind (bind m f) g = bind m (fun a => bind (f a) g).
Proof.
  destruct m as [tr [a | e]]; cbn; [ | reflexivity].
  destruct (f a) as [tr1 [b1 | e1]]; cbn.
  - destruct (g b1) as [tr2 o2]. rewrite app_assoc. reflexivity.
  - reflexivity.
Qed.

Lemma bind_ext {A B : Type} (m : Run A) (f g : A -> Run B) :
  (forall a, f a = g a) -> bind m f = bind m g.
Proof.
  intros H. destruct m as [tr [a | e]]; cbn; [rewrite H | ]; reflexivity.
Qed.

Lemma flat_map_nil_Forall {A B : Type} (f : A -> list B) (l : list A) :
  Forall (fun a => f a = []) l -> flat_map f l = [].
Proof.
  induction 1 as [ | a l Ha _ IH]; cbn; [reflexivity | ].
  rewrite Ha, IH. reflexivity.
Qed.

Lemma uploadParts_events (w : World) (cs : list ChunkWithUrl) (ct : option string)
    (cf : option HttpsCallable) (cid : option string) (acc : list ETagWithPartNumber) :
  Forall (fun e => isPartEvent e = true) (trace (uploadParts w cs ct cf cid acc)).
Proof.
  revert acc. induction cs as [ | chunk rest IH]; intros acc; cbn [uploadParts].
  - constructor.
  - destruct (isRecorded (partNumber chunk) acc); [apply IH | ].
    apply Forall_trace_bind; [apply Forall_trace_await; reflexivity | ].
    intros eTag. apply Forall_trace_bind; [ | intros _; apply IH].
    destruct cf as [f | ]; [destruct cid as [id | ] | ];
      try (apply Forall_trace_await; reflexivity); constructor.
Qed.


Lemma startFromScratch_events (w : World) (b k : string) (cfId : option HttpsCallable)
    (cid : option string) :
  Forall (fun e => isUploadEvent e = true /\ completes e = None)
    (trace (startFromScratch w b k cfId cid)).
Proof.
  unfold startFromScratch.
  apply Forall_trace_bind; [apply Forall_trace_await; split; reflexivity | ].
  intros uid. apply Forall_trace_bind; [ | intros; constructor].
  destruct cfId; [apply Forall_trace_await; split; reflexivity | constructor].
Qed.

Lemma startOrResume_events (w : World) (b k : string) (cfId : option HttpsCallable)
    (cid : option string) (temp : option TempContributionData) :
  Forall (fun e => isUploadEvent e = true /\ completes e = None)
    (trace (startOrResume w b k cfId cid temp)).
Proof.
  unfold startOrResume.
  destruct temp as [t | ]; [ | apply startFromScratch_events].
  destruct (falsyString (uploadId t)); [apply startFromScratch_events | constructor].
Qed.

Lemma getChunksAndPreSignedUrls_events (w : World) (b k p uid exp : string)
    (cid : option string) :
  Forall (fun e => isUploadEvent e = true /\ completes e = None)
    (trace (getChunksAndPreSignedUrls w b k p uid exp cid)).
Proof.
  unfold getChunksAndPreSignedUrls. cbv zeta.
  apply Forall_trace_bind; [apply Forall_trace_await; split; reflexivity | ].
  intros urls. constructor.
Qed.

Lemma uploadParts_events' (w : World) (cs : list ChunkWithUrl) (ct : option string)
    (cf : option HttpsCallable) (cid : option string) (acc : list ETagWithPartNumber) :
  Forall (fun e => isUploadEvent e = true /\ completes e = None)
    (trace (uploadParts w cs ct cf cid acc)).
Proof.
  eapply Forall_impl; [ | apply uploadParts_events].
  intros e He. destruct e; try discriminate; split; reflexivity.
Qed.

(** The trace of a multi-part upload: calls of the upload only, the
    completion being the last call, when it is made. *)
Lemma multiPartUpload_shape (w : World) (b k p : string)
    (cfId cfChunk : option HttpsCallable) (cid : option string)
    (temp : option TempContributionData) :
  let r := multiPartUpload w b k p cfId cfChunk cid temp in
  exists pre last,
    trace r = pre ++ last
    /\ Forall (fun e => isUploadEvent e = true /\ completes e = None) pre
    /\ (last = [] \/ exists uid parts, last = [EvCompleteMultiPartUpload b k uid parts cid])
    /\ (forall u, outcome r = Done u -> last <> [])
    /\ (last <> [] -> completeResolves w = true -> outcome r = Done tt).
Proof.
  cbv zeta. unfold multiPartUpload. cbv zeta.
  rewrite trace_bind, outcome_bind.
  destruct (falsyString (CONFIG_PRESIGNED_URL_EXPIRATION_IN_SECONDS w)).
  { exists [], []. cbn.
    repeat split; [constructor | left; reflexivity | discriminate | congruence]. }
  cbn [trace outcome ret fst snd app].
  rewrite trace_bind, outcome_bind.
  pose proof (startOrResume_events w b k cfId cid temp) as Hstart.
  destruct (outcome (startOrResume w b k cfId cid temp)) as [session | f].
  2:{ exists (trace (startOrResume w b k cfId cid temp)), [].
      repeat split; [exact Hstart | left; reflexivity | discriminate | congruence]. }
  rewrite trace_bind, outcome_bind.
  set (exp := match CONFIG_PRESIGNED_URL_EXPIRATION_IN_SECONDS w with
              | Some s => s | None => ""%string end).
  pose proof (getChunksAndPreSignedUrls_events w b k p (fst session) exp cid) as Hget.
  destruct (outcome (getChunksAndPreSignedUrls w b k p (fst session) exp cid)) as [cs | f].
  2:{ exists (trace (startOrResume w b k cfId cid temp)
                ++ trace (getChunksAndPreSignedUrls w b k p (fst session) exp cid)), [].
      rewrite !app_nil_r.
      repeat split;
        [apply Forall_app; split; assumption | left; reflexivity | discriminate
        | congruence]. }
  rewrite trace_bind, outcome_bind.
  pose proof (uploadParts_events' w cs (mime_lookup w p) cfChunk cid (snd session)) as Hparts.
  destruct (outcome (uploadParts w cs (mime_lookup w p) cfChunk cid (snd session)))
    as [parts | f].
  2:{ exists (trace (startOrResume w b k cfId cid temp)
                ++ trace (getChunksAndPreSignedUrls w b k p (fst session) exp cid)
                ++ trace (uploadParts w cs (mime_lookup w p) cfChunk cid (snd session))), [].
      rewrite !app_nil_r.
      repeat split;
        [repeat (apply Forall_app; split); assumption | left; reflexivity | discriminate
        | congruence]. }
  exists (trace (startOrResume w b k cfId cid temp)
            ++ trace (getChunksAndPreSignedUrls w b k p (fst session) exp cid)
            ++ trace (uploadParts w cs (mime_lookup w p) cfChunk cid (snd session))),
         (trace (closeMultiPartUpload w b k (fst session) parts cid)).
  split; [rewrite <- !app_assoc; reflexivity | ].
  split; [repeat (apply Forall_app; split); assumption | ].
  split; [right; eexists _, _; reflexivity | ].
  split; [intros _ _; discriminate | ].
  intros _ Hres. unfold closeMultiPartUpload. rewrite outcome_await, Hres. reflexivity.
Qed.

Lemma multiPartUpload_events (w : World) (b k p : string)
    (cfId cfChunk : option HttpsCallable) (cid : option string)
    (temp : option TempContributionData) :
  Forall (fun e => isUploadEvent e = true)
    (trace (multiPartUpload w b k p cfId cfChunk cid temp)).
Proof.
  destruct (multiPartUpload_shape w b k p cfId cfChunk cid temp)
    as (pre & last & -> & Hpre & Hlast & _ & _).
  apply Forall_app. split.
  - eapply Forall_impl; [ | exact Hpre]. intros e [He _]. exact He.
  - destruct Hlast as [-> | (uid & parts & ->)]; repeat constructor.
Qed.

Lemma existsb_false_Forall {A : Type} (f : A -> bool) (l : list A) :
  Forall (fun a => f a = false) l -> existsb f l = false.
Proof.
  induction 1 as [ | a l Ha _ IH]; cbn; [reflexivity | ].
  rewrite Ha, IH. reflexivity.
Qed.

(** A part that is recorded is never transmitted, however the run ends. *)
Lemma uploadParts_skips (w : World) (cs : list ChunkWithUrl) (ct : option string)
    (cf : option HttpsCallable) (cid : option string) (acc : list ETagWithPartNumber)
    (i : nat) :
  isRecorded i acc = true ->
  ~ In i (transmittedParts (trace (uploadParts w cs ct cf cid acc))).
Proof.
  revert acc. induction cs as [ | chunk rest IH]; intros acc Hrec; cbn [uploadParts].
  - cbn. tauto.
  - destruct (isRecorded (partNumber chunk) acc) eqn:Hchunk; [apply IH; exact Hrec | ].
    rewrite trace_bind. cbn [await trace outcome fst snd app].
    unfold transmittedParts. cbn [flat_map transmitted app].
    intros [Heq | Hin].
    + rewrite Heq, Hrec in Hchunk. discriminate.
    + destruct (transmittedETag w (partNumber chunk)) as [eTag | ]; [ | exact Hin].
      rewrite trace_bind, flat_map_app in Hin. apply in_app_or in Hin.
      destruct Hin as [Hin | Hin].
      * destruct cf as [f | ]; [destruct cid as [id | ] | ]; cbn in Hin; tauto.
      * destruct (outcome _) in Hin; [ | exact Hin].
        revert Hin. apply IH. rewrite isRecorded_app, Hrec. reflexivity.
Qed.

Lemma multiPartUpload_resumed_eq (w : World) (b k p : string)
    (cfId cfChunk : option HttpsCallable) (cid : option string)
    (temp : TempContributionData) :
  falsyString (CONFIG_PRESIGNED_URL_EXPIRATION_IN_SECONDS w) = false ->
  falsyString (uploadId temp) = false ->
  exists uid,
    uploadId temp = Some uid
    /\ multiPartUpload w b k p cfId cfChunk cid (Some temp)
       = (cs <- getChunksAndPreSignedUrls w b k p uid
                  (match CONFIG_PRESIGNED_URL_EXPIRATION_IN_SECONDS w with
                   | Some s => s
                   | None => ""%string
                   end) cid ;;
          parts <- uploadParts w cs (mime_lookup w p) cfChunk cid (chunks temp) ;;
          closeMultiPartUpload w b k uid parts cid)%run.
Proof.
  intros Hcfg Hid. destruct temp as [[uid | ] recorded]; [ | discriminate].
  exists uid. split; [reflexivity | ].
  unfold multiPartUpload, startOrResume. rewrite Hcfg. cbv zeta.
  cbn [uploadId chunks] in *. rewrite Hid.
  rewrite !bind_ret_l. reflexivity.
Qed.

Lemma multiPartUpload_scratch_eq (w : World) (b k p : string)
    (cfId cfChunk : option HttpsCallable) (cid : option string)
    (temp : option TempContributionData) :
  falsyString (CONFIG_PRESIGNED_URL_EXPIRATION_IN_SECONDS w) = false ->
  startsFromScratch temp = true ->
  multiPartUpload w b k p cfId cfChunk cid temp
  = (uid <- openMultiPartUpload w b k cid ;;
     match cfId with
     | Some _ =>
         await (EvTemporaryStoreCurrentContributionMultiPartUploadId cid uid)
           (resolves (storeUploadIdResolves w))
     | None => ret tt
     end ;;
     cs <- getChunksAndPreSignedUrls w b k p uid
             (match CONFIG_PRESIGNED_URL_EXPIRATION_IN_SECONDS w with
              | Some s => s
              | None => ""%string
              end) cid ;;
     parts <- uploadParts w cs (mime_lookup w p) cfChunk cid [] ;;
     closeMultiPartUpload w b k uid parts cid)%run.
Proof.
  intros Hcfg Hscratch.
  unfold multiPartUpload. rewrite Hcfg. cbv zeta. rewrite bind_ret_l.
  assert (Hstart : startOrResume w b k cfId cid temp = startFromScratch w b k cfId cid).
  { unfold startOrResume. destruct temp as [t | ]; [ | reflexivity].
    cbn in Hscratch. rewrite Hscratch. reflexivity. }
  rewrite Hstart. unfold startFromScratch.
  rewrite bind_assoc. apply bind_ext. intros uid.
  rewrite bind_assoc. apply bind_ext. intros _.
  rewrite bind_ret_l. reflexivity.
Qed.

Lemma closeMultiPartUpload_trace (w : World) (b k uid : string)
    (parts : list ETagWithPartNumber) (cid : option string) :
  trace (closeMultiPartUpload w b k uid parts cid)
  = [EvCompleteMultiPartUpload b k uid (sortByPartNumber parts) cid].
Proof. reflexivity. Qed.


Lemma getChunksAndPreSignedUrls_trace (w : World) (b k p uid exp : string)
    (cid : option string) :
  trace (getChunksAndPreSignedUrls w b k p uid exp cid)
  = [EvGeneratePreSignedUrlsParts b k uid
       (missingParts (sessionParts w uid) (partCount (fileSize w p) (partSize w)))
       exp cid].
Proof.
  unfold getChunksAndPreSignedUrls. cbv zeta. rewrite trace_bind. cbn.
  destruct (preSignedUrlOf w); reflexivity.
Qed.




(* ----------------------------------------------------------------- *)
(** ** Claims on the multi-part upload *)





Lemma transfer_events (w : World) (b k p uid exp : string) (ct : option string)
    (cf : option HttpsCallable) (cid : option string) (acc : list ETagWithPartNumber) :
  Forall (fun e => isOpen e = false /\ isStoreUploadId e = false)
    (trace (cs <- getChunksAndPreSignedUrls w b k p uid exp cid ;;
            parts <- uploadParts w cs ct cf cid acc ;;
            closeMultiPartUpload w b k uid parts cid)).
Proof.
  apply Forall_trace_bind.
  - rewrite getChunksAndPreSignedUrls_trace. repeat constructor.
  - intros cs. apply Forall_trace_bind.
    + eapply Forall_impl; [ | apply uploadParts_events].
      intros e He. destruct e; try discriminate; split; reflexivity.
    + intros parts. rewrite closeMultiPartUpload_trace. repeat constructor.
Qed.

(** C4, as amended. When the expiration of the pre-signed urls is
    configured, the upload opens a new multi-part upload exactly when it
    is given no temporary data or temporary data without upload
    identifier; the fresh identifier is stored, by the call that follows
    the opening, exactly when moreover the storing callable is given and
    the opening is answered; with temporary data holding an identifier
    no upload is opened and no identifier is stored: the run is the
    request of the authorizations for the identifier held, the upload of
    the parts given the chunks held, and the completion for the
    identifier held, so every call that carries an upload identifier
    carries the one held, and no part recorded in the data is
    transmitted. *)
Theorem upload_opens_or_resumes
    (w : World) (b k p : string) (cfId cfChunk : option HttpsCallable)
    (cid : option string) (temp : option TempContributionData) :
  let r := multiPartUpload w b k p cfId cfChunk cid temp in
  let n := partCount (fileSize w p) (partSize w) in
  let exp := match CONFIG_PRESIGNED_URL_EXPIRATION_IN_SECONDS w with
             | Some s => s
             | None => ""%string
             end in
  falsyString (CONFIG_PRESIGNED_URL_EXPIRATION_IN_SECONDS w) = false ->
  existsb isOpen (trace r) = startsFromScratch temp
  /\ existsb isStoreUploadId (trace r)
     = startsFromScratch temp && isSome cfId && isSome (openedUploadId w)
  /\ (startsFromScratch temp = true ->
      exists rest,
        trace r = EvOpenMultiPartUpload b k cid :: rest
        /\ forall f fresh,
             cfId = Some f -> openedUploadId w = Some fresh ->
             exists rest',
               rest = EvTemporaryStoreCurrentContributionMultiPartUploadId cid fresh
                        :: rest')
  /\ (startsFromScratch temp = false ->
      exists t uid,
        temp = Some t
        /\ uploadId t = Some uid
        /\ r = (cs <- getChunksAndPreSignedUrls w b k p uid exp cid ;;
                parts <- uploadParts w cs (mime_lookup w p) cfChunk cid (chunks t) ;;
                closeMultiPartUpload w b k uid parts cid)%run
        /\ (exists rest,
              trace r
              = EvGeneratePreSignedUrlsParts b k uid
                  (missingParts (sessionParts w uid) n) exp cid :: rest)
        /\ Forall (fun e => forall u, In u (uploadIdOf e) -> u = uid) (trace r)
        /\ forall i, In i (map PartNumber (chunks t)) ->
                     ~ In i (transmittedParts (trace r))).
Proof.
  intros r n exp Hcfg. subst r.
  destruct (startsFromScratch temp) eqn:Hscratch.
  - (* from scratch *)
    rewrite (multiPartUpload_scratch_eq w b k p cfId cfChunk cid temp Hcfg Hscratch).
    fold exp.
    unfold openMultiPartUpload. rewrite trace_bind, trace_await, outcome_await.
    destruct (openedUploadId w) as [fresh | ].
    + rewrite trace_bind.
      pose proof (transfer_events w b k p fresh exp (mime_lookup w p) cfChunk cid [])
        as Hrest.
      set (transfer := trace (bind (getChunksAndPreSignedUrls w b k p fresh exp cid) _))
        in *.
      assert (Hopen : existsb isOpen transfer = false).
      { apply existsb_false_Forall.
        eapply Forall_impl; [ | exact Hrest]. intros e [He _]. exact He. }
      assert (Hstore : existsb isStoreUploadId transfer = false).
      { apply existsb_false_Forall.
        eapply Forall_impl; [ | exact Hrest]. intros e [_ He]. exact He. }
      destruct cfId as [f | ].
      * rewrite trace_await, outcome_await.
        destruct (storeUploadIdResolves w); cbn [resolves];
          cbn [existsb isOpen isStoreUploadId orb app isSome andb];
          rewrite ?Hopen, ?Hstore;
          (split; [reflexivity | split; [reflexivity | split; [ | discriminate]]]);
          intros _; eexists; (split; [reflexivity | ]);
          intros f' fresh' _ Hfresh; injection Hfresh as <-; eexists; reflexivity.
      * rewrite trace_ret, outcome_ret.
        cbn [existsb isOpen isStoreUploadId orb app isSome andb].
        rewrite ?Hopen, ?Hstore.
        split; [reflexivity | split; [reflexivity | split; [ | discriminate]]].
        intros _. eexists. split; [reflexivity | ].
        intros f' fresh' Hf. discriminate.
    + cbn. rewrite andb_false_r.
      split; [reflexivity | split; [reflexivity | split; [ | discriminate]]].
      intros _. exists []. split; [reflexivity | ]. intros f fresh _ Hfresh. discriminate.
  - (* resumed *)
    destruct temp as [t | ]; [ | discriminate]. cbn in Hscratch.
    destruct (multiPartUpload_resumed_eq w b k p cfId cfChunk cid t Hcfg Hscratch)
      as (uid & Huid & Heq).
    rewrite Heq. clear Heq. fold exp.
    pose proof (transfer_events w b k p uid exp (mime_lookup w p) cfChunk cid (chunks t))
      as Hrest.
    split.
    { apply existsb_false_Forall.
      eapply Forall_impl; [ | exact Hrest]. intros e [He _]. exact He. }
    split.
    { cbn [andb]. apply existsb_false_Forall.
      eapply Forall_impl; [ | exact Hrest]. intros e [_ He]. exact He. }
    split; [discriminate | ].
    intros _. exists t, uid.
    split; [reflexivity | ]. split; [exact Huid | ].
    split; [reflexivity | ].
    split.
    { rewrite trace_bind, getChunksAndPreSignedUrls_trace. fold n.
      eexists. reflexivity. }
    split.
    { apply Forall_trace_bind.
      - rewrite getChunksAndPreSignedUrls_trace. constructor; [ | constructor].
        intros u [<- | []]. reflexivity.
      - intros cs. apply Forall_trace_bind.
        + eapply Forall_impl; [ | apply uploadParts_events].
          intros e He u Hu. destruct e; try discriminate He; destruct Hu.
        + intros parts. rewrite closeMultiPartUpload_trace.
          constructor; [ | constructor]. intros u [<- | []]. reflexivity. }
    rewrite trace_bind, getChunksAndPreSignedUrls_trace.
    intros i Hi. unfold transmittedParts.
    cbn [app flat_map transmitted].
    destruct (outcome (getChunksAndPreSignedUrls w b k p uid exp cid)) as [cs | f];
      [ | cbn; tauto].
    rewrite trace_bind, flat_map_app. intros Hin. apply in_app_or in Hin.
    destruct Hin as [Hin | Hin].
    + revert Hin. apply uploadParts_skips. apply isRecorded_In. exact Hi.
    + destruct (outcome (uploadParts _ _ _ _ _ _)) in Hin; cbn in Hin; tauto.
Qed.

(** C4, as stated, fails: the upload of a finalization (lines 1095-1102:
    no temporary data, no storing callable) opens a new multi-part
    upload and never stores its identifier. *)
Lemma fresh_upload_id_not_stored_without_callable :
  let temp : option TempContributionData := None in
  let r := multiPartUpload sampleWorld "bucket" "key" "multiplier_final.zkey"
             None None None temp in
  outcome r = Done tt
  /\ startsFromScratch temp = true
  /\ existsb isOpen (trace r) = true
  /\ existsb isStoreUploadId (trace r) = false
  /\ ~ (existsb isOpen (trace r) && existsb isStoreUploadId (trace r) = true
        <-> startsFromScratch temp = true).
Proof.
  intros temp r.
  split; [reflexivity | ].
  split; [reflexivity | ].
  split; [reflexivity | ].
  split; [reflexivity | ].
  intros [_ H]. specialize (H eq_refl). vm_compute in H. discriminate.
Qed.

Lemma upload_opens_or_resumes_witness :
  let r := multiPartUpload sampleWorld "bucket" "key" "multiplier_00004.zkey"
             (Some "temporaryStoreCurrentContributionMultiPartUploadId"%string)
             (Some "temporaryStoreCurrentContributionUploadedChunkData"%string)
             (Some "ceremony-1"%string) None in
  falsyString (CONFIG_PRESIGNED_URL_EXPIRATION_IN_SECONDS sampleWorld) = false
  /\ existsb isOpen (trace r) = true
  /\ existsb isStoreUploadId (trace r) = true.
Proof.
  intros r.
  assert (Hcfg : falsyString (CONFIG_PRESIGNED_URL_EXPIRATION_IN_SECONDS sampleWorld) = false)
    by reflexivity.
  destruct (upload_opens_or_resumes sampleWorld "bucket" "key" "multiplier_00004.zkey"
              (Some "temporaryStoreCurrentContributionMultiPartUploadId"%string)
              (Some "temporaryStoreCurrentContributionUploadedChunkData"%string)
              (Some "ceremony-1"%string) None Hcfg) as (Hopen & Hstore & _).
  split; [exact Hcfg | ].
  split; [exact Hopen | exact Hstore].
Defined.

(* ----------------------------------------------------------------- *)
(** ** The steps of the contribution run *)

Lemma doneShape_stepsCompleted (k : ParticipantContributionStep) (advance : bool)
    (cid : string) (tr : list Event) :
  doneShape k advance cid tr -> stepsCompleted tr = [k].
Proof.
  intros (pre & e & -> & Hpre & He).
  unfold stepsCompleted. rewrite flat_map_app.
  rewrite (flat_map_nil_Forall _ pre).
  - cbn. rewrite He. destruct advance; reflexivity.
  - eapply Forall_impl; [ | exact Hpre]. intros x [Hx _]. rewrite Hx. reflexivity.
Qed.

Lemma advancements_quiet (held : ParticipantContributionStep) (previous : option Event)
    (pre rest : list Event) (e : Event) :
  Forall (fun x => completes x = None /\ isProgress x = false) pre ->
  isProgress e = false ->
  advancements held previous (pre ++ e :: rest) = advancements held (Some e) rest.
Proof.
  intros Hpre He. revert previous.
  induction Hpre as [ | x pre [_ Hx] _ IH]; intros previous; cbn [app advancements].
  - rewrite He. reflexivity.
  - rewrite Hx. apply IH.
Qed.

Lemma completes_not_progress (e : Event) (k : ParticipantContributionStep) :
  completes e = Some k -> isProgress e = false.
Proof. destruct e; cbn; intros H; try discriminate; reflexivity. Qed.

Lemma doneShape_advancements (k : ParticipantContributionStep) (cid : string)
    (tr rest : list Event) (held : ParticipantContributionStep)
    (previous : option Event) :
  doneShape k true cid tr ->
  advancements held previous (tr ++ rest)
  = (Some k, nextStep held)
      :: advancements (nextStep held) (Some (EvProgressToNextContributionStep cid)) rest.
Proof.
  intros (pre & e & -> & Hpre & He).
  rewrite <- app_assoc. cbn [app].
  rewrite (advancements_quiet _ _ _ _ _ Hpre (completes_not_progress _ _ He)).
  cbn [advancements isProgress]. rewrite He. reflexivity.
Qed.

Lemma doneShape_no_advancement (k : ParticipantContributionStep) (cid : string)
    (tr : list Event) (held : ParticipantContributionStep) (previous : option Event) :
  doneShape k false cid tr -> advancements held previous tr = [].
Proof.
  intros (pre & e & -> & Hpre & He).
  rewrite (advancements_quiet _ _ _ _ _ Hpre (completes_not_progress _ _ He)).
  reflexivity.
Qed.

Lemma when_true (m : Run unit) : when true m = m.
Proof. reflexivity. Qed.

Lemma when_false (m : Run unit) : when false m = ret tt.
Proof. reflexivity. Qed.

(** Four runs in sequence that go through: each goes through and the
    trace is the four traces in order. *)
Lemma sequence_done (a b c d : Run unit) :
  outcome (a ;; b ;; c ;; d) = Done tt ->
  outcome a = Done tt /\ outcome b = Done tt /\ outcome c = Done tt
  /\ outcome d = Done tt
  /\ trace (a ;; b ;; c ;; d) = trace a ++ trace b ++ trace c ++ trace d.
Proof.
  intros H.
  apply bind_done_inv in H. destruct H as ([] & Ha & H).
  apply bind_done_inv in H. destruct H as ([] & Hb & H).
  apply bind_done_inv in H. destruct H as ([] & Hc & Hd).
  repeat (split; [assumption | ]).
  rewrite trace_bind, Ha, trace_bind, Hb, trace_bind, Hc. reflexivity.
Qed.

(** Four runs in sequence, however they end: the calls of the first
    three, then nothing or the calls of the fourth. *)
Lemma sequence_trace (P : Event -> Prop) (a b c d : Run unit) :
  Forall P (trace a) -> Forall P (trace b) -> Forall P (trace c) ->
  exists X Y,
    trace (a ;; b ;; c ;; d) = X ++ Y
    /\ Forall P X
    /\ (Y = [] \/ Y = trace d).
Proof.
  intros Ha Hb Hc.
  rewrite trace_bind. destruct (outcome a) as [[] | f].
  2:{ exists (trace a), []. rewrite app_nil_r. auto. }
  rewrite trace_bind. destruct (outcome b) as [[] | f].
  2:{ exists (trace a ++ trace b), []. rewrite !app_nil_r.
      split; [reflexivity | split; [apply Forall_app; split; assumption | auto]]. }
  rewrite trace_bind. destruct (outcome c) as [[] | f].
  2:{ exists (trace a ++ trace b ++ trace c), []. rewrite !app_nil_r.
      split; [reflexivity | ].
      split; [repeat (apply Forall_app; split); assumption | auto]. }
  exists (trace a ++ trace b ++ trace c), (trace d).
  split; [rewrite <- !app_assoc; reflexivity | ].
  split; [repeat (apply Forall_app; split); assumption | auto].
Qed.

(** The calls of each step, however it ends. *)
Lemma downloadStep_events (w : World) (ceremony : CeremonyDocument)
    (circuit : CircuitDocument) (finalize : bool) :
  Forall (fun e => blockOf e = Some DOWNLOADING
                   \/ (finalize = false /\ isProgress e = true))
    (trace (downloadStep w ceremony circuit finalize)).
Proof.
  unfold downloadStep. cbv zeta.
  apply Forall_trace_bind; [apply Forall_trace_await; left; reflexivity | ].
  intros _. destruct finalize; cbn [negb when]; [constructor | ].
  apply Forall_trace_await. right. split; reflexivity.
Qed.

Lemma computeStep_events (w : World) (ceremony : CeremonyDocument)
    (circuit : CircuitDocument) (entropyOrBeacon ghUsername : string) (finalize : bool) :
  Forall (fun e => blockOf e = Some COMPUTING
                   \/ (finalize = false /\ isProgress e = true))
    (trace (computeStep w ceremony circuit entropyOrBeacon ghUsername finalize)).
Proof.
  unfold computeStep. cbv zeta.
  apply Forall_trace_bind.
  - unfold computeContribution.
    destruct finalize; apply Forall_trace_await; left; reflexivity.
  - intros _. destruct (String_match _ _) as [matched | ]; [ | constructor].
    apply Forall_trace_bind; [apply Forall_trace_await; left; reflexivity | ].
    intros _. destruct finalize; cbn [negb when]; [constructor | ].
    apply Forall_trace_await. right. split; reflexivity.
Qed.

Lemma uploadCall_events (w : World) (ceremony : CeremonyDocument)
    (circuit : CircuitDocument) (finalize : bool) (pd : option DocumentData) :
  Forall (fun e => isUploadEvent e = true)
    (trace (uploadCall w ceremony circuit finalize pd)).
Proof.
  unfold uploadCall. cbv zeta.
  destruct (negb finalize); apply multiPartUpload_events.
Qed.

Lemma uploadStep_events (w : World) (ceremony : CeremonyDocument)
    (circuit : CircuitDocument) (finalize : bool) (pd : option DocumentData) :
  Forall (fun e => blockOf e = Some UPLOADING
                   \/ (finalize = false /\ isProgress e = true))
    (trace (uploadStep w ceremony circuit finalize pd)).
Proof.
  unfold uploadStep.
  apply Forall_trace_bind.
  - eapply Forall_impl; [ | apply uploadCall_events].
    intros e He. left. destruct e; try discriminate; reflexivity.
  - intros _. destruct finalize; cbn [negb when]; [constructor | ].
    apply Forall_trace_await. right. split; reflexivity.
Qed.

Lemma verifyStep_trace (w : World) (ceremony : CeremonyDocument)
    (circuit : CircuitDocument) (ghUsername : string) :
  trace (verifyStep w ceremony circuit ghUsername)
  = [EvVerifyContribution (ceremony_id ceremony) (circuit_id circuit) ghUsername
       (getBucketName w (ceremony_prefix ceremony))].
Proof.
  unfold verifyStep, computeVerification.
  rewrite !trace_bind, trace_await, outcome_await.
  destruct (verification w) as [[data | ] | ]; reflexivity.
Qed.

(** The traces of the steps that go through. *)
Lemma downloadStep_done (w : World) (ceremony : CeremonyDocument)
    (circuit : CircuitDocument) (finalize : bool) :
  outcome (downloadStep w ceremony circuit finalize) = Done tt ->
  doneShape DOWNLOADING (negb finalize) (ceremony_id ceremony)
    (trace (downloadStep w ceremony circuit finalize)).
Proof.
  unfold downloadStep, downloadContribution, makeContributionStepProgress. cbv zeta.
  rewrite outcome_bind, trace_bind, outcome_await, trace_await.
  destruct (downloadResolves w); cbn [resolves]; [ | discriminate].
  intros _. exists []. eexists. cbn [app].
  split; [destruct finalize; reflexivity | ].
  split; [constructor | reflexivity].
Qed.

Lemma computeStep_done (w : World) (ceremony : CeremonyDocument)
    (circuit : CircuitDocument) (entropyOrBeacon ghUsername : string) (finalize : bool) :
  outcome (computeStep w ceremony circuit entropyOrBeacon ghUsername finalize) = Done tt ->
  doneShape COMPUTING (negb finalize) (ceremony_id ceremony)
    (trace (computeStep w ceremony circuit entropyOrBeacon ghUsername finalize)).
Proof.
  unfold computeStep, makeContributionStepProgress. cbv zeta.
  rewrite outcome_bind, trace_bind.
  destruct (outcome (computeContribution _ _ _ _ _ _)) as [[] | f] eqn:Hc; [ | discriminate].
  destruct (String_match _ _) as [matched | ]; [ | discriminate].
  rewrite outcome_bind, trace_bind, outcome_await, trace_await.
  destruct (storeTimeAndHashResolves w); cbn [resolves]; [ | discriminate].
  intros _.
  exists (trace (computeContribution w
                   (zkeyLocalPath w circuit finalize (currentZkeyIndexOf circuit))
                   (zkeyLocalPath w circuit finalize (newZkeyNameOf circuit finalize))
                   ghUsername entropyOrBeacon finalize)).
  eexists. split; [ | split].
  - f_equal. cbn [app]. f_equal. destruct finalize; reflexivity.
  - unfold computeContribution. destruct finalize; repeat constructor.
  - reflexivity.
Qed.

Lemma uploadStep_done (w : World) (ceremony : CeremonyDocument)
    (circuit : CircuitDocument) (finalize : bool) (pd : option DocumentData) :
  outcome (uploadStep w ceremony circuit finalize pd) = Done tt ->
  doneShape UPLOADING (negb finalize) (ceremony_id ceremony)
    (trace (uploadStep w ceremony circuit finalize pd)).
Proof.
  unfold uploadStep, makeContributionStepProgress.
  rewrite outcome_bind, trace_bind.
  destruct (outcome (uploadCall w ceremony circuit finalize pd)) as [[] | f] eqn:Hup;
    [ | discriminate].
  intros _.
  assert (Hshape : exists pre uid parts b k cid,
             trace (uploadCall w ceremony circuit finalize pd)
             = pre ++ [EvCompleteMultiPartUpload b k uid parts cid]
             /\ Forall (fun e => isUploadEvent e = true /\ completes e = None) pre).
  { unfold uploadCall in *. cbv zeta in *.
    destruct (negb finalize);
      match type of Hup with
      | outcome (multiPartUpload ?w ?b ?k ?p ?c1 ?c2 ?cid ?t) = _ =>
          destruct (multiPartUpload_shape w b k p c1 c2 cid t)
            as (pre & last & Htr & Hpre & Hlast & Hne & _);
          specialize (Hne tt Hup);
          destruct Hlast as [-> | (uid & parts & ->)]; [contradiction | ];
          exists pre, uid, parts, b, k, cid; split; assumption
      end. }
  destruct Hshape as (pre & uid & parts & b & k & cid & -> & Hpre).
  exists pre. eexists. rewrite <- app_assoc. cbn [app].
  split; [ | split].
  - f_equal. f_equal. destruct finalize; reflexivity.
  - eapply Forall_impl; [ | exact Hpre].
    intros e [He1 He2]. split; [exact He2 | ].
    destruct e; try discriminate; reflexivity.
  - reflexivity.
Qed.

Lemma verifyStep_done (w : World) (ceremony : CeremonyDocument)
    (circuit : CircuitDocument) (ghUsername : string) :
  doneShape VERIFYING false (ceremony_id ceremony)
    (trace (verifyStep w ceremony circuit ghUsername)).
Proof.
  rewrite verifyStep_trace. exists []. eexists.
  split; [reflexivity | ].
  split; [constructor | reflexivity].
Qed.

Lemma when_stepsCompleted (c advance : bool) (k : ParticipantContributionStep)
    (cid : string) (m : Run unit) :
  (c = true -> doneShape k advance cid (trace m)) ->
  stepsCompleted (trace (when c m)) = if c then [k] else [].
Proof.
  intros H. destruct c; cbn [when]; [ | reflexivity].
  apply (doneShape_stepsCompleted k advance cid). apply H. reflexivity.
Qed.

(** What the four conditions amount to when [!!DOWNLOADING] holds. *)
Lemma conditions_reached (truthy : ParticipantContributionStep -> bool) (finalize : bool)
    (step : option ParticipantContributionStep) :
  truthy DOWNLOADING = true ->
  downloadCondition truthy finalize step = finalize || reached step DOWNLOADING
  /\ computeCondition truthy finalize step = finalize || reached step COMPUTING
  /\ uploadCondition truthy finalize step = finalize || reached step UPLOADING
  /\ verifyCondition truthy finalize step = finalize || reached step VERIFYING.
Proof.
  intros Htruthy.
  unfold downloadCondition, computeCondition, uploadCondition, verifyCondition.
  destruct finalize; [repeat split; reflexivity | ].
  destruct step as [s | ]; [ | repeat split; reflexivity].
  destruct s; cbn; rewrite ?Htruthy, ?andb_false_r; repeat split; reflexivity.
Qed.

(* ----------------------------------------------------------------- *)
(** ** Claims on the contribution run *)

(** C1, as amended. In a run that goes through, and the member
    DOWNLOADING being truthy, each of the four steps is executed if and
    only if [finalize] is true or the step of the checkpoint is one of
    DOWNLOADING, ..., that step; the steps executed come in the order
    download, compute, upload, verify. With the checkpoint at
    DOWNLOADING and [finalize] false the four steps are executed; with
    the checkpoint at NOT_STARTED (or COMPLETED, or without step) and
    [finalize] false none is. *)
Theorem steps_run_from_checkpoint
    (truthy : ParticipantContributionStep -> bool) (w : World)
    (ceremony : CeremonyDocument) (circuit : CircuitDocument)
    (entropyOrBeacon ghUsername : string) (finalize : bool)
    (newParticipantData : option DocumentData) :
  let r := makeContribution truthy w ceremony circuit entropyOrBeacon ghUsername
             finalize newParticipantData in
  let step := optContributionStep newParticipantData in
  truthy DOWNLOADING = true ->
  outcome r = Done tt ->
  stepsCompleted (trace r) = filter (fun k => finalize || reached step k) fourSteps
  /\ (finalize = false -> step = Some DOWNLOADING -> stepsCompleted (trace r) = fourSteps)
  /\ (finalize = false -> step = Some NOT_STARTED -> trace r = []).
Proof.
  intros r step Htruthy Hdone. subst r.
  unfold makeContribution in *. cbv zeta in *. fold step in Hdone |- *.
  destruct (conditions_reached truthy finalize step Htruthy) as (Hc1 & Hc2 & Hc3 & Hc4).
  destruct (sequence_done _ _ _ _ Hdone) as (Hd & Hc & Hu & Hv & Htrace).
  assert (Hsteps :
    stepsCompleted
      (trace (when (downloadCondition truthy finalize step)
                (downloadStep w ceremony circuit finalize) ;;
              when (computeCondition truthy finalize step)
                (computeStep w ceremony circuit entropyOrBeacon ghUsername finalize) ;;
              when (uploadCondition truthy finalize step)
                (uploadStep w ceremony circuit finalize newParticipantData) ;;
              when (verifyCondition truthy finalize step)
                (verifyStep w ceremony circuit ghUsername)))
    = filter (fun k => finalize || reached step k) fourSteps).
  { rewrite Htrace. unfold stepsCompleted. rewrite !flat_map_app.
    fold (stepsCompleted
            (trace (when (downloadCondition truthy finalize step)
                      (downloadStep w ceremony circuit finalize)))).
    fold (stepsCompleted
            (trace (when (computeCondition truthy finalize step)
                      (computeStep w ceremony circuit entropyOrBeacon ghUsername finalize)))).
    fold (stepsCompleted
            (trace (when (uploadCondition truthy finalize step)
                      (uploadStep w ceremony circuit finalize newParticipantData)))).
    fold (stepsCompleted
            (trace (when (verifyCondition truthy finalize step)
                      (verifyStep w ceremony circuit ghUsername)))).
    rewrite (when_stepsCompleted _ (negb finalize) DOWNLOADING (ceremony_id ceremony)).
    2:{ intros E. rewrite E in Hd. apply downloadStep_done. exact Hd. }
    rewrite (when_stepsCompleted _ (negb finalize) COMPUTING (ceremony_id ceremony)).
    2:{ intros E. rewrite E in Hc. apply computeStep_done. exact Hc. }
    rewrite (when_stepsCompleted _ (negb finalize) UPLOADING (ceremony_id ceremony)).
    2:{ intros E. rewrite E in Hu. apply uploadStep_done. exact Hu. }
    rewrite (when_stepsCompleted _ false VERIFYING (ceremony_id ceremony)).
    2:{ intros _. apply verifyStep_done. }
    rewrite Hc1, Hc2, Hc3, Hc4. cbn [filter fourSteps].
    destruct (finalize || reached step DOWNLOADING),
      (finalize || reached step COMPUTING),
      (finalize || reached step UPLOADING),
      (finalize || reached step VERIFYING); reflexivity. }
  split; [exact Hsteps | ].
  split.
  - intros -> Hstep. rewrite Hsteps, Hstep. reflexivity.
  - intros -> Hstep. rewrite Hc1, Hc2, Hc3, Hc4, Hstep. reflexivity.
Qed.

Lemma steps_run_from_checkpoint_witness :
  let r := makeContribution (fun _ => true) sampleWorld sampleCeremony sampleCircuit
             "entropy" "alice" false (Some (mkParticipant (Some DOWNLOADING) None)) in
  outcome r = Done tt
  /\ stepsCompleted (trace r) = [DOWNLOADING; COMPUTING; UPLOADING; VERIFYING].
Proof.
  intros r.
  assert (Hdone : outcome r = Done tt) by (vm_compute; reflexivity).
  destruct (steps_run_from_checkpoint (fun _ => true) sampleWorld sampleCeremony
              sampleCircuit "entropy" "alice" false
              (Some (mkParticipant (Some DOWNLOADING) None)) eq_refl Hdone)
    as (_ & Hall & _).
  split; [exact Hdone | ].
  exact (Hall eq_refl eq_refl).
Defined.

(** C1, as stated, fails: with the checkpoint at NOT_STARTED and
    [finalize] false the run makes no call at all, while NOT_STARTED is
    at or before each of the four steps. *)
Lemma not_started_runs_no_step :
  let r := makeContribution (fun _ => true) sampleWorld sampleCeremony sampleCircuit
             "entropy" "alice" false (Some (mkParticipant (Some NOT_STARTED) None)) in
  outcome r = Done tt
  /\ trace r = []
  /\ filter (fun k => false || atOrBefore NOT_STARTED k) fourSteps = fourSteps
  /\ stepsCompleted (trace r)
     <> filter (fun k => false || atOrBefore NOT_STARTED k) fourSteps.
Proof.
  intros r.
  split; [reflexivity | ].
  split; [reflexivity | ].
  split; [reflexivity | ].
  vm_compute. discriminate.
Qed.

Lemma conditions_at_uploading (truthy : ParticipantContributionStep -> bool) :
  downloadCondition truthy false (Some UPLOADING) = false
  /\ computeCondition truthy false (Some UPLOADING) = false
  /\ uploadCondition truthy false (Some UPLOADING) = true
  /\ verifyCondition truthy false (Some UPLOADING) = true.
Proof.
  unfold downloadCondition, computeCondition, uploadCondition, verifyCondition.
  cbn. rewrite andb_false_r. repeat split; reflexivity.
Qed.

(** C2. A run with the checkpoint at UPLOADING and [finalize] false
    never downloads the previous contribution and never computes: it
    is the multi-part upload, given the [tempContributionData] of the
    participant data (the persisted upload session), then the request
    for progress, then the verification; so its trace begins with the
    calls of that upload, and every call of the run belongs to the
    upload or to the verification, or is a request for progress. When
    the persisted session holds an upload identifier (and the
    expiration is configured), no upload is opened and the first call
    of the run requests the authorizations for the identifier held. *)
Theorem resume_at_uploading
    (truthy : ParticipantContributionStep -> bool) (w : World)
    (ceremony : CeremonyDocument) (circuit : CircuitDocument)
    (entropyOrBeacon ghUsername : string) (data : DocumentData) :
  let r := makeContribution truthy w ceremony circuit entropyOrBeacon ghUsername
             false (Some data) in
  let bucketName := getBucketName w (ceremony_prefix ceremony) in
  let storagePath := zkeyStoragePath circuit (nextZkeyIndexOf circuit) in
  let localPath := zkeyLocalPath w circuit false (nextZkeyIndexOf circuit) in
  let upload :=
    multiPartUpload w bucketName storagePath localPath
      (Some "temporaryStoreCurrentContributionMultiPartUploadId"%string)
      (Some "temporaryStoreCurrentContributionUploadedChunkData"%string)
      (Some (ceremony_id ceremony))
      (tempContributionData data) in
  contributionStep data = Some UPLOADING ->
  r = (upload ;;
       makeContributionStepProgress w (ceremony_id ceremony) ;;
       verifyStep w ceremony circuit ghUsername)%run
  /\ existsb isDownload (trace r) = false
  /\ existsb isComputation (trace r) = false
  /\ (exists rest, trace r = trace upload ++ rest)
  /\ Forall (fun e => blockOf e = Some UPLOADING \/ blockOf e = Some VERIFYING
                      \/ isProgress e = true) (trace r)
  /\ (forall session held,
        tempContributionData data = Some session ->
        uploadId session = Some held -> held <> ""%string ->
        falsyString (CONFIG_PRESIGNED_URL_EXPIRATION_IN_SECONDS w) = false ->
        existsb isOpen (trace r) = false
        /\ exists partNumbers expiration rest,
             trace r
             = EvGeneratePreSignedUrlsParts bucketName storagePath held partNumbers
                 expiration (Some (ceremony_id ceremony)) :: rest).
Proof.
  intros r bucketName storagePath localPath upload Hstep.
  assert (Heq : r = (upload ;;
                     makeContributionStepProgress w (ceremony_id ceremony) ;;
                     verifyStep w ceremony circuit ghUsername)%run).
  { subst r upload. unfold makeContribution. cbv zeta.
    cbn [optContributionStep]. rewrite Hstep.
    destruct (conditions_at_uploading truthy) as (-> & -> & -> & ->).
    rewrite !when_false, !when_true, !bind_ret_l.
    unfold uploadStep, uploadCall. cbv zeta. cbn [negb when optTempContributionData].
    apply bind_assoc. }
  split; [exact Heq | ].
  assert (Hup : Forall (fun e => isUploadEvent e = true) (trace upload))
    by apply multiPartUpload_events.
  assert (Hall :
    Forall (fun e => blockOf e = Some UPLOADING \/ blockOf e = Some VERIFYING
                     \/ isProgress e = true) (trace r)).
  { rewrite Heq. apply Forall_trace_bind.
    - eapply Forall_impl; [ | exact Hup].
      intros e He. left. destruct e; try discriminate He; reflexivity.
    - intros _. apply Forall_trace_bind.
      + apply Forall_trace_await. right. right. reflexivity.
      + intros _. rewrite verifyStep_trace.
        constructor; [right; left; reflexivity | constructor]. }
  split.
  { apply existsb_false_Forall. eapply Forall_impl; [ | exact Hall].
    intros e He. destruct e; cbn in *; try reflexivity.
    destruct He as [He | [He | He]]; discriminate. }
  split.
  { apply existsb_false_Forall. eapply Forall_impl; [ | exact Hall].
    intros e He. destruct e; cbn in *; try reflexivity;
      destruct He as [He | [He | He]]; discriminate. }
  split; [rewrite Heq, trace_bind; eexists; reflexivity | ].
  split; [exact Hall | ].
  intros session held Hsession Hheld Hne Hcfg.
  assert (Hid : falsyString (uploadId session) = false).
  { rewrite Hheld. cbn. apply String.eqb_neq. exact Hne. }
  destruct (multiPartUpload_resumed_eq w bucketName storagePath localPath
              (Some "temporaryStoreCurrentContributionMultiPartUploadId"%string)
              (Some "temporaryStoreCurrentContributionUploadedChunkData"%string)
              (Some (ceremony_id ceremony)) session Hcfg Hid)
    as (uid & Huid & Hresumed).
  rewrite Hheld in Huid. injection Huid as <-.
  assert (Hupload : upload
                    = multiPartUpload w bucketName storagePath localPath
                        (Some "temporaryStoreCurrentContributionMultiPartUploadId"%string)
                        (Some "temporaryStoreCurrentContributionUploadedChunkData"%string)
                        (Some (ceremony_id ceremony)) (Some session)).
  { subst upload. rewrite Hsession. reflexivity. }
  split.
  - apply existsb_false_Forall. rewrite Heq. apply Forall_trace_bind.
    + rewrite Hupload, Hresumed.
      eapply Forall_impl; [ | apply transfer_events]. intros e [He _]. exact He.
    + intros _. apply Forall_trace_bind.
      * apply Forall_trace_await. reflexivity.
      * intros _. rewrite verifyStep_trace. repeat constructor.
  - rewrite Heq, trace_bind, Hupload, Hresumed, trace_bind,
      getChunksAndPreSignedUrls_trace.
    cbn [app]. eexists _, _, _. reflexivity.
Qed.

Lemma resume_at_uploading_witness :
  let session := mkTemp (Some "stored-upload"%string) [mkPart "etag-2" 2] in
  let data := mkParticipant (Some UPLOADING) (Some session) in
  let w := holding sampleWorld session in
  let r := makeContribution (fun _ => true) w sampleCeremony sampleCircuit
             "entropy" "alice" false (Some data) in
  contributionStep data = Some UPLOADING
  /\ existsb isDownload (trace r) = false
  /\ existsb isComputation (trace r) = false
  /\ existsb isOpen (trace r) = false
  /\ exists partNumbers expiration rest,
       trace r
       = EvGeneratePreSignedUrlsParts (getBucketName w (ceremony_prefix sampleCeremony))
           (zkeyStoragePath sampleCircuit (nextZkeyIndexOf sampleCircuit))
           "stored-upload" partNumbers expiration
           (Some (ceremony_id sampleCeremony)) :: rest.
Proof.
  intros session data w r.
  assert (Hstep : contributionStep data = Some UPLOADING) by reflexivity.
  destruct (resume_at_uploading (fun _ => true) w sampleCeremony sampleCircuit
              "entropy" "alice" data Hstep) as (_ & Hd & Hc & _ & _ & Hsession).
  assert (Hne : "stored-upload"%string <> ""%string) by discriminate.
  destruct (Hsession session "stored-upload"%string eq_refl eq_refl Hne eq_refl)
    as [Hopen Hfirst].
  split; [exact Hstep | ].
  split; [exact Hd | ].
  split; [exact Hc | ].
  split; [exact Hopen | exact Hfirst].
Defined.

(* ----------------------------------------------------------------- *)
(** ** Requests for progress *)

Lemma progressFollows_app (w : World) (l1 l2 : list Event) :
  progressFollows w l1 -> progressFollows w l2 -> progressFollows w (l1 ++ l2).
Proof.
  intros H1 H2. induction l1 as [ | e l1 IH]; cbn [app progressFollows] in *.
  - exact H2.
  - destruct H1 as [He H1]. split; [ | apply IH; exact H1].
    intros Ha. destruct (He Ha) as (c & post' & ->).
    exists c, (post' ++ l2). reflexivity.
Qed.

Lemma progressFollows_quiet (w : World) (l : list Event) :
  Forall (fun e => answered w e = false) l -> progressFollows w l.
Proof.
  induction 1 as [ | e l He _ IH]; cbn [progressFollows]; [exact I | ].
  split; [rewrite He; discriminate | exact IH].
Qed.

Lemma progressFollows_bind {A : Type} (w : World) (m : Run A) (k : A -> Run unit) :
  progressFollows w (trace m) -> (forall a, progressFollows w (trace (k a))) ->
  progressFollows w (trace (bind m k)).
Proof.
  intros Hm Hk. rewrite trace_bind. apply progressFollows_app; [exact Hm | ].
  destruct (outcome m); [apply Hk | exact I].
Qed.

Lemma progressFollows_when (w : World) (c : bool) (m : Run unit) :
  progressFollows w (trace m) -> progressFollows w (trace (when c m)).
Proof. intros H. destruct c; [exact H | exact I]. Qed.

Lemma downloadStep_progressFollows (w : World) (ceremony : CeremonyDocument)
    (circuit : CircuitDocument) :
  progressFollows w (trace (downloadStep w ceremony circuit false)).
Proof.
  unfold downloadStep, downloadContribution, makeContributionStepProgress. cbv zeta.
  rewrite trace_bind, trace_await, outcome_await. cbn [negb when app].
  destruct (downloadResolves w) eqn:Hres; cbn [resolves progressFollows answered].
  - rewrite Hres, trace_await. cbn [progressFollows answered].
    repeat split; try discriminate. intros _. eexists _, _. reflexivity.
  - rewrite Hres. repeat split; discriminate.
Qed.

Lemma computeStep_progressFollows (w : World) (ceremony : CeremonyDocument)
    (circuit : CircuitDocument) (entropyOrBeacon ghUsername : string) :
  progressFollows w (trace (computeStep w ceremony circuit entropyOrBeacon ghUsername false)).
Proof.
  unfold computeStep, computeContribution, makeContributionStepProgress. cbv zeta.
  apply progressFollows_bind.
  - rewrite trace_await. cbn. repeat split; discriminate.
  - intros _. destruct (String_match _ _) as [matched | ]; [ | exact I].
    rewrite trace_bind, trace_await, outcome_await. cbn [negb when app].
    destruct (storeTimeAndHashResolves w) eqn:Hres; cbn [resolves progressFollows answered].
    + rewrite Hres, trace_await. cbn [progressFollows answered].
      repeat split; try discriminate. intros _. eexists _, _. reflexivity.
    + rewrite Hres. repeat split; discriminate.
Qed.

Lemma uploadStep_progressFollows (w : World) (ceremony : CeremonyDocument)
    (circuit : CircuitDocument) (pd : option DocumentData) :
  progressFollows w (trace (uploadStep w ceremony circuit false pd)).
Proof.
  unfold uploadStep, uploadCall, makeContributionStepProgress. cbv zeta. cbn [negb when].
  rewrite trace_bind.
  match goal with
  | |- context [multiPartUpload ?w ?b ?k ?p ?c1 ?c2 ?cid ?t] =>
      destruct (multiPartUpload_shape w b k p c1 c2 cid t)
        as (pre & last & Htr & Hpre & Hlast & Hne & Hdone);
      cbv zeta in Htr, Hne, Hdone; rewrite Htr;
      set (up := multiPartUpload w b k p c1 c2 cid t) in *
  end.
  rewrite <- app_assoc. apply progressFollows_app.
  - apply progressFollows_quiet. eapply Forall_impl; [ | exact Hpre].
    intros e [_ He]. destruct e; try discriminate; reflexivity.
  - destruct Hlast as [-> | (uid & parts & ->)].
    + cbn [app]. destruct (outcome up) as [u | f]; [ | exact I].
      exfalso. apply (Hne u); reflexivity.
    + cbn [app progressFollows answered]. split.
      * intros Hres. rewrite Hdone by (discriminate || exact Hres).
        rewrite trace_await. eexists _, _. reflexivity.
      * destruct (outcome up); [ | exact I].
        rewrite trace_await. cbn. repeat split; discriminate.
Qed.

Lemma verifyStep_progressFollows (w : World) (ceremony : CeremonyDocument)
    (circuit : CircuitDocument) (ghUsername : string) :
  progressFollows w (trace (verifyStep w ceremony circuit ghUsername)).
Proof. rewrite verifyStep_trace. cbn. repeat split; discriminate. Qed.

(** The call that completes the verification is the last of a trace
    whose other calls complete other steps or none. *)
Lemma verification_is_last (X Y pre post : list Event) (ev : Event) :
  Forall (fun x => completes x <> Some VERIFYING) X ->
  Y = [] \/ (exists v, Y = [v]) ->
  X ++ Y = pre ++ ev :: post ->
  completes ev = Some VERIFYING ->
  post = [].
Proof.
  intros HX HY Heq Hev. revert pre Heq.
  induction HX as [ | x X Hx _ IH]; intros pre Heq.
  - cbn [app] in Heq. destruct HY as [-> | (v & ->)].
    + destruct pre; discriminate.
    + destruct pre as [ | a pre]; cbn [app] in Heq.
      * injection Heq as _ <-. reflexivity.
      * injection Heq as _ Heq. destruct pre; discriminate.
  - destruct pre as [ | a pre]; cbn [app] in Heq.
    + injection Heq as <- _. contradiction.
    + injection Heq as _ Heq. apply (IH pre). exact Heq.
Qed.

Lemma block_not_verifying (k : ParticipantContributionStep) (finalize : bool) (e : Event) :
  k <> VERIFYING ->
  blockOf e = Some k \/ (finalize = false /\ isProgress e = true) ->
  completes e <> Some VERIFYING.
Proof.
  intros Hk [He | [_ He]]; destruct e; cbn in *; try discriminate; congruence.
Qed.

Lemma block_not_progress (k : ParticipantContributionStep) (e : Event) :
  blockOf e = Some k \/ (true = false /\ isProgress e = true) ->
  isProgress e = false.
Proof.
  intros [He | [He _]]; [ | discriminate].
  destruct e; cbn in *; try discriminate; reflexivity.
Qed.

(** C5. With [finalize] true the run never requests progress. With
    [finalize] false, whatever the services answer, every answered call
    that completes the download, the computation or the upload is
    followed at once by a request for progress; in a run that goes
    through (DOWNLOADING being truthy) the requests are exactly those,
    and they bring the step held by the authority, which was the one of
    the checkpoint, to COMPUTING, UPLOADING and VERIFYING respectively.
    In both modes the call of the verification is the last call of the
    run: no request for progress follows it. *)
Theorem progress_requested_after_each_step
    (truthy : ParticipantContributionStep -> bool) (w : World)
    (ceremony : CeremonyDocument) (circuit : CircuitDocument)
    (entropyOrBeacon ghUsername : string) :
  let run := makeContribution truthy w ceremony circuit entropyOrBeacon ghUsername in
  (forall pd, Forall (fun e => isProgress e = false) (trace (run true pd)))
  /\ (forall pd, progressFollows w (trace (run false pd)))
  /\ (forall pd s,
        truthy DOWNLOADING = true ->
        optContributionStep pd = Some s ->
        outcome (run false pd) = Done tt ->
        advancements s None (trace (run false pd))
        = map (fun k => (Some k, nextStep k))
            (filter (fromDownloadingTo s) [DOWNLOADING; COMPUTING; UPLOADING]))
  /\ (forall finalize pd pre ev post,
        trace (run finalize pd) = pre ++ ev :: post ->
        completes ev = Some VERIFYING ->
        post = []).
Proof.
  intros run. subst run. split; [ | split; [ | split]].
  - (* finalize: no request *)
    intros pd. unfold makeContribution. cbv zeta.
    apply Forall_trace_bind; [apply Forall_trace_when | intros _].
    { eapply Forall_impl; [ | apply downloadStep_events].
      intros e. apply block_not_progress. }
    apply Forall_trace_bind; [apply Forall_trace_when | intros _].
    { eapply Forall_impl; [ | apply computeStep_events].
      intros e. apply block_not_progress. }
    apply Forall_trace_bind; [apply Forall_trace_when | intros _].
    { eapply Forall_impl; [ | apply uploadStep_events].
      intros e. apply block_not_progress. }
    apply Forall_trace_when. rewrite verifyStep_trace. repeat constructor.
  - (* each answered completion is followed by a request *)
    intros pd. unfold makeContribution. cbv zeta.
    apply progressFollows_bind;
      [apply progressFollows_when, downloadStep_progressFollows | intros _].
    apply progressFollows_bind;
      [apply progressFollows_when, computeStep_progressFollows | intros _].
    apply progressFollows_bind;
      [apply progressFollows_when, uploadStep_progressFollows | intros _].
    apply progressFollows_when, verifyStep_progressFollows.
  - (* the requests of a run that goes through *)
    intros pd s Htruthy Hstep Hdone.
    unfold makeContribution in *. cbv zeta in *. rewrite Hstep in *.
    destruct (conditions_reached truthy false (Some s) Htruthy) as (Hc1 & Hc2 & Hc3 & Hc4).
    rewrite Hc1, Hc2, Hc3, Hc4 in *. clear Hc1 Hc2 Hc3 Hc4.
    destruct (sequence_done _ _ _ _ Hdone) as (Hd & Hc & Hu & Hv & ->).
    pose proof (downloadStep_done w ceremony circuit false) as Sd.
    pose proof (computeStep_done w ceremony circuit entropyOrBeacon ghUsername false) as Sc.
    pose proof (uploadStep_done w ceremony circuit false pd) as Su.
    pose proof (verifyStep_done w ceremony circuit ghUsername) as Sv.
    cbn [negb] in Sd, Sc, Su.
    destruct s; cbn [orb reached fromDownloadingTo rank Nat.leb andb] in *;
      rewrite ?when_true, ?when_false, ?trace_ret in *; cbn [app];
      repeat match goal with
        | H : outcome ?m = Done tt -> doneShape _ _ _ _, H' : outcome ?m = Done tt |- _ =>
            specialize (H H')
        end;
      rewrite ?(doneShape_advancements _ _ _ _ _ _ Sd);
      rewrite ?(doneShape_advancements _ _ _ _ _ _ Sc);
      rewrite ?(doneShape_advancements _ _ _ _ _ _ Su);
      rewrite ?(doneShape_no_advancement _ _ _ _ _ Sv);
      reflexivity.
  - (* the verification is the last call *)
    intros finalize pd pre ev post Heq Hev.
    unfold makeContribution in Heq. cbv zeta in Heq.
    match type of Heq with
    | trace (?a ;; ?b ;; ?c ;; ?d) = _ =>
        destruct (sequence_trace (fun x => completes x <> Some VERIFYING) a b c d)
          as (X & Y & HXY & HX & HY)
    end.
    + apply Forall_trace_when. eapply Forall_impl; [ | apply downloadStep_events].
      intros e. apply block_not_verifying. discriminate.
    + apply Forall_trace_when. eapply Forall_impl; [ | apply computeStep_events].
      intros e. apply block_not_verifying. discriminate.
    + apply Forall_trace_when. eapply Forall_impl; [ | apply uploadStep_events].
      intros e. apply block_not_verifying. discriminate.
    + rewrite HXY in Heq.
      apply (verification_is_last X Y pre post ev HX); [ | exact Heq | exact Hev].
      destruct HY as [-> | ->]; [left; reflexivity | ].
      destruct (verifyCondition truthy finalize (optContributionStep pd)); cbn [when].
      * right. rewrite verifyStep_trace. eexists. reflexivity.
      * left. reflexivity.
Qed.

Lemma progress_requested_after_each_step_witness :
  let pd := Some (mkParticipant (Some DOWNLOADING) None) in
  let r := makeContribution (fun _ => true) sampleWorld sampleCeremony sampleCircuit
             "entropy" "alice" false pd in
  outcome r = Done tt
  /\ advancements DOWNLOADING None (trace r)
     = [(Some DOWNLOADING, COMPUTING); (Some COMPUTING, UPLOADING);
        (Some UPLOADING, VERIFYING)].
Proof.
  intros pd r.
  assert (Hdone : outcome r = Done tt) by (vm_compute; reflexivity).
  destruct (progress_requested_after_each_step (fun _ => true) sampleWorld sampleCeremony
              sampleCircuit "entropy" "alice") as (_ & _ & Hadv & _).
  split; [exact Hdone | ].
  exact (Hadv pd DOWNLOADING eq_refl eq_refl Hdone).
Defined.

(* ----------------------------------------------------------------- *)
(** ** The contribution hash *)

(** The pattern on the example transcript: the match starts at the
    second line, the first one having no [Hash] before its end, and the
    hash stored is the match without its first line break and tabs. *)
Example sampleTranscript_hash :
  option_map (String_replace LF_TAB_TAB "")
    (String_match contributionHashRegex sampleTranscript)
  = Some ("Contribution Hash: 0a1b2c3d 4e5f6071"
          ++ LF_TAB_TAB ++ "8293a4b5 c6d7e8f9" ++ LF_only ++ "10213243 54657687"
          ++ LF_TAB_TAB ++ "98a9bacb dcedfe0f" ++ LF_only)%string.
Proof. vm_compute. reflexivity. Qed.

Example no_hash_in_a_single_line :
  String_match contributionHashRegex "Contribution Hash: 0a1b2c3d" = None.
Proof. vm_compute. reflexivity. Qed.

(** No step but the computation stops a run for want of a hash. *)
Lemma hashless_bind {A B : Type} (m : Run A) (k : A -> Run B) :
  outcome m <> Failed GENERIC_CONTRIBUTION_HASH_INVALID ->
  (forall a, outcome (k a) <> Failed GENERIC_CONTRIBUTION_HASH_INVALID) ->
  outcome (bind m k) <> Failed GENERIC_CONTRIBUTION_HASH_INVALID.
Proof.
  intros Hm Hk. rewrite outcome_bind.
  destruct (outcome m) as [a | f]; [apply Hk | ].
  intros H. apply Hm. injection H as ->. reflexivity.
Qed.

Lemma hashless_await {A : Type} (e : Event) (answer : option A) :
  outcome (await e answer) <> Failed GENERIC_CONTRIBUTION_HASH_INVALID.
Proof. rewrite outcome_await. destruct answer; discriminate. Qed.

Lemma hashless_uploadParts (w : World) (cs : list ChunkWithUrl) (ct : option string)
    (cf : option HttpsCallable) (cid : option string) (acc : list ETagWithPartNumber) :
  outcome (uploadParts w cs ct cf cid acc) <> Failed GENERIC_CONTRIBUTION_HASH_INVALID.
Proof.
  revert acc. induction cs as [ | chunk rest IH]; intros acc; cbn [uploadParts].
  - discriminate.
  - destruct (isRecorded (partNumber chunk) acc); [apply IH | ].
    apply hashless_bind; [apply hashless_await | intros eTag].
    apply hashless_bind; [ | intros _; apply IH].
    destruct cf as [f | ]; [destruct cid as [id | ] | ];
      try apply hashless_await; discriminate.
Qed.

Lemma hashless_startFromScratch (w : World) (b k : string)
    (cfId : option HttpsCallable) (cid : option string) :
  outcome (startFromScratch w b k cfId cid) <> Failed GENERIC_CONTRIBUTION_HASH_INVALID.
Proof.
  unfold startFromScratch, openMultiPartUpload.
  apply hashless_bind; [apply hashless_await | intros uid].
  apply hashless_bind; [ | intros _; discriminate].
  destruct cfId; [apply hashless_await | discriminate].
Qed.

Lemma hashless_multiPartUpload (w : World) (b k p : string)
    (cfId cfChunk : option HttpsCallable) (cid : option string)
    (temp : option TempContributionData) :
  outcome (multiPartUpload w b k p cfId cfChunk cid temp)
  <> Failed GENERIC_CONTRIBUTION_HASH_INVALID.
Proof.
  unfold multiPartUpload. cbv zeta.
  apply hashless_bind.
  { destruct (falsyString _); discriminate. }
  intros _. apply hashless_bind.
  { unfold startOrResume.
    destruct temp as [t | ]; [ | apply hashless_startFromScratch].
    destruct (falsyString (uploadId t)); [apply hashless_startFromScratch | discriminate]. }
  intros session. apply hashless_bind.
  { unfold getChunksAndPreSignedUrls. cbv zeta.
    apply hashless_bind; [apply hashless_await | intros; discriminate]. }
  intros cs. apply hashless_bind; [apply hashless_uploadParts | intros parts].
  apply hashless_await.
Qed.

Lemma hashless_uploadStep (w : World) (ceremony : CeremonyDocument)
    (circuit : CircuitDocument) (finalize : bool) (pd : option DocumentData) :
  outcome (uploadStep w ceremony circuit finalize pd)
  <> Failed GENERIC_CONTRIBUTION_HASH_INVALID.
Proof.
  unfold uploadStep. apply hashless_bind.
  - unfold uploadCall. cbv zeta. destruct (negb finalize); apply hashless_multiPartUpload.
  - intros _. destruct (negb finalize); cbn [when]; [apply hashless_await | discriminate].
Qed.

Lemma hashless_verifyStep (w : World) (ceremony : CeremonyDocument)
    (circuit : CircuitDocument) (ghUsername : string) :
  outcome (verifyStep w ceremony circuit ghUsername)
  <> Failed GENERIC_CONTRIBUTION_HASH_INVALID.
Proof.
  unfold verifyStep, computeVerification.
  apply hashless_bind; [ | intros; discriminate].
  apply hashless_bind; [apply hashless_await | intros [data | ]; discriminate].
Qed.

Lemma hashless_when (c : bool) (m : Run unit) :
  outcome m <> Failed GENERIC_CONTRIBUTION_HASH_INVALID ->
  outcome (when c m) <> Failed GENERIC_CONTRIBUTION_HASH_INVALID.
Proof. intros H. destruct c; [exact H | discriminate]. Qed.

(** The computation step when the computation itself is answered. *)
Lemma computeStep_hash (w : World) (ceremony : CeremonyDocument)
    (circuit : CircuitDocument) (entropyOrBeacon ghUsername : string) (finalize : bool) :
  let transcript :=
    readFile w (contributionTranscriptLocalPathOf w circuit ghUsername finalize) in
  let c := computeStep w ceremony circuit entropyOrBeacon ghUsername finalize in
  computeResolves w = true ->
  exists ev,
    isComputation ev = true
    /\ match String_match contributionHashRegex transcript with
       | None =>
           trace c = [ev] /\ outcome c = Failed GENERIC_CONTRIBUTION_HASH_INVALID
       | Some matched =>
           (exists post,
              trace c
              = ev :: EvPermanentlyStoreCurrentContributionTimeAndHash
                        (ceremony_id ceremony) (timer_ms w)
                        (String_replace LF_TAB_TAB "" matched) :: post)
           /\ outcome c <> Failed GENERIC_CONTRIBUTION_HASH_INVALID
           /\ (storeTimeAndHashResolves w = true ->
               finalize = true \/ progressResolves w = true ->
               outcome c = Done tt)
       end.
Proof.
  intros transcript c Hres. subst c.
  unfold computeStep. cbv zeta. fold transcript.
  assert (Hcompute : exists ev,
            isComputation ev = true
            /\ computeContribution w
                 (zkeyLocalPath w circuit finalize (currentZkeyIndexOf circuit))
                 (zkeyLocalPath w circuit finalize (newZkeyNameOf circuit finalize))
                 ghUsername entropyOrBeacon finalize
               = ([ev], Done tt)).
  { unfold computeContribution, await. rewrite Hres.
    destruct finalize; eexists; (split; [ | reflexivity]); reflexivity. }
  destruct Hcompute as (ev & Hev & ->). exists ev. split; [exact Hev | ].
  destruct (String_match contributionHashRegex transcript) as [matched | ].
  - split; [ | split].
    + rewrite trace_bind. cbn [trace outcome fst snd app].
      rewrite trace_bind, trace_await. eexists. reflexivity.
    + rewrite outcome_bind. cbn [outcome snd].
      apply hashless_bind; [apply hashless_await | intros _].
      apply hashless_when, hashless_await.
    + intros Hstore Hprogress. rewrite outcome_bind. cbn [outcome snd].
      rewrite outcome_bind, outcome_await, Hstore. cbn [resolves].
      unfold makeContributionStepProgress.
      destruct Hprogress as [-> | Hp]; [reflexivity | ].
      destruct finalize; cbn [negb when]; [reflexivity | ].
      rewrite outcome_await, Hp. reflexivity.
  - split; reflexivity.
Qed.

(** C6. In a run that reaches the computation step and whose
    computation is answered: when the transcript read back has no
    match of the contribution hash pattern, the run stops there with
    the failure GENERIC_CONTRIBUTION_HASH_INVALID, the computation
    being its last call; when there is a match, the call that follows
    the computation stores the hash extracted from the match, the run
    never fails for want of a hash, and it goes on with the upload step
    as soon as the storing (and the request for progress, when not
    finalizing) is answered. *)
Theorem contribution_hash_required
    (truthy : ParticipantContributionStep -> bool) (w : World)
    (ceremony : CeremonyDocument) (circuit : CircuitDocument)
    (entropyOrBeacon ghUsername : string) (finalize : bool)
    (newParticipantData : option DocumentData) :
  let r := makeContribution truthy w ceremony circuit entropyOrBeacon ghUsername
             finalize newParticipantData in
  let step := optContributionStep newParticipantData in
  let transcript :=
    readFile w (contributionTranscriptLocalPathOf w circuit ghUsername finalize) in
  computeCondition truthy finalize step = true ->
  outcome (when (downloadCondition truthy finalize step)
             (downloadStep w ceremony circuit finalize)) = Done tt ->
  computeResolves w = true ->
  (String_match contributionHashRegex transcript = None ->
   outcome r = Failed GENERIC_CONTRIBUTION_HASH_INVALID
   /\ exists pre ev, trace r = pre ++ [ev] /\ isComputation ev = true)
  /\ (forall matched,
        String_match contributionHashRegex transcript = Some matched ->
        (exists pre ev post,
           trace r
           = pre ++ ev :: EvPermanentlyStoreCurrentContributionTimeAndHash
                            (ceremony_id ceremony) (timer_ms w)
                            (String_replace LF_TAB_TAB "" matched) :: post
           /\ isComputation ev = true)
        /\ outcome r <> Failed GENERIC_CONTRIBUTION_HASH_INVALID
        /\ (storeTimeAndHashResolves w = true ->
            finalize = true \/ progressResolves w = true ->
            exists pre rest,
              trace r
              = pre ++ trace (uploadStep w ceremony circuit finalize newParticipantData)
                  ++ rest)).
Proof.
  intros r step transcript Hcond Hdownload Hres. subst r.
  unfold makeContribution. cbv zeta. fold step.
  assert (Hupload : uploadCondition truthy finalize step = true).
  { unfold uploadCondition. unfold computeCondition in Hcond. rewrite Hcond. reflexivity. }
  rewrite Hcond, Hupload, !when_true.
  set (D := when (downloadCondition truthy finalize step)
              (downloadStep w ceremony circuit finalize)) in *.
  set (C := computeStep w ceremony circuit entropyOrBeacon ghUsername finalize).
  set (U := uploadStep w ceremony circuit finalize newParticipantData).
  set (V := when (verifyCondition truthy finalize step)
              (verifyStep w ceremony circuit ghUsername)).
  destruct (computeStep_hash w ceremony circuit entropyOrBeacon ghUsername finalize Hres)
    as (ev & Hev & Hhash).
  fold transcript in Hhash. fold C in Hhash.
  rewrite trace_bind, outcome_bind, Hdownload, trace_bind, outcome_bind.
  split.
  - intros Hnone. rewrite Hnone in Hhash. destruct Hhash as [Htr Hout].
    rewrite Hout, Htr. split; [reflexivity | ].
    exists (trace D), ev. rewrite app_nil_r. split; [reflexivity | exact Hev].
  - intros matched Hsome. rewrite Hsome in Hhash.
    destruct Hhash as ((post & Htr) & Hout & Hgo).
    split; [ | split].
    + exists (trace D), ev. eexists. rewrite Htr. split; [ | exact Hev].
      cbn [app]. reflexivity.
    + destruct (outcome C) as [[] | f] eqn:HC.
      * apply hashless_bind; [apply hashless_uploadStep | intros _].
        apply hashless_when, hashless_verifyStep.
      * intros H. apply Hout. injection H as ->. reflexivity.
    + intros Hstore Hprogress. rewrite (Hgo Hstore Hprogress).
      rewrite trace_bind. exists (trace D ++ trace C). eexists.
      rewrite <- !app_assoc. reflexivity.
Qed.

Lemma contribution_hash_required_witness :
  let pd := Some (mkParticipant (Some COMPUTING) None) in
  let r := makeContribution (fun _ => true) sampleWorld sampleCeremony sampleCircuit
             "entropy" "alice" false pd in
  let hash := String_replace LF_TAB_TAB ""
                ("Contribution Hash: " ++ LF_TAB_TAB ++ "0a1b2c3d 4e5f6071"
                 ++ LF_TAB_TAB ++ "8293a4b5 c6d7e8f9" ++ LF_only ++ "10213243 54657687"
                 ++ LF_TAB_TAB ++ "98a9bacb dcedfe0f" ++ LF_only)%string in
  computeResolves sampleWorld = true
  /\ (exists pre ev post,
        trace r
        = pre ++ ev :: EvPermanentlyStoreCurrentContributionTimeAndHash
                         "ceremony-1" 61000 hash :: post
        /\ isComputation ev = true)
  /\ outcome r <> Failed GENERIC_CONTRIBUTION_HASH_INVALID.
Proof.
  intros pd r hash.
  assert (Hres : computeResolves sampleWorld = true) by reflexivity.
  destruct (contribution_hash_required (fun _ => true) sampleWorld sampleCeremony
              sampleCircuit "entropy" "alice" false pd eq_refl eq_refl Hres)
    as (_ & Hsome).
  destruct (Hsome _ eq_refl) as (Hstore & Hout & _).
  split; [exact Hres | ].
  split; [exact Hstore | exact Hout].
Defined.

(** A run on a transcript without hash: the download, the request for
    progress, the computation, then the failure. *)
Example hashless_run :
  makeContribution (fun _ => true) hashlessWorld sampleCeremony sampleCircuit
    "entropy" "alice" false (Some (mkParticipant (Some DOWNLOADING) None))
  = ([EvDownloadLocalFileFromBucket "demo-ph2-ceremony"
        "circuits/multiplier/contributions/multiplier_00003.zkey"
        "output/contribute/zkeys/multiplier_00003.zkey";
      EvProgressToNextContributionStep "ceremony-1";
      EvZKeyContribute "output/contribute/zkeys/multiplier_00003.zkey"
        "output/contribute/zkeys/multiplier_00004.zkey" "alice" "entropy"],
     Failed GENERIC_CONTRIBUTION_HASH_INVALID).
Proof. vm_compute. reflexivity. Qed.

(* ================================================================= *)
(** * Further properties of the code *)

(* ----------------------------------------------------------------- *)
(** ** Powers of tau *)

Lemma estimatePoT_loop_least (constraints outputs : Z) (fuel : nat) (power : Z) :
  2 <= power ->
  constraints + outputs <= 2 ^ (power + Z.of_nat fuel) ->
  (forall q, 2 <= q < power -> 2 ^ q < constraints + outputs) ->
  exists r,
    estimatePoT_loop fuel constraints outputs power (2 ^ power) = Some r
    /\ power <= r
    /\ constraints + outputs <= 2 ^ r
    /\ (forall q, 2 <= q < r -> 2 ^ q < constraints + outputs).
Proof.
  revert power. induction fuel as [ | fuel IH]; intros power Hpower Hfuel Hleast;
    cbn [estimatePoT_loop].
  - replace (power + Z.of_nat 0) with power in Hfuel by lia.
    destruct (Z.gtb_spec (constraints + outputs) (2 ^ power)) as [Hgt | Hle]; [lia | ].
    exists power. repeat split; try lia. exact Hleast.
  - destruct (Z.gtb_spec (constraints + outputs) (2 ^ power)) as [Hgt | Hle].
    + destruct (IH (power + 1)) as (r & Hr & Hge & Hfits & Hmin).
      * lia.
      * replace (power + 1 + Z.of_nat fuel) with (power + Z.of_nat (S fuel)) by lia.
        exact Hfuel.
      * intros q Hq. destruct (Z.eq_dec q power) as [-> | Hne]; [lia | ].
        apply Hleast. lia.
      * exists r. repeat split; try lia; assumption.
    + exists power. repeat split; try lia. exact Hleast.
Qed.

(** [estimatePoT] always answers, and its answer is the least power,
    from 2 on, of which the power of two holds the constraints and the
    outputs together. *)
Theorem estimatePoT_least (constraints outputs : Z) :
  exists power,
    estimatePoT constraints outputs = Some power
    /\ 2 <= power
    /\ constraints + outputs <= 2 ^ power
    /\ (forall q, 2 <= q < power -> 2 ^ q < constraints + outputs).
Proof.
  unfold estimatePoT. cbv zeta.
  apply estimatePoT_loop_least.
  - lia.
  - destruct (Z_le_gt_dec (constraints + outputs) 0) as [Hle | Hgt].
    + pose proof (Z.pow_pos_nonneg 2 (2 + Z.of_nat (Z.to_nat (constraints + outputs)))
                    ltac:(lia) ltac:(lia)). lia.
    + rewrite Z2Nat.id by lia.
      pose proof (Z.pow_gt_lin_r 2 (constraints + outputs) ltac:(lia) ltac:(lia)).
      pose proof (Z.pow_le_mono_r 2 (constraints + outputs) (2 + (constraints + outputs))
                    ltac:(lia) ltac:(lia)).
      lia.
  - intros q Hq. lia.
Qed.

(* ----------------------------------------------------------------- *)
(** ** The zkey index read back as a number *)

Lemma uint_of_string_zeros (k : nat) (s : string) :
  DecimalString.NilEmpty.uint_of_string (zeros k ++ s)%string
  = option_map (Nat.iter k Decimal.D0) (DecimalString.NilEmpty.uint_of_string s).
Proof.
  induction k as [ | k IH]; cbn [zeros append Nat.iter].
  - destruct (DecimalString.NilEmpty.uint_of_string s); reflexivity.
  - cbn [DecimalString.NilEmpty.uint_of_string]. rewrite IH.
    destruct (DecimalString.NilEmpty.uint_of_string s); reflexivity.
Qed.

Lemma of_uint_leading_zeros (k : nat) (d : Decimal.uint) :
  Z.of_uint (Nat.iter k Decimal.D0 d) = Z.of_uint d.
Proof.
  induction k as [ | k IH]; [reflexivity | ].
  cbn [Nat.iter]. rewrite <- IH. reflexivity.
Qed.

(** The digits of a number that is not negative. *)
Lemma Number_toString_digits (n : Z) :
  0 <= n ->
  exists d,
    Number_toString n = DecimalString.NilEmpty.string_of_uint d
    /\ d <> Decimal.Nil
    /\ Z.of_uint d = n.
Proof.
  intros Hn. destruct n as [ | p | p]; [ | | lia].
  - exists (Decimal.D0 Decimal.Nil). repeat split. discriminate.
  - exists (Pos.to_uint p).
    pose proof (DecimalPos.Unsigned.to_uint_nonnil p) as Hnil.
    split; [ | split; [exact Hnil | ]].
    + unfold Number_toString. cbn [Z.to_int DecimalString.NilZero.string_of_int].
      unfold DecimalString.NilZero.string_of_uint.
      destruct (Pos.to_uint p); [contradiction | reflexivity ..].
    + unfold Z.of_uint. rewrite DecimalPos.Unsigned.of_to. reflexivity.
Qed.

Lemma Number_ofDigits_padded (k : nat) (n : Z) :
  0 <= n -> Number_ofDigits (zeros k ++ Number_toString n)%string = Some n.
Proof.
  intros Hn. destruct (Number_toString_digits n Hn) as (d & Hd & Hnil & Hval).
  unfold Number_ofDigits, DecimalString.NilZero.uint_of_string.
  assert (Hne : (zeros k ++ Number_toString n)%string <> EmptyString).
  { rewrite Hd. destruct k; cbn; [ | discriminate].
    destruct d; cbn; try discriminate. contradiction. }
  destruct (zeros k ++ Number_toString n)%string eqn:E; [contradiction | ].
  rewrite <- E, Hd, uint_of_string_zeros, DecimalString.NilEmpty.usu.
  cbn [option_map]. rewrite of_uint_leading_zeros, Hval. reflexivity.
Qed.

(** [Number (formatZkeyIndex (progress))], as computed at line 950, is
    [progress] again when [progress] is not negative; hence two such
    progresses never share a zkey index. *)
Theorem formatZkeyIndex_read_back (progress other : Z) :
  0 <= progress -> 0 <= other ->
  Number_ofDigits (formatZkeyIndex progress) = Some progress
  /\ (formatZkeyIndex progress = formatZkeyIndex other -> progress = other).
Proof.
  intros Hp Ho.
  assert (Hback : forall n, 0 <= n -> Number_ofDigits (formatZkeyIndex n) = Some n).
  { intros n Hn. rewrite formatZkeyIndex_zeros. apply Number_ofDigits_padded. exact Hn. }
  split; [apply Hback; exact Hp | ].
  intros Heq. pose proof (Hback progress Hp) as H1. rewrite Heq, (Hback other Ho) in H1.
  injection H1 as ->. reflexivity.
Qed.

Lemma formatZkeyIndex_read_back_witness :
  0 <= 41 /\ 0 <= 42
  /\ Number_ofDigits (formatZkeyIndex 41) = Some 41
  /\ (formatZkeyIndex 41 = formatZkeyIndex 42 -> 41 = 42).
Proof.
  assert (H1 : 0 <= 41) by lia.
  assert (H2 : 0 <= 42) by lia.
  split; [exact H1 | split; [exact H2 | ]].
  exact (formatZkeyIndex_read_back 41 42 H1 H2).
Defined.
(* ----------------------------------------------------------------- *)
(** ** Two digits and the clock *)

Lemma Number_toString_width (n : Z) :
  0 <= n < 100 ->
  String.length (Number_toString n) = if n <? 10 then 1%nat else 2%nat.
Proof.
  intros Hn.
  assert (Hall :
    forallb (fun k => Nat.eqb (String.length (Number_toString (Z.of_nat k)))
                        (if Z.of_nat k <? 10 then 1 else 2))
      (seq 0 100) = true) by (vm_compute; reflexivity).
  rewrite forallb_forall in Hall.
  specialize (Hall (Z.to_nat n)). rewrite Z2Nat.id in Hall by lia.
  apply Nat.eqb_eq, Hall, in_seq. lia.
Qed.

Lemma Number_toString_negative (n : Z) :
  n < 0 -> Number_toString n = String "-" (Number_toString (- n)).
Proof.
  intros Hn. destruct n as [ | p | p]; [lia | lia | ]. reflexivity.
Qed.

Lemma convertToDoubleDigits_length (amount : Z) :
  0 <= amount < 100 -> String.length (convertToDoubleDigits amount) = 2%nat.
Proof.
  intros Ha. pose proof (Number_toString_width amount Ha) as Hw.
  unfold convertToDoubleDigits.
  destruct (amount <? 10); cbn [String.length]; rewrite Hw; reflexivity.
Qed.

(** [convertToDoubleDigits] gives exactly two characters for an amount
    from 0 to 99, and they read back as the amount. *)
Theorem convertToDoubleDigits_two (amount : Z) :
  0 <= amount < 100 ->
  String.length (convertToDoubleDigits amount) = 2%nat
  /\ Number_ofDigits (convertToDoubleDigits amount) = Some amount.
Proof.
  intros Ha. split; [apply convertToDoubleDigits_length; exact Ha | ].
  unfold convertToDoubleDigits.
  destruct (amount <? 10).
  - apply (Number_ofDigits_padded 1). lia.
  - apply (Number_ofDigits_padded 0). lia.
Qed.

Lemma convertToDoubleDigits_two_witness :
  0 <= 7 < 100
  /\ String.length (convertToDoubleDigits 7) = 2%nat
  /\ Number_ofDigits (convertToDoubleDigits 7) = Some 7.
Proof.
  assert (H : 0 <= 7 < 100) by lia.
  split; [exact H | ].
  exact (convertToDoubleDigits_two 7 H).
Defined.

(** For a negative amount [convertToDoubleDigits] puts its zero before
    the minus sign: -5 gives "0-5". *)
Theorem convertToDoubleDigits_negative (amount : Z) :
  amount < 0 ->
  convertToDoubleDigits amount = String "0" (String "-" (Number_toString (- amount))).
Proof.
  intros Ha. unfold convertToDoubleDigits.
  destruct (Z.ltb_spec amount 10) as [_ | Hge]; [ | lia].
  rewrite (Number_toString_negative amount Ha). reflexivity.
Qed.

Lemma convertToDoubleDigits_negative_witness :
  -5 < 0 /\ convertToDoubleDigits (-5) = "0-5"%string.
Proof.
  assert (H : -5 < 0) by lia.
  split; [exact H | ].
  exact (convertToDoubleDigits_negative (-5) H).
Defined.

Lemma length_append (s1 s2 : string) :
  String.length (s1 ++ s2)%string = (String.length s1 + String.length s2)%nat.
Proof.
  induction s1 as [ | c s1 IH]; cbn; [reflexivity | ].
  f_equal. exact IH.
Qed.

(** The clock of a duration has eight characters, whatever the
    duration: the hours, minutes and seconds returned are never
    negative and never reach 24, 60 and 60. *)
Theorem clockText_width (millis : Q) :
  String.length (clockText (getSecondsMinutesHoursFromMillis millis)) = 8%nat.
Proof.
  rewrite getSecondsMinutesHoursFromMillis_spec.
  pose proof (decompositionSpec_bounds millis) as (Hs & Hm & Hh). cbv zeta in *.
  unfold clockText. rewrite !length_append.
  rewrite (convertToDoubleDigits_length (hours (decompositionSpec millis))) by lia.
  rewrite (convertToDoubleDigits_length (minutes (decompositionSpec millis))) by lia.
  rewrite (convertToDoubleDigits_length (seconds (decompositionSpec millis))) by lia.
  reflexivity.
Qed.
(* ----------------------------------------------------------------- *)
(** ** Durations before zero and whole days *)

Lemma Qfloor_neg (x : Q) : (x < 0)%Q -> Qfloor x < 0.
Proof.
  intros Hx. pose proof (Qfloor_le x) as Hle.
  rewrite Zlt_Qlt. change (inject_Z 0) with 0%Q. lra.
Qed.

(** For a negative duration [getSecondsMinutesHoursFromMillis] gives a
    negative number of days and counts the hours, minutes and seconds
    upwards from there: they stay within their ranges and the four
    fields add up to the whole seconds, rounded down. *)
Theorem negative_millis_borrow_a_day (millis : Q) :
  (millis < 0)%Q ->
  let t := getSecondsMinutesHoursFromMillis millis in
  days t < 0
  /\ 0 <= hours t < 24 /\ 0 <= minutes t < 60 /\ 0 <= seconds t < 60
  /\ days t * 86400 + hours t * 3600 + minutes t * 60 + seconds t
     = Qfloor (millis / 1000).
Proof.
  intros Hm. cbv zeta. rewrite getSecondsMinutesHoursFromMillis_spec.
  pose proof (decompositionSpec_bounds millis) as (Hs & Hmi & Hh).
  pose proof (decompositionSpec_recompose millis) as Hr. cbv zeta in *.
  split; [ | tauto].
  unfold decompositionSpec; cbn [days].
  apply Z.div_lt_upper_bound; [lia | ].
  assert (Hd : (millis / 1000 < 0)%Q).
  { apply Qlt_shift_div_r; [reflexivity | lra]. }
  pose proof (Qfloor_neg _ Hd). lia.
Qed.

Lemma negative_millis_borrow_a_day_witness :
  (-500 < 0)%Q
  /\ (let t := getSecondsMinutesHoursFromMillis (-500) in
      days t < 0
      /\ 0 <= hours t < 24 /\ 0 <= minutes t < 60 /\ 0 <= seconds t < 60
      /\ days t * 86400 + hours t * 3600 + minutes t * 60 + seconds t
         = Qfloor (-500 / 1000)).
Proof.
  assert (H : (-500 < 0)%Q) by reflexivity.
  split; [exact H | ].
  exact (negative_millis_borrow_a_day (-500) H).
Defined.

Lemma Qfloor_add_days (millis : Q) (k : Z) :
  Qfloor ((millis + inject_Z (86400000 * k)) / 1000)
  = Qfloor (millis / 1000) + 86400 * k.
Proof.
  assert (He : ((millis + inject_Z (86400000 * k)) / 1000
                == millis / 1000 - inject_Z (- k) * inject_Z 86400)%Q).
  { rewrite inject_Z_mult, inject_Z_opp.
    change (inject_Z 86400000) with 86400000%Q.
    change (inject_Z 86400) with 86400%Q. field. }
  rewrite (Qfloor_comp _ _ He), Qfloor_sub_mult. ring.
Qed.

(** Whole days only move the [days] field: a duration and the same
    duration [k] days later have the same hours, minutes and seconds,
    hence the same clock. *)
Theorem whole_days_keep_the_clock (millis : Q) (k : Z) :
  let t := getSecondsMinutesHoursFromMillis millis in
  let t' := getSecondsMinutesHoursFromMillis (millis + inject_Z (86400000 * k)) in
  days t' = days t + k
  /\ hours t' = hours t /\ minutes t' = minutes t /\ seconds t' = seconds t
  /\ clockText t' = clockText t.
Proof.
  cbv zeta. rewrite !getSecondsMinutesHoursFromMillis_spec.
  unfold clockText, decompositionSpec; cbn [days hours minutes seconds].
  rewrite Qfloor_add_days.
  set (s := Qfloor (millis / 1000)).
  assert (Hd : (s + 86400 * k) / 86400 = s / 86400 + k).
  { rewrite (Z.mul_comm 86400 k). apply Z.div_add. lia. }
  rewrite Hd.
  replace (s + 86400 * k - (s / 86400 + k) * 86400) with (s - s / 86400 * 86400) by ring.
  repeat split; reflexivity.
Qed.
(* ----------------------------------------------------------------- *)
(** ** Prefixes *)

Lemma String_map_map (f g : ascii -> ascii) (s : string) :
  String_map f (String_map g s) = String_map (fun c => f (g c)) s.
Proof.
  induction s as [ | c s IH]; cbn; [reflexivity | ]. f_equal. exact IH.
Qed.

Lemma String_map_ext (f g : ascii -> ascii) (s : string) :
  (forall c, f c = g c) -> String_map f s = String_map g s.
Proof.
  intros H. induction s as [ | c s IH]; cbn; [reflexivity | ].
  rewrite H, IH. reflexivity.
Qed.

Lemma String_map_chars (f : ascii -> ascii) (s : string) :
  list_ascii_of_string (String_map f s) = map f (list_ascii_of_string s).
Proof.
  induction s as [ | c s IH]; cbn; [reflexivity | ]. f_equal. exact IH.
Qed.

(** What [extractPrefix] does to one character. *)
Lemma extractPrefix_char_again (c : ascii) :
  let f := fun c => toLowerCase_char
                      (if isWhiteSpace c || isPrefixSymbol c then "-"%char else c) in
  f (f c) = f c.
Proof.
  destruct c as [[] [] [] [] [] [] [] []]; vm_compute; reflexivity.
Qed.

Lemma extractPrefix_char_clean (c : ascii) :
  let d := toLowerCase_char
             (if isWhiteSpace c || isPrefixSymbol c then "-"%char else c) in
  isWhiteSpace d = false
  /\ (isPrefixSymbol d = true -> d = "-"%char)
  /\ toLowerCase_char d = d.
Proof.
  destruct c as [[] [] [] [] [] [] [] []]; vm_compute;
    (split; [reflexivity | split; [ | reflexivity]]);
    intros H; (reflexivity || discriminate H).
Qed.

(** [extractPrefix] changes nothing when applied a second time: a
    prefix is its own prefix. *)
Theorem extractPrefix_idempotent (str : string) :
  extractPrefix (extractPrefix str) = extractPrefix str.
Proof.
  unfold extractPrefix.
  rewrite !String_map_map. apply String_map_ext.
  intros c. apply (extractPrefix_char_again c).
Qed.

(** No character of a prefix made by [extractPrefix] is a white space,
    none is a symbol of the class but the hyphen, and none is an upper
    case letter. *)
Theorem extractPrefix_characters (str : string) :
  Forall (fun c => isWhiteSpace c = false
                   /\ (isPrefixSymbol c = true -> c = "-"%char)
                   /\ toLowerCase_char c = c)
    (list_ascii_of_string (extractPrefix str)).
Proof.
  unfold extractPrefix. rewrite String_map_map, String_map_chars.
  apply Forall_forall. intros d Hd. apply in_map_iff in Hd.
  destruct Hd as (c & <- & _). apply (extractPrefix_char_clean c).
Qed.

(** A string without white space, symbol of the class or upper case
    letter is its own prefix; the underscore is not in the class, so
    like_this stays as it is. *)
Theorem extractPrefix_keeps_clean (str : string) :
  Forall (fun c => isWhiteSpace c = false /\ isPrefixSymbol c = false
                   /\ toLowerCase_char c = c)
    (list_ascii_of_string str) ->
  extractPrefix str = str.
Proof.
  unfold extractPrefix. rewrite String_map_map.
  induction str as [ | c str IH]; intros H; cbn; [reflexivity | ].
  cbn in H. inversion H as [ | ? ? (Hw & Hs & Hl) Hrest]; subst.
  rewrite Hw, Hs. cbn [orb]. rewrite Hl. f_equal. apply IH. exact Hrest.
Qed.

Lemma extractPrefix_keeps_clean_witness :
  Forall (fun c => isWhiteSpace c = false /\ isPrefixSymbol c = false
                   /\ toLowerCase_char c = c)
    (list_ascii_of_string "like_this")
  /\ extractPrefix "like_this" = "like_this"%string.
Proof.
  assert (H : Forall (fun c => isWhiteSpace c = false /\ isPrefixSymbol c = false
                               /\ toLowerCase_char c = c)
                (list_ascii_of_string "like_this")).
  { repeat (constructor; [repeat split; reflexivity | ]). constructor. }
  split; [exact H | ].
  exact (extractPrefix_keeps_clean "like_this" H).
Defined.
(* ----------------------------------------------------------------- *)
(** ** The next circuit *)

Lemma filter_one {A : Type} (f : A -> bool) (l : list A) (c : A) :
  filter f l = [c]
  <-> exists before after,
        l = before ++ c :: after /\ f c = true
        /\ Forall (fun d => f d = false) before
        /\ Forall (fun d => f d = false) after.
Proof.
  split.
  - induction l as [ | a l IH]; cbn; [discriminate | ].
    destruct (f a) eqn:Ha.
    + intros H. injection H as -> Hrest. exists [], l.
      repeat split; [exact Ha | constructor | ].
      apply Forall_forall. intros d Hd.
      destruct (f d) eqn:Hfd; [ | reflexivity].
      assert (Hin : In d (filter f l)) by (apply filter_In; split; assumption).
      rewrite Hrest in Hin. destruct Hin.
    + intros H. destruct (IH H) as (before & after & -> & Hc & Hb & Haf).
      exists (a :: before), after. repeat split; try assumption.
      constructor; assumption.
  - intros (before & after & -> & Hc & Hb & Haf).
    rewrite filter_app. cbn. rewrite Hc.
    assert (Hnone : forall l', Forall (fun d => f d = false) l' -> filter f l' = []).
    { induction 1 as [ | d l' Hd _ IH]; cbn; [reflexivity | ]. rewrite Hd. exact IH. }
    rewrite (Hnone _ Hb), (Hnone _ Haf). reflexivity.
Qed.

(** [getNextCircuitForContribution] answers a circuit exactly when it
    is the only one of the list at the position asked for; it never
    answers [undefined], and when no circuit or more than one circuit
    is at the position it ends with GENERIC_ERROR_RETRIEVING_DATA. *)
Theorem getNextCircuitForContribution_only_one
    (circuits : list CircuitInfo) (nextCircuitPosition : Z) :
  let r := outcome (getNextCircuitForContribution circuits nextCircuitPosition) in
  (forall c,
     r = Done (Some c)
     <-> exists before after,
           circuits = before ++ c :: after
           /\ sequencePosition c = nextCircuitPosition
           /\ Forall (fun d => sequencePosition d <> nextCircuitPosition) (before ++ after))
  /\ r <> Done None
  /\ ((forall c, r <> Done (Some c)) -> r = Failed GENERIC_ERROR_RETRIEVING_DATA).
Proof.
  cbv zeta. unfold getNextCircuitForContribution. cbv zeta.
  set (f := fun circuit : CircuitInfo => sequencePosition circuit =? nextCircuitPosition).
  pose proof (fun c => filter_one f circuits c) as Hone.
  assert (Hf : forall l, Forall (fun d => f d = false) l
                         <-> Forall (fun d => sequencePosition d <> nextCircuitPosition) l).
  { intros l. split; apply Forall_impl; intros d Hd; unfold f in *.
    - apply Z.eqb_neq. exact Hd.
    - apply Z.eqb_neq. exact Hd. }
  destruct (filter f circuits) as [ | c0 [ | c1 rest]] eqn:Hfilter; cbn.
  - split; [ | split; [discriminate | reflexivity]].
    intros c. split; [discriminate | ].
    intros (before & after & Hl & Hc & Hrest). exfalso.
    assert (Hin : In c (filter f circuits)).
    { apply filter_In. split; [rewrite Hl; apply in_elt | ].
      unfold f. apply Z.eqb_eq. exact Hc. }
    rewrite Hfilter in Hin. destruct Hin.
  - split; [ | split; [discriminate | ]].
    + intros c. split.
      * intros H. injection H as <-.
        destruct (proj1 (Hone c0) eq_refl) as (before & after & Hl & Hc & Hb & Ha).
        exists before, after. split; [exact Hl | ].
        split; [unfold f in Hc; apply Z.eqb_eq; exact Hc | ].
        apply Forall_app. split; apply Hf; assumption.
      * intros (before & after & Hl & Hc & Hrest).
        apply Forall_app in Hrest. destruct Hrest as [Hb Ha].
        assert (H : [c0] = [c]).
        { apply (proj2 (Hone c)). exists before, after.
          split; [exact Hl | ].
          split; [unfold f; apply Z.eqb_eq; exact Hc | ].
          split; apply Hf; assumption. }
        injection H as ->. reflexivity.
    + intros Hno. exfalso. apply (Hno c0). reflexivity.
  - split; [ | split; [discriminate | reflexivity]].
    intros c. split; [discriminate | ].
    intros (before & after & Hl & Hc & Hrest). exfalso.
    apply Forall_app in Hrest. destruct Hrest as [Hb Ha].
    assert (H : c0 :: c1 :: rest = [c]).
    { apply (proj2 (Hone c)). exists before, after.
      split; [exact Hl | ].
      split; [unfold f; apply Z.eqb_eq; exact Hc | ].
      split; apply Hf; assumption. }
    discriminate H.
Qed.
(* ----------------------------------------------------------------- *)
(** ** The expiration countdown *)

Lemma countdownTick_next (i : Z) (c : Countdown) :
  match countdownTick i c with
  | Written next _ shown =>
      cd_durationInSeconds c <> 0
      /\ cd_durationInSeconds next = cd_durationInSeconds c - i
      /\ shown = cd_seconds next
      /\ (cd_seconds next = cd_seconds c - i \/ cd_seconds next = 0)
  | CountdownExpired => cd_durationInSeconds c = 0
  end.
Proof.
  unfold countdownTick.
  destruct (Z.eqb_spec (cd_durationInSeconds c) 0) as [H0 | Hn0]; cbn [negb].
  - exact H0.
  - cbn [cd_durationInSeconds cd_seconds].
    repeat split; [exact Hn0 | ].
    destruct (js_rem (cd_seconds c - i) 60 =? 0); [right | left]; reflexivity.
Qed.

Lemma countdownTicks_expired (i : Z) (n : nat) (c : Countdown) :
  0 < i ->
  countdownTicks n i c = None
  <-> exists k, 0 <= k < Z.of_nat n /\ cd_durationInSeconds c = k * i.
Proof.
  intros Hi. revert c. induction n as [ | n IH]; intros c.
  - cbn. split; [discriminate | intros (k & Hk & _); lia].
  - cbn [countdownTicks]. pose proof (countdownTick_next i c) as Hstep.
    destruct (countdownTick i c) as [next m sh | ].
    + destruct Hstep as (Hn0 & Hd & _). rewrite IH, Hd. split.
      * intros (k & Hk & Heq). exists (k + 1). split; lia.
      * intros (k & Hk & Heq). exists (k - 1). split; [ | lia].
        assert (k <> 0) by (intros ->; lia). lia.
    + split; [ | reflexivity]. intros _. exists 0. split; lia.
Qed.

Lemma countdownTicks_duration (i : Z) (n : nat) (c c' : Countdown) :
  countdownTicks n i c = Some c' ->
  cd_durationInSeconds c' = cd_durationInSeconds c - Z.of_nat n * i.
Proof.
  revert c. induction n as [ | n IH]; intros c.
  - cbn. intros H. injection H as <-. lia.
  - cbn [countdownTicks]. pose proof (countdownTick_next i c) as Hstep.
    destruct (countdownTick i c) as [next m sh | ]; [ | discriminate].
    destruct Hstep as (_ & Hd & _ & Hs). intros H.
    pose proof (IH next H) as IHd. lia.
Qed.

Lemma countdownTicks_seconds (i : Z) (n : nat) (c c' : Countdown) :
  0 <= i ->
  countdownTicks n i c = Some c' ->
  cd_seconds c' <= Z.max 0 (cd_seconds c - Z.of_nat n * i).
Proof.
  intros Hi. revert c. induction n as [ | n IH]; intros c.
  - cbn. intros H. injection H as <-. lia.
  - cbn [countdownTicks]. pose proof (countdownTick_next i c) as Hstep.
    destruct (countdownTick i c) as [next m sh | ]; [ | discriminate].
    destruct Hstep as (_ & Hd & _ & Hs). intros H.
    pose proof (IH next H) as IHs. nia.
Qed.

(** The countdown set for a duration that is not negative, with a
    positive interval, expires if and only if the interval divides the
    duration, and then at the call that follows the
    duration / interval calls that count down to zero. Until then, [n]
    calls leave the duration less [n] intervals, also below zero. *)
Theorem countdown_expires_iff_interval_divides
    (durationInSeconds intervalInSeconds : Z) (n : nat) :
  0 <= durationInSeconds -> 0 < intervalInSeconds ->
  let after := countdownTicks n intervalInSeconds
                 (createExpirationCountdown durationInSeconds) in
  (after = None
   <-> durationInSeconds mod intervalInSeconds = 0
       /\ durationInSeconds / intervalInSeconds < Z.of_nat n)
  /\ (forall c, after = Some c ->
        cd_durationInSeconds c = durationInSeconds - Z.of_nat n * intervalInSeconds).
Proof.
  intros Hd Hi. cbv zeta. split.
  - rewrite (countdownTicks_expired _ _ _ Hi). cbn [createExpirationCountdown cd_durationInSeconds].
    split.
    + intros (k & Hk & ->). rewrite Z.mod_mul, Z.div_mul by lia. lia.
    + intros [Hmod Hlt]. exists (durationInSeconds / intervalInSeconds).
      split; [split; [apply Z.div_pos; lia | exact Hlt] | ].
      pose proof (Z.div_mod durationInSeconds intervalInSeconds ltac:(lia)). lia.
  - intros c Hc. apply countdownTicks_duration in Hc. exact Hc.
Qed.

Lemma countdown_expires_iff_interval_divides_witness :
  0 <= 120 /\ 0 < 60
  /\ (let after := countdownTicks 3 60 (createExpirationCountdown 120) in
      (after = None <-> 120 mod 60 = 0 /\ 120 / 60 < Z.of_nat 3)
      /\ (forall c, after = Some c ->
            cd_durationInSeconds c = 120 - Z.of_nat 3 * 60)).
Proof.
  assert (H1 : 0 <= 120) by lia.
  assert (H2 : 0 < 60) by lia.
  split; [exact H1 | split; [exact H2 | ]].
  exact (countdown_expires_iff_interval_divides 120 60 3 H1 H2).
Defined.

(** Once the calls have counted a minute, the seconds that the
    countdown writes are never above zero: they start from 60 at most,
    go down by the interval at every call, and are put back to zero,
    not to 60, at every multiple of 60. *)
Theorem countdown_seconds_after_a_minute
    (durationInSeconds intervalInSeconds : Z) (n : nat) (c : Countdown) :
  60 <= Z.of_nat n * intervalInSeconds ->
  countdownTicks n intervalInSeconds (createExpirationCountdown durationInSeconds)
  = Some c ->
  match countdownTick intervalInSeconds c with
  | Written _ _ secondsShown => cd_seconds c <= 0 /\ secondsShown <= 0
  | CountdownExpired => cd_seconds c <= 0
  end.
Proof.
  intros Hn Hc.
  assert (Hi : 0 < intervalInSeconds) by nia.
  apply countdownTicks_seconds in Hc; [ | lia].
  assert (H0 : cd_seconds (createExpirationCountdown durationInSeconds) <= 60).
  { cbn. destruct (Z.leb_spec durationInSeconds 60); lia. }
  assert (Hle : cd_seconds c <= 0) by lia.
  pose proof (countdownTick_next intervalInSeconds c) as Hstep.
  destruct (countdownTick intervalInSeconds c) as [next m sh | ]; [ | exact Hle].
  destruct Hstep as (_ & _ & -> & Hs'). split; [exact Hle | lia].
Qed.

Lemma countdown_seconds_after_a_minute_witness :
  60 <= Z.of_nat 61 * 1
  /\ countdownTicks 61 1 (createExpirationCountdown 120)
     = Some {| cd_durationInSeconds := 59; cd_seconds := -1 |}
  /\ match countdownTick 1 {| cd_durationInSeconds := 59; cd_seconds := -1 |} with
     | Written _ _ secondsShown => -1 <= 0 /\ secondsShown <= 0
     | CountdownExpired => -1 <= 0
     end.
Proof.
  assert (H1 : 60 <= Z.of_nat 61 * 1) by lia.
  assert (H2 : countdownTicks 61 1 (createExpirationCountdown 120)
               = Some {| cd_durationInSeconds := 59; cd_seconds := -1 |})
    by (vm_compute; reflexivity).
  split; [exact H1 | split; [exact H2 | ]].
  exact (countdown_seconds_after_a_minute 120 1 61 _ H1 H2).
Defined.
(* ----------------------------------------------------------------- *)
(** ** Splitting strings *)

Lemma String_split_nonempty (sep : ascii) (s : string) :
  String_split sep s <> [].
Proof.
  destruct s as [ | c s]; cbn; [discriminate | ].
  destruct (Ascii.eqb c sep); [discriminate | ].
  destruct (String_split sep s); discriminate.
Qed.

Lemma String_split_none (sep : ascii) (s : string) :
  ~ In sep (list_ascii_of_string s) -> String_split sep s = [s].
Proof.
  induction s as [ | c s IH]; cbn; [reflexivity | ].
  intros Hnot. destruct (Ascii.eqb_spec c sep) as [-> | _]; [tauto | ].
  rewrite IH by tauto. reflexivity.
Qed.

Lemma String_split_at (sep : ascii) (a b : string) :
  String_split sep (a ++ String sep b)%string
  = String_split sep a ++ String_split sep b.
Proof.
  induction a as [ | c a IH]; cbn [append String_split].
  - rewrite Ascii.eqb_refl. reflexivity.
  - rewrite IH. destruct (Ascii.eqb c sep); [reflexivity | ].
    pose proof (String_split_nonempty sep a) as Hne.
    destruct (String_split sep a) as [ | piece pieces]; [contradiction | reflexivity].
Qed.

Lemma chars_append (a b : string) :
  list_ascii_of_string (a ++ b)%string
  = list_ascii_of_string a ++ list_ascii_of_string b.
Proof.
  induction a as [ | c a IH]; cbn; [reflexivity | ]. f_equal. exact IH.
Qed.

Lemma string_of_uint_digits (d : Decimal.uint) :
  Forall (fun c => isDigit c = true)
    (list_ascii_of_string (DecimalString.NilEmpty.string_of_uint d)).
Proof.
  induction d; cbn; constructor; (reflexivity || assumption).
Qed.

Lemma zeros_digits (k : nat) :
  Forall (fun c => isDigit c = true) (list_ascii_of_string (zeros k)).
Proof.
  induction k as [ | k IH]; cbn; constructor; [reflexivity | exact IH].
Qed.

Lemma padded_digits (k : nat) (n : Z) :
  0 <= n ->
  Forall (fun c => isDigit c = true)
    (list_ascii_of_string (zeros k ++ Number_toString n)%string).
Proof.
  intros Hn. destruct (Number_toString_digits n Hn) as (d & -> & _ & _).
  rewrite chars_append. apply Forall_app. split.
  - apply zeros_digits.
  - apply string_of_uint_digits.
Qed.

Lemma digits_without (c : ascii) (l : list ascii) :
  isDigit c = false -> Forall (fun d => isDigit d = true) l -> ~ In c l.
Proof.
  intros Hc Hl Hin. rewrite Forall_forall in Hl.
  rewrite (Hl c Hin) in Hc. discriminate.
Qed.
(** [extractPoTFromFilename] reads the powers of a file name that
    follows the convention: after the last underscore, the digits of
    the powers, with or without zeros before them, then a dot and an
    extension without underscore. *)
Theorem extractPoTFromFilename_reads_powers
    (stem extension : string) (k : nat) (powers : Z) :
  0 <= powers ->
  ~ In "_"%char (list_ascii_of_string extension) ->
  extractPoTFromFilename
    (stem ++ "_" ++ (zeros k ++ Number_toString powers) ++ "." ++ extension)%string
  = Some powers.
Proof.
  intros Hp Hext. unfold extractPoTFromFilename.
  set (digits := (zeros k ++ Number_toString powers)%string).
  pose proof (padded_digits k powers Hp) as Hdigits. fold digits in Hdigits.
  change (stem ++ "_" ++ digits ++ "." ++ extension)%string
    with (stem ++ String "_" (digits ++ String "." extension))%string.
  rewrite String_split_at.
  rewrite (String_split_none "_" (digits ++ String "." extension)).
  2:{ rewrite chars_append. cbn [list_ascii_of_string]. intros Hin.
      apply in_app_or in Hin. destruct Hin as [Hin | [Hin | Hin]].
      - revert Hin. apply digits_without; [reflexivity | exact Hdigits].
      - discriminate Hin.
      - exact (Hext Hin). }
  rewrite rev_app_distr. cbn [rev app hd_error].
  rewrite String_split_at.
  rewrite (String_split_none "." digits).
  2:{ apply digits_without; [reflexivity | exact Hdigits]. }
  cbn [app hd_error]. apply Number_ofDigits_padded. exact Hp.
Qed.

Lemma extractPoTFromFilename_reads_powers_witness :
  0 <= 9
  /\ ~ In "_"%char (list_ascii_of_string "ptau")
  /\ extractPoTFromFilename "i_am_a_pot_file_09.ptau" = Some 9.
Proof.
  assert (H1 : 0 <= 9) by lia.
  assert (H2 : ~ In "_"%char (list_ascii_of_string "ptau")).
  { cbn. intros [H | [H | [H | [H | H]]]]; (discriminate H || exact H). }
  split; [exact H1 | split; [exact H2 | ]].
  exact (extractPoTFromFilename_reads_powers "i_am_a_pot_file" "ptau" 1 9 H1 H2).
Defined.
(* ----------------------------------------------------------------- *)
(** ** Circuit metadata *)

Lemma String_replace_trailing_LF (value : string) :
  ~ In LF (list_ascii_of_string value) ->
  String_replace LF_only "" (value ++ LF_only) = value.
Proof.
  induction value as [ | c value IH]; intros Hnot.
  - reflexivity.
  - cbn in Hnot. cbn [append]. unfold LF_only at 1. cbn [String_replace stripPrefix].
    destruct (Ascii.eqb_spec LF c) as [Heq | _]; [symmetry in Heq; tauto | ].
    f_equal. apply IH. tauto.
Qed.

(** When the text matched is a key without colon, a colon, a space, a
    value without colon, hash sign or line feed, and a line feed,
    [getCircuitMetadataFromR1csFile] answers the value. *)
Theorem getCircuitMetadataFromR1csFile_value
    (circuitInfo key value : string) (rgx : string -> option string) :
  rgx circuitInfo = Some (key ++ ": " ++ value ++ LF_only)%string ->
  ~ In ":"%char (list_ascii_of_string key) ->
  ~ In ":"%char (list_ascii_of_string value) ->
  ~ In "#"%char (list_ascii_of_string value) ->
  ~ In LF (list_ascii_of_string value) ->
  getCircuitMetadataFromR1csFile circuitInfo rgx = MetadataValue value.
Proof.
  intros Hmatch Hkey Hcolon Hhash Hlf.
  unfold getCircuitMetadataFromR1csFile. rewrite Hmatch. cbv zeta.
  change (key ++ ": " ++ value ++ LF_only)%string
    with (key ++ String ":" (String " " (value ++ LF_only)))%string.
  rewrite String_split_at, (String_split_none ":" key Hkey).
  rewrite (String_split_none ":" (String " " (value ++ LF_only))).
  2:{ cbn [list_ascii_of_string]. rewrite chars_append. cbn.
      intros [H | H]; [discriminate H | ].
      apply in_app_or in H. destruct H as [H | [H | []]]; [tauto | discriminate H]. }
  cbn [app nth_error String_replace stripPrefix]. cbn [Ascii.eqb Bool.eqb append].
  rewrite (String_split_none "#" (value ++ LF_only)).
  2:{ rewrite chars_append. cbn. intros H.
      apply in_app_or in H. destruct H as [H | [H | []]]; [tauto | discriminate H]. }
  cbn [hd_error]. rewrite String_replace_trailing_LF by exact Hlf. reflexivity.
Qed.

Lemma getCircuitMetadataFromR1csFile_value_witness :
  (fun _ : string => Some ("# of Wires: 1234" ++ LF_only)%string) "r1cs"%string
  = Some ("# of Wires" ++ ": " ++ "1234" ++ LF_only)%string
  /\ ~ In ":"%char (list_ascii_of_string "# of Wires")
  /\ ~ In ":"%char (list_ascii_of_string "1234")
  /\ ~ In "#"%char (list_ascii_of_string "1234")
  /\ ~ In LF (list_ascii_of_string "1234")
  /\ getCircuitMetadataFromR1csFile "r1cs"
       (fun _ => Some ("# of Wires: 1234" ++ LF_only)%string)
     = MetadataValue "1234".
Proof.
  assert (H0 : (fun _ : string => Some ("# of Wires: 1234" ++ LF_only)%string) "r1cs"%string
               = Some ("# of Wires" ++ ": " ++ "1234" ++ LF_only)%string) by reflexivity.
  assert (Hno : forall (c : ascii) (s : string),
            forallb (fun d => negb (Ascii.eqb c d)) (list_ascii_of_string s) = true ->
            ~ In c (list_ascii_of_string s)).
  { intros c s Hall Hin. rewrite forallb_forall in Hall.
    specialize (Hall c Hin). rewrite Ascii.eqb_refl in Hall. discriminate Hall. }
  assert (H1 : ~ In ":"%char (list_ascii_of_string "# of Wires")) by (apply Hno; reflexivity).
  assert (H2 : ~ In ":"%char (list_ascii_of_string "1234")) by (apply Hno; reflexivity).
  assert (H3 : ~ In "#"%char (list_ascii_of_string "1234")) by (apply Hno; reflexivity).
  assert (H4 : ~ In LF (list_ascii_of_string "1234")) by (apply Hno; reflexivity).
  repeat (split; [assumption | ]).
  exact (getCircuitMetadataFromR1csFile_value "r1cs" "# of Wires" "1234" _ H0 H1 H2 H3 H4).
Defined.

(** When the text matched has no colon, [getCircuitMetadataFromR1csFile]
    does not end with the message of the missing information: element 1
    of the split is [undefined], and the call of [replace] on it is a
    [TypeError]. *)
Theorem getCircuitMetadataFromR1csFile_no_colon
    (circuitInfo text : string) (rgx : string -> option string) :
  rgx circuitInfo = Some text ->
  ~ In ":"%char (list_ascii_of_string text) ->
  getCircuitMetadataFromR1csFile circuitInfo rgx = MetadataTypeError.
Proof.
  intros Hmatch Hcolon.
  unfold getCircuitMetadataFromR1csFile. rewrite Hmatch. cbv zeta.
  rewrite (String_split_none ":" text Hcolon). reflexivity.
Qed.

Lemma getCircuitMetadataFromR1csFile_no_colon_witness :
  (fun _ : string => Some "Curve bn-128"%string) "r1cs"%string = Some "Curve bn-128"%string
  /\ ~ In ":"%char (list_ascii_of_string "Curve bn-128")
  /\ getCircuitMetadataFromR1csFile "r1cs" (fun _ => Some "Curve bn-128"%string)
     = MetadataTypeError.
Proof.
  assert (H0 : (fun _ : string => Some "Curve bn-128"%string) "r1cs"%string
               = Some "Curve bn-128"%string) by reflexivity.
  assert (H1 : ~ In ":"%char (list_ascii_of_string "Curve bn-128")).
  { intros Hin.
    assert (Hall : forallb (fun d => negb (Ascii.eqb ":" d))
                     (list_ascii_of_string "Curve bn-128") = true) by reflexivity.
    rewrite forallb_forall in Hall. specialize (Hall _ Hin).
    rewrite Ascii.eqb_refl in Hall. discriminate Hall. }
  split; [exact H0 | split; [exact H1 | ]].
  exact (getCircuitMetadataFromR1csFile_no_colon "r1cs" "Curve bn-128" _ H0 H1).
Defined.
(* ----------------------------------------------------------------- *)
(** ** One upload, one object and one session *)

Lemma Forall_trace_bind_done {A B : Type} (P : Event -> Prop) (m : Run A)
    (k : A -> Run B) :
  Forall P (trace m) -> (forall a, outcome m = Done a -> Forall P (trace (k a))) ->
  Forall P (trace (bind m k)).
Proof.
  intros Hm Hk. rewrite trace_bind. apply Forall_app. split; [exact Hm | ].
  destruct (outcome m) as [a | f]; [apply Hk; reflexivity | constructor].
Qed.

(** The identifier of the session of an upload: the one opened when
    the upload starts from scratch, the stored one otherwise. *)
Lemma startOrResume_calls (w : World) (b k : string) (cfId : option HttpsCallable)
    (cid : option string) (temp : option TempContributionData) :
  let session := if startsFromScratch temp then openedUploadId w
                 else match temp with Some t => uploadId t | None => None end in
  Forall (fun e => (forall k', In k' (uploadedKey e) -> k' = k)
                   /\ (forall u, In u (uploadIdOf e) -> Some u = session)
                   /\ (cfId = None -> isContributionOnly e = false))
    (trace (startOrResume w b k cfId cid temp))
  /\ (forall s, outcome (startOrResume w b k cfId cid temp) = Done s ->
        Some (fst s) = session).
Proof.
  cbv zeta.
  assert (Hscratch :
    Forall (fun e => (forall k', In k' (uploadedKey e) -> k' = k)
                     /\ (forall u, In u (uploadIdOf e) -> Some u = openedUploadId w)
                     /\ (cfId = None -> isContributionOnly e = false))
      (trace (startFromScratch w b k cfId cid))
    /\ (forall s, outcome (startFromScratch w b k cfId cid) = Done s ->
          Some (fst s) = openedUploadId w)).
  { unfold startFromScratch, openMultiPartUpload. split.
    - apply Forall_trace_bind_done.
      + apply Forall_trace_await. cbn. repeat split; try tauto.
        intros k' [<- | []]. reflexivity.
      + intros uid Huid. rewrite outcome_await in Huid.
        destruct (openedUploadId w) as [u | ]; [ | discriminate]. injection Huid as ->.
        apply Forall_trace_bind; [ | intros; constructor].
        destruct cfId as [f | ]; [ | constructor].
        apply Forall_trace_await. cbn. repeat split; try tauto; try discriminate.
        intros u' [<- | []]. reflexivity.
    - intros s Hs. apply bind_done_inv in Hs. destruct Hs as (uid & Huid & Hs).
      apply bind_done_inv in Hs. destruct Hs as (u & _ & Hs).
      cbn in Hs. injection Hs as <-. cbn [fst].
      rewrite outcome_await in Huid.
      destruct (openedUploadId w) as [u' | ]; [ | discriminate].
      injection Huid as ->. reflexivity. }
  unfold startOrResume, startsFromScratch.
  destruct temp as [t | ]; [ | exact Hscratch].
  destruct (falsyString (uploadId t)) eqn:Hfalsy; [exact Hscratch | ].
  split; [constructor | ].
  intros s Hs. cbn in Hs. injection Hs as <-. cbn [fst].
  destruct (uploadId t) as [u | ]; [reflexivity | discriminate Hfalsy].
Qed.

Lemma uploadParts_calls (w : World) (cs : list ChunkWithUrl) (ct : option string)
    (cf : option HttpsCallable) (cid : option string) (acc : list ETagWithPartNumber) :
  Forall (fun e => uploadedKey e = [] /\ uploadIdOf e = []
                   /\ (cf = None -> isContributionOnly e = false))
    (trace (uploadParts w cs ct cf cid acc)).
Proof.
  revert acc. induction cs as [ | chunk rest IH]; intros acc; cbn [uploadParts].
  - constructor.
  - destruct (isRecorded (partNumber chunk) acc); [apply IH | ].
    apply Forall_trace_bind; [apply Forall_trace_await; repeat split | ].
    intros eTag. apply Forall_trace_bind; [ | intros _; apply IH].
    destruct cf as [f | ]; [destruct cid as [id | ] | ];
      try (apply Forall_trace_await; repeat split; discriminate); constructor.
Qed.

Lemma multiPartUpload_calls (w : World) (b k p : string)
    (cfId cfChunk : option HttpsCallable) (cid : option string)
    (temp : option TempContributionData) :
  let session := if startsFromScratch temp then openedUploadId w
                 else match temp with Some t => uploadId t | None => None end in
  Forall (fun e => (forall k', In k' (uploadedKey e) -> k' = k)
                   /\ (forall u, In u (uploadIdOf e) -> Some u = session)
                   /\ (cfId = None -> cfChunk = None -> isContributionOnly e = false))
    (trace (multiPartUpload w b k p cfId cfChunk cid temp)).
Proof.
  cbv zeta. unfold multiPartUpload. cbv zeta.
  destruct (startOrResume_calls w b k cfId cid temp) as [Hstart Hsession].
  cbv zeta in Hstart, Hsession.
  apply Forall_trace_bind.
  { destruct (falsyString _); constructor. }
  intros _. apply Forall_trace_bind_done.
  { eapply Forall_impl; [ | exact Hstart]. cbv beta.
    intros e (H1 & H2 & H3). repeat split; auto. }
  intros s Hs. specialize (Hsession s Hs).
  apply Forall_trace_bind.
  { rewrite getChunksAndPreSignedUrls_trace. constructor; [ | constructor].
    cbn. repeat split; try tauto.
    - intros k' [<- | []]. reflexivity.
    - intros u [<- | []]. exact Hsession. }
  intros cs. apply Forall_trace_bind.
  { eapply Forall_impl; [ | apply uploadParts_calls]. cbv beta.
    intros e (H1 & H2 & H3). rewrite H1, H2.
    split; [intros ? [] | split; [intros ? [] | ]].
    intros _ Hc. apply H3. exact Hc. }
  intros parts. rewrite closeMultiPartUpload_trace. constructor; [ | constructor].
  cbn. repeat split; try tauto.
  - intros k' [<- | []]. reflexivity.
  - intros u [<- | []]. exact Hsession.
Qed.

(** All the calls of one [multiPartUpload] name the object key given
    to it, and all those that carry an upload identifier carry the same
    one: the identifier just opened when the upload starts from scratch,
    the stored one when it is resumed. *)
Theorem multiPartUpload_one_object_one_session (w : World) (b k p : string)
    (cfId cfChunk : option HttpsCallable) (cid : option string)
    (temp : option TempContributionData) :
  let session := if startsFromScratch temp then openedUploadId w
                 else match temp with Some t => uploadId t | None => None end in
  Forall (fun e => (forall k', In k' (uploadedKey e) -> k' = k)
                   /\ (forall u, In u (uploadIdOf e) -> Some u = session))
    (trace (multiPartUpload w b k p cfId cfChunk cid temp)).
Proof.
  cbv zeta. eapply Forall_impl; [ | apply multiPartUpload_calls]. cbv beta.
  intros e (H1 & H2 & _). split; assumption.
Qed.
(* ----------------------------------------------------------------- *)
(** ** Finalization *)

(** A finalization does not look at the participant data: the run is
    the same with any data as with none, so it never resumes an upload;
    and it makes none of the calls that only a contribution makes (the
    computation with entropy, the requests for progress, the temporary
    records of the upload). *)
Theorem finalization_ignores_participant_data
    (truthy : ParticipantContributionStep -> bool) (w : World)
    (ceremony : CeremonyDocument) (circuit : CircuitDocument)
    (entropyOrBeacon ghUsername : string) (newParticipantData : option DocumentData) :
  makeContribution truthy w ceremony circuit entropyOrBeacon ghUsername true
    newParticipantData
  = makeContribution truthy w ceremony circuit entropyOrBeacon ghUsername true None
  /\ Forall (fun e => isContributionOnly e = false)
       (trace (makeContribution truthy w ceremony circuit entropyOrBeacon ghUsername
                 true newParticipantData)).
Proof.
  split; [reflexivity | ].
  unfold makeContribution. cbv zeta.
  unfold downloadCondition, computeCondition, uploadCondition, verifyCondition.
  cbn [orb when].
  apply Forall_trace_bind.
  { unfold downloadStep, downloadContribution. cbv zeta.
    apply Forall_trace_bind; [apply Forall_trace_await; reflexivity | ].
    intros _. cbn. constructor. }
  intros _. apply Forall_trace_bind.
  { unfold computeStep, computeContribution.
    apply Forall_trace_bind; [apply Forall_trace_await; reflexivity | ].
    intros _. cbv zeta.
    destruct (String_match contributionHashRegex _); [ | constructor].
    apply Forall_trace_bind; [apply Forall_trace_await; reflexivity | ].
    intros _. cbn. constructor. }
  intros _. apply Forall_trace_bind.
  { unfold uploadStep, uploadCall. cbv zeta. cbn [negb].
    apply Forall_trace_bind; [ | intros _; cbn; constructor].
    eapply Forall_impl; [ | apply multiPartUpload_calls]. cbv beta.
    intros e (_ & _ & H). apply H; reflexivity. }
  intros _. unfold verifyStep, computeVerification.
  apply Forall_trace_bind; [ | intros; constructor].
  apply Forall_trace_bind; [apply Forall_trace_await; reflexivity | ].
  intros [data | ]; constructor.
Qed.

(* ----------------------------------------------------------------- *)
(** ** The new zkey never takes the place of the last one *)

Lemma append_cancel_l (s a b : string) : (s ++ a = s ++ b)%string -> a = b.
Proof.
  induction s as [ | c s IH]; cbn; [trivial | ].
  intros H. injection H as H. apply IH. exact H.
Qed.

Lemma append_cancel_r (a b s : string) : (a ++ s = b ++ s)%string -> a = b.
Proof.
  revert b. induction a as [ | c a IH]; intros [ | d b] H; cbn in H.
  - reflexivity.
  - exfalso. apply (f_equal String.length) in H. cbn in H.
    rewrite length_append in H. lia.
  - exfalso. apply (f_equal String.length) in H. cbn in H.
    rewrite length_append in H. lia.
  - injection H as -> H. f_equal. apply IH. exact H.
Qed.

Lemma Number_ofDigits_formatZkeyIndex (n : Z) :
  0 <= n -> Number_ofDigits (formatZkeyIndex n) = Some n.
Proof.
  intros Hn. rewrite formatZkeyIndex_zeros. apply Number_ofDigits_padded. exact Hn.
Qed.

Lemma newZkeyName_is_new (circuit : CircuitDocument) (finalize : bool) :
  0 <= completedContributions circuit ->
  currentZkeyIndexOf circuit <> newZkeyNameOf circuit finalize.
Proof.
  intros Hp Heq. apply (f_equal Number_ofDigits) in Heq.
  unfold currentZkeyIndexOf, newZkeyNameOf, nextZkeyIndexOf in Heq.
  rewrite Number_ofDigits_formatZkeyIndex in Heq by exact Hp.
  destruct finalize.
  - discriminate Heq.
  - rewrite Number_ofDigits_formatZkeyIndex in Heq by lia.
    injection Heq as Heq. lia.
Qed.

Lemma zkeyStoragePath_inj (circuit : CircuitDocument) (a b : string) :
  zkeyStoragePath circuit a = zkeyStoragePath circuit b -> a = b.
Proof.
  unfold zkeyStoragePath. intros H.
  do 5 apply append_cancel_l in H. apply append_cancel_r in H. exact H.
Qed.

Lemma zkeyLocalPath_inj (w : World) (circuit : CircuitDocument) (finalize : bool)
    (a b : string) :
  zkeyLocalPath w circuit finalize a = zkeyLocalPath w circuit finalize b -> a = b.
Proof.
  unfold zkeyLocalPath. intros H.
  do 4 apply append_cancel_l in H. apply append_cancel_r in H. exact H.
Qed.

Lemma In_flat_map_Forall {A B : Type} (f : A -> list B) (P : B -> Prop) (l : list A) :
  Forall (fun a => forall b, In b (f a) -> P b) l ->
  forall b, In b (flat_map f l) -> P b.
Proof.
  intros Hall b Hin. apply in_flat_map in Hin. destruct Hin as (a & Ha & Hb).
  rewrite Forall_forall in Hall. exact (Hall a Ha b Hb).
Qed.

Lemma multiPartUpload_files (w : World) (b k p : string)
    (cfId cfChunk : option HttpsCallable) (cid : option string)
    (temp : option TempContributionData) :
  Forall (fun e => downloadedKey e = [] /\ computedFiles e = []
                   /\ (forall k', In k' (uploadedKey e) -> k' = k))
    (trace (multiPartUpload w b k p cfId cfChunk cid temp)).
Proof.
  pose proof (multiPartUpload_events w b k p cfId cfChunk cid temp) as Hev.
  pose proof (multiPartUpload_calls w b k p cfId cfChunk cid temp) as Hcalls.
  cbv zeta in Hcalls. rewrite Forall_forall in *.
  intros e He. specialize (Hev e He). destruct (Hcalls e He) as (Hk & _ & _).
  destruct e; try discriminate Hev; repeat split; exact Hk.
Qed.

(** Where the calls of a run read and write. *)
Lemma makeContribution_files
    (truthy : ParticipantContributionStep -> bool) (w : World)
    (ceremony : CeremonyDocument) (circuit : CircuitDocument)
    (entropyOrBeacon ghUsername : string) (finalize : bool)
    (newParticipantData : option DocumentData) :
  Forall (fun e =>
            (forall k, In k (downloadedKey e) ->
               k = zkeyStoragePath circuit (currentZkeyIndexOf circuit))
            /\ (forall k, In k (uploadedKey e) ->
                  k = zkeyStoragePath circuit (newZkeyNameOf circuit finalize))
            /\ (forall f, In f (computedFiles e) ->
                  f = (zkeyLocalPath w circuit finalize (currentZkeyIndexOf circuit),
                       zkeyLocalPath w circuit finalize (newZkeyNameOf circuit finalize))))
    (trace (makeContribution truthy w ceremony circuit entropyOrBeacon ghUsername
              finalize newParticipantData)).
Proof.
  assert (Hprogress : forall id,
    Forall (fun e =>
            (forall k, In k (downloadedKey e) ->
               k = zkeyStoragePath circuit (currentZkeyIndexOf circuit))
            /\ (forall k, In k (uploadedKey e) ->
                  k = zkeyStoragePath circuit (newZkeyNameOf circuit finalize))
            /\ (forall f, In f (computedFiles e) ->
                  f = (zkeyLocalPath w circuit finalize (currentZkeyIndexOf circuit),
                       zkeyLocalPath w circuit finalize (newZkeyNameOf circuit finalize))))
      (trace (when (negb finalize) (makeContributionStepProgress w id)))).
  { intros id. apply Forall_trace_when. unfold makeContributionStepProgress.
    apply Forall_trace_await. cbn. repeat split; intros ? []. }
  unfold makeContribution. cbv zeta.
  apply Forall_trace_bind.
  { apply Forall_trace_when. unfold downloadStep, downloadContribution. cbv zeta.
    apply Forall_trace_bind; [ | intros _; apply Hprogress].
    apply Forall_trace_await. cbn.
    split; [intros k [<- | []]; reflexivity | split; intros ? []]. }
  intros _. apply Forall_trace_bind.
  { apply Forall_trace_when. unfold computeStep, computeContribution.
    apply Forall_trace_bind.
    { destruct finalize; apply Forall_trace_await; cbn;
        (split; [intros ? [] | split; [intros ? [] | ]]);
        intros f [<- | []]; reflexivity. }
    intros _. cbv zeta.
    destruct (String_match contributionHashRegex _); [ | constructor].
    apply Forall_trace_bind; [ | intros _; apply Hprogress].
    apply Forall_trace_await. cbn. repeat split; intros ? []. }
  intros _. apply Forall_trace_bind.
  { apply Forall_trace_when. unfold uploadStep.
    apply Forall_trace_bind; [ | intros _; apply Hprogress].
    unfold uploadCall. cbv zeta.
    destruct (negb finalize);
      (eapply Forall_impl; [ | apply multiPartUpload_files]); cbv beta;
      intros e (Hd & Hc & Hu); rewrite Hd, Hc;
      (split; [intros ? [] | split; [exact Hu | intros ? []]]). }
  intros _. apply Forall_trace_when. unfold verifyStep, computeVerification.
  apply Forall_trace_bind; [ | intros; constructor].
  apply Forall_trace_bind.
  { apply Forall_trace_await. cbn. repeat split; intros ? []. }
  intros [data | ]; constructor.
Qed.

(** Whatever the step, the answers of the services and the kind of run,
    for a circuit whose number of completed contributions is not
    negative: no call of a run writes in the bucket to the object key
    that the run downloads, and no computation writes the zkey file
    that it reads. *)
Theorem new_zkey_never_replaces_last
    (truthy : ParticipantContributionStep -> bool) (w : World)
    (ceremony : CeremonyDocument) (circuit : CircuitDocument)
    (entropyOrBeacon ghUsername : string) (finalize : bool)
    (newParticipantData : option DocumentData) :
  0 <= completedContributions circuit ->
  let tr := trace (makeContribution truthy w ceremony circuit entropyOrBeacon
                     ghUsername finalize newParticipantData) in
  (forall k, In k (flat_map uploadedKey tr) -> ~ In k (flat_map downloadedKey tr))
  /\ (forall lastZkey newZkey,
        In (lastZkey, newZkey) (flat_map computedFiles tr) -> lastZkey <> newZkey).
Proof.
  intros Hp. cbv zeta.
  pose proof (makeContribution_files truthy w ceremony circuit entropyOrBeacon
                ghUsername finalize newParticipantData) as Hfiles.
  pose proof (newZkeyName_is_new circuit finalize Hp) as Hnew.
  split.
  - intros k Hup Hdown.
    apply (In_flat_map_Forall uploadedKey
             (fun k => k = zkeyStoragePath circuit (newZkeyNameOf circuit finalize)))
      in Hup.
    2:{ eapply Forall_impl; [ | exact Hfiles]. cbv beta. intros e (_ & H & _). exact H. }
    apply (In_flat_map_Forall downloadedKey
             (fun k => k = zkeyStoragePath circuit (currentZkeyIndexOf circuit)))
      in Hdown.
    2:{ eapply Forall_impl; [ | exact Hfiles]. cbv beta. intros e (H & _ & _). exact H. }
    cbv beta in Hup, Hdown. rewrite Hup in Hdown.
    apply zkeyStoragePath_inj in Hdown. congruence.
  - intros lastZkey newZkey Hin.
    apply (In_flat_map_Forall computedFiles
             (fun f => f = (zkeyLocalPath w circuit finalize (currentZkeyIndexOf circuit),
                            zkeyLocalPath w circuit finalize
                              (newZkeyNameOf circuit finalize))))
      in Hin.
    2:{ eapply Forall_impl; [ | exact Hfiles]. cbv beta. intros e (_ & _ & H). exact H. }
    cbv beta in Hin. injection Hin as -> ->.
    intros Heq. apply zkeyLocalPath_inj in Heq. congruence.
Qed.

Lemma new_zkey_never_replaces_last_witness :
  0 <= completedContributions sampleCircuit
  /\ (let tr := trace (makeContribution (fun _ => true) sampleWorld sampleCeremony
                         sampleCircuit "entropy" "alice" false
                         (Some (mkParticipant (Some DOWNLOADING) None))) in
      (forall k, In k (flat_map uploadedKey tr) -> ~ In k (flat_map downloadedKey tr))
      /\ (forall lastZkey newZkey,
            In (lastZkey, newZkey) (flat_map computedFiles tr) -> lastZkey <> newZkey)).
Proof.
  assert (H : 0 <= completedContributions sampleCircuit) by (cbn; lia).
  split; [exact H | ].
  exact (new_zkey_never_replaces_last (fun _ => true) sampleWorld sampleCeremony
           sampleCircuit "entropy" "alice" false
           (Some (mkParticipant (Some DOWNLOADING) None)) H).
Defined.
(* ----------------------------------------------------------------- *)
(** ** No verification before the steps of the run went through *)

Lemma downloadStep_answered (w : World) (ceremony : CeremonyDocument)
    (circuit : CircuitDocument) (finalize : bool) :
  outcome (downloadStep w ceremony circuit finalize) = Done tt ->
  exists e, In e (trace (downloadStep w ceremony circuit finalize))
            /\ completes e = Some DOWNLOADING /\ answered w e = true.
Proof.
  intros Hdone. destruct (downloadStep_done _ _ _ _ Hdone) as (pre & e & Htr & _ & He).
  exists e. split; [rewrite Htr; apply in_elt | split; [exact He | ]].
  unfold downloadStep, downloadContribution in Hdone. cbv zeta in Hdone.
  apply bind_done_inv in Hdone. destruct Hdone as (u & Hd & _).
  rewrite outcome_await in Hd.
  destruct e; try discriminate He. cbn.
  destruct (downloadResolves w); [reflexivity | discriminate Hd].
Qed.

Lemma computeStep_answered (w : World) (ceremony : CeremonyDocument)
    (circuit : CircuitDocument) (entropyOrBeacon ghUsername : string) (finalize : bool) :
  outcome (computeStep w ceremony circuit entropyOrBeacon ghUsername finalize) = Done tt ->
  exists e, In e (trace (computeStep w ceremony circuit entropyOrBeacon ghUsername finalize))
            /\ completes e = Some COMPUTING /\ answered w e = true.
Proof.
  intros Hdone. destruct (computeStep_done _ _ _ _ _ _ Hdone) as (pre & e & Htr & _ & He).
  exists e. split; [rewrite Htr; apply in_elt | split; [exact He | ]].
  unfold computeStep in Hdone. cbv zeta in Hdone.
  apply bind_done_inv in Hdone. destruct Hdone as (u & _ & Hd).
  destruct (String_match contributionHashRegex _); [ | discriminate Hd].
  apply bind_done_inv in Hd. destruct Hd as (u' & Hd & _).
  rewrite outcome_await in Hd.
  destruct e; try discriminate He. cbn.
  destruct (storeTimeAndHashResolves w); [reflexivity | discriminate Hd].
Qed.

Lemma multiPartUpload_answered (w : World) (b k p : string)
    (cfId cfChunk : option HttpsCallable) (cid : option string)
    (temp : option TempContributionData) (u : unit) :
  outcome (multiPartUpload w b k p cfId cfChunk cid temp) = Done u ->
  completeResolves w = true.
Proof.
  unfold multiPartUpload. cbv zeta. intros Hdone.
  apply bind_done_inv in Hdone. destruct Hdone as (u1 & _ & Hdone).
  apply bind_done_inv in Hdone. destruct Hdone as (session & _ & Hdone).
  apply bind_done_inv in Hdone. destruct Hdone as (cs & _ & Hdone).
  apply bind_done_inv in Hdone. destruct Hdone as (parts & _ & Hdone).
  unfold closeMultiPartUpload in Hdone. rewrite outcome_await in Hdone.
  destruct (completeResolves w); [reflexivity | discriminate Hdone].
Qed.

Lemma uploadStep_answered (w : World) (ceremony : CeremonyDocument)
    (circuit : CircuitDocument) (finalize : bool) (pd : option DocumentData) :
  outcome (uploadStep w ceremony circuit finalize pd) = Done tt ->
  exists e, In e (trace (uploadStep w ceremony circuit finalize pd))
            /\ completes e = Some UPLOADING /\ answered w e = true.
Proof.
  intros Hdone. destruct (uploadStep_done _ _ _ _ _ Hdone) as (pre & e & Htr & _ & He).
  exists e. split; [rewrite Htr; apply in_elt | split; [exact He | ]].
  unfold uploadStep in Hdone.
  apply bind_done_inv in Hdone. destruct Hdone as (u & Hd & _).
  unfold uploadCall in Hd. cbv zeta in Hd.
  assert (Hres : completeResolves w = true).
  { destruct (negb finalize); exact (multiPartUpload_answered _ _ _ _ _ _ _ _ _ Hd). }
  destruct e; try discriminate He. cbn. exact Hres.
Qed.

Lemma when_answered (w : World) (c : bool) (m : Run unit)
    (k : ParticipantContributionStep) :
  (outcome m = Done tt ->
   exists e, In e (trace m) /\ completes e = Some k /\ answered w e = true) ->
  outcome (when c m) = Done tt -> c = true ->
  exists e, In e (trace (when c m)) /\ completes e = Some k /\ answered w e = true.
Proof.
  intros H Hdone ->. cbn [when] in *. apply H. exact Hdone.
Qed.

Lemma no_verification_in (k : ParticipantContributionStep) (finalize : bool)
    (tr : list Event) :
  k <> VERIFYING ->
  Forall (fun e => blockOf e = Some k \/ (finalize = false /\ isProgress e = true)) tr ->
  Forall (fun e => completes e <> Some VERIFYING) tr.
Proof.
  intros Hk. apply Forall_impl. intros e [He | [_ He]] Hv;
    destruct e; try discriminate Hv; try discriminate He.
  cbn in He. congruence.
Qed.

(** In every run, however it ends: when the verification is requested,
    it is the last call of the run, and each of the download, the
    computation and the upload that the checkpoint makes the run execute
    has made its completing call before and has had it answered. *)
Theorem verification_after_answered_steps
    (truthy : ParticipantContributionStep -> bool) (w : World)
    (ceremony : CeremonyDocument) (circuit : CircuitDocument)
    (entropyOrBeacon ghUsername : string) (finalize : bool)
    (newParticipantData : option DocumentData) :
  let step := optContributionStep newParticipantData in
  let tr := trace (makeContribution truthy w ceremony circuit entropyOrBeacon
                     ghUsername finalize newParticipantData) in
  (exists v, In v tr /\ completes v = Some VERIFYING) ->
  exists pre v,
    tr = pre ++ [v] /\ completes v = Some VERIFYING
    /\ Forall (fun e => completes e <> Some VERIFYING) pre
    /\ (downloadCondition truthy finalize step = true ->
        exists e, In e pre /\ completes e = Some DOWNLOADING /\ answered w e = true)
    /\ (computeCondition truthy finalize step = true ->
        exists e, In e pre /\ completes e = Some COMPUTING /\ answered w e = true)
    /\ (uploadCondition truthy finalize step = true ->
        exists e, In e pre /\ completes e = Some UPLOADING /\ answered w e = true).
Proof.
  cbv zeta. unfold makeContribution. cbv zeta.
  set (step := optContributionStep newParticipantData).
  set (a := when (downloadCondition truthy finalize step)
              (downloadStep w ceremony circuit finalize)).
  set (b := when (computeCondition truthy finalize step)
              (computeStep w ceremony circuit entropyOrBeacon ghUsername finalize)).
  set (c := when (uploadCondition truthy finalize step)
              (uploadStep w ceremony circuit finalize newParticipantData)).
  set (d := when (verifyCondition truthy finalize step)
              (verifyStep w ceremony circuit ghUsername)).
  assert (Ha : Forall (fun e => completes e <> Some VERIFYING) (trace a)).
  { apply (no_verification_in DOWNLOADING finalize); [discriminate | ].
    apply Forall_trace_when, downloadStep_events. }
  assert (Hb : Forall (fun e => completes e <> Some VERIFYING) (trace b)).
  { apply (no_verification_in COMPUTING finalize); [discriminate | ].
    apply Forall_trace_when, computeStep_events. }
  assert (Hc : Forall (fun e => completes e <> Some VERIFYING) (trace c)).
  { apply (no_verification_in UPLOADING finalize); [discriminate | ].
    apply Forall_trace_when, uploadStep_events. }
  assert (Hnone : forall l, Forall (fun e => completes e <> Some VERIFYING) l ->
                    ~ exists v, In v l /\ completes v = Some VERIFYING).
  { intros l Hl (v & Hin & Hv). rewrite Forall_forall in Hl. exact (Hl v Hin Hv). }
  intros Hverify.
  rewrite trace_bind in *. destruct (outcome a) as [[] | fa] eqn:Hoa.
  2:{ exfalso. rewrite app_nil_r in Hverify. exact (Hnone _ Ha Hverify). }
  rewrite trace_bind in *. destruct (outcome b) as [[] | fb] eqn:Hob.
  2:{ exfalso. rewrite app_nil_r in Hverify. apply (Hnone (trace a ++ trace b)).
      - apply Forall_app. split; assumption.
      - exact Hverify. }
  rewrite trace_bind in *. destruct (outcome c) as [[] | fc] eqn:Hoc.
  2:{ exfalso. rewrite app_nil_r in Hverify. apply (Hnone (trace a ++ trace b ++ trace c)).
      - repeat (apply Forall_app; split); assumption.
      - exact Hverify. }
  assert (Hd : exists v, trace d = [v] /\ completes v = Some VERIFYING).
  { subst d. destruct (verifyCondition truthy finalize step); cbn [when].
    - rewrite verifyStep_trace. eexists. split; reflexivity.
    - exfalso. cbn [when trace ret fst] in Hverify. rewrite !app_nil_r in Hverify.
      apply (Hnone (trace a ++ trace b ++ trace c)).
      + repeat (apply Forall_app; split); assumption.
      + exact Hverify. }
  destruct Hd as (v & Hd & Hv). rewrite Hd.
  exists (trace a ++ trace b ++ trace c), v.
  split; [rewrite <- !app_assoc; reflexivity | ].
  split; [exact Hv | ].
  split; [repeat (apply Forall_app; split); assumption | ].
  split; [ | split].
  - intros Hcond.
    destruct (when_answered w _ _ DOWNLOADING
                (downloadStep_answered w ceremony circuit finalize) Hoa Hcond)
      as (e & Hin & He).
    exists e. split; [apply in_or_app; left; exact Hin | exact He].
  - intros Hcond.
    destruct (when_answered w _ _ COMPUTING
                (computeStep_answered w ceremony circuit entropyOrBeacon ghUsername finalize)
                Hob Hcond)
      as (e & Hin & He).
    exists e. split; [ | exact He].
    apply in_or_app; right. apply in_or_app; left. exact Hin.
  - intros Hcond.
    destruct (when_answered w _ _ UPLOADING
                (uploadStep_answered w ceremony circuit finalize newParticipantData)
                Hoc Hcond)
      as (e & Hin & He).
    exists e. split; [ | exact He].
    apply in_or_app; right. apply in_or_app; right. exact Hin.
Qed.

Lemma verification_after_answered_steps_witness :
  let tr := trace (makeContribution (fun _ => true) sampleWorld sampleCeremony
                     sampleCircuit "entropy" "alice" false
                     (Some (mkParticipant (Some COMPUTING) None))) in
  (exists v, In v tr /\ completes v = Some VERIFYING)
  /\ exists pre v,
       tr = pre ++ [v] /\ completes v = Some VERIFYING
       /\ Forall (fun e => completes e <> Some VERIFYING) pre
       /\ (downloadCondition (fun _ => true) false (Some COMPUTING) = true ->
           exists e, In e pre /\ completes e = Some DOWNLOADING
                     /\ answered sampleWorld e = true)
       /\ (computeCondition (fun _ => true) false (Some COMPUTING) = true ->
           exists e, In e pre /\ completes e = Some COMPUTING
                     /\ answered sampleWorld e = true)
       /\ (uploadCondition (fun _ => true) false (Some COMPUTING) = true ->
           exists e, In e pre /\ completes e = Some UPLOADING
                     /\ answered sampleWorld e = true).
Proof.
  cbv zeta.
  assert (H : exists v,
            In v (trace (makeContribution (fun _ => true) sampleWorld sampleCeremony
                           sampleCircuit "entropy" "alice" false
                           (Some (mkParticipant (Some COMPUTING) None))))
            /\ completes v = Some VERIFYING).
  { exists (EvVerifyContribution "ceremony-1" "circuit-1" "alice" "demo-ph2-ceremony").
    split; [vm_compute; tauto | reflexivity]. }
  split; [exact H | ].
  exact (verification_after_answered_steps (fun _ => true) sampleWorld sampleCeremony
           sampleCircuit "entropy" "alice" false
           (Some (mkParticipant (Some COMPUTING) None)) H).
Defined.
(* ----------------------------------------------------------------- *)
(** ** The time left of a timeout *)

Lemma decompositionSpec_days_neg (millis : Q) :
  (millis < 0)%Q -> days (decompositionSpec millis) < 0.
Proof.
  intros Hm. unfold decompositionSpec; cbn [days].
  apply Z.div_lt_upper_bound; [lia | ].
  assert (Hd : (millis / 1000 < 0)%Q).
  { apply Qlt_shift_div_r; [reflexivity | lra]. }
  pose proof (Qfloor_neg _ Hd). lia.
Qed.

(** When the end date of the timeout is already behind, the text of
    the time left starts with a zero and a minus sign: the days are
    negative, and the hours, minutes and seconds count upwards from
    them. *)
Theorem retry_text_after_end_date (endDate now : Z) :
  endDate < now ->
  let t := getSecondsMinutesHoursFromMillis (inject_Z (endDate - now)) in
  days t < 0
  /\ timeoutRetryText endDate now
     = ("0-" ++ Number_toString (- days t) ++ ":" ++ clockText t)%string.
Proof.
  intros Hlt. cbv zeta.
  assert (Hd : days (getSecondsMinutesHoursFromMillis (inject_Z (endDate - now))) < 0).
  { rewrite getSecondsMinutesHoursFromMillis_spec. apply decompositionSpec_days_neg.
    change 0%Q with (inject_Z 0). rewrite <- Zlt_Qlt. lia. }
  split; [exact Hd | ].
  unfold timeoutRetryText, retryText, clockText.
  set (t := getSecondsMinutesHoursFromMillis (inject_Z (endDate - now))) in *.
  unfold convertToDoubleDigits at 1.
  destruct (Z.ltb_spec (days t) 10) as [_ | Hge]; [ | lia].
  rewrite (Number_toString_negative (days t) Hd). reflexivity.
Qed.

Lemma retry_text_after_end_date_witness :
  1000 < 1500
  /\ (let t := getSecondsMinutesHoursFromMillis (inject_Z (1000 - 1500)) in
      days t < 0
      /\ timeoutRetryText 1000 1500
         = ("0-" ++ Number_toString (- days t) ++ ":" ++ clockText t)%string).
Proof.
  assert (H : 1000 < 1500) by lia.
  split; [exact H | ].
  exact (retry_text_after_end_date 1000 1500 H).
Defined.

(* ----------------------------------------------------------------- *)
(** ** The circuits of a ceremony, in order *)

Lemma insertBySequencePosition_perm (c : CircuitInfo) (l : list CircuitInfo) :
  Permutation (c :: l) (insertBySequencePosition c l).
Proof.
  induction l as [ | d l IH]; cbn [insertBySequencePosition]; [reflexivity | ].
  destruct (sequencePosition c <=? sequencePosition d); [reflexivity | ].
  rewrite perm_swap. apply perm_skip. exact IH.
Qed.

Lemma insertBySequencePosition_sorted (c : CircuitInfo) (l : list CircuitInfo) :
  StronglySorted (fun a b => sequencePosition a <= sequencePosition b) l ->
  StronglySorted (fun a b => sequencePosition a <= sequencePosition b)
    (insertBySequencePosition c l).
Proof.
  induction 1 as [ | d l Hl IH Hd]; cbn [insertBySequencePosition].
  - constructor; constructor.
  - destruct (Z.leb_spec (sequencePosition c) (sequencePosition d)) as [Hle | Hgt].
    + constructor; [constructor; assumption | ].
      constructor; [exact Hle | ].
      eapply Forall_impl; [ | exact Hd]. cbv beta. intros e He. lia.
    + constructor; [exact IH | ].
      assert (Hall : Forall (fun e => sequencePosition d <= sequencePosition e) (c :: l))
        by (constructor; [lia | exact Hd]).
      rewrite Forall_forall in *. intros e He. apply Hall.
      eapply Permutation_in; [ | exact He].
      symmetry. apply insertBySequencePosition_perm.
Qed.

Lemma insertBySequencePosition_filter (position : Z) (c : CircuitInfo)
    (l : list CircuitInfo) :
  StronglySorted (fun a b => sequencePosition a <= sequencePosition b) l ->
  filter (fun d => sequencePosition d =? position) (insertBySequencePosition c l)
  = filter (fun d => sequencePosition d =? position) (c :: l).
Proof.
  induction 1 as [ | d l Hl IH Hd]; cbn [insertBySequencePosition]; [reflexivity | ].
  destruct (Z.leb_spec (sequencePosition c) (sequencePosition d)) as [Hle | Hgt];
    [reflexivity | ].
  cbn [filter] in *. rewrite IH.
  destruct (Z.eqb_spec (sequencePosition c) position) as [Hc | Hc]; [ | reflexivity].
  destruct (Z.eqb_spec (sequencePosition d) position) as [Hd' | Hd']; [lia | reflexivity].
Qed.

Lemma sortBySequencePosition_sorted (l : list CircuitInfo) :
  StronglySorted (fun a b => sequencePosition a <= sequencePosition b)
    (sortBySequencePosition l).
Proof.
  induction l as [ | c l IH]; cbn [sortBySequencePosition]; [constructor | ].
  apply insertBySequencePosition_sorted. exact IH.
Qed.

(** [getCeremonyCircuits] answers the documents of the query, each
    once, in ascending order of position; documents of one position
    keep their order, so [getNextCircuitForContribution] answers on them
    what it answers on the documents as the query gave them. *)
Theorem getCeremonyCircuits_in_order (documents : list CircuitInfo) :
  StronglySorted (fun a b => sequencePosition a <= sequencePosition b)
    (getCeremonyCircuits documents)
  /\ Permutation documents (getCeremonyCircuits documents)
  /\ forall nextCircuitPosition,
       filter (fun d => sequencePosition d =? nextCircuitPosition)
         (getCeremonyCircuits documents)
       = filter (fun d => sequencePosition d =? nextCircuitPosition) documents
       /\ getNextCircuitForContribution (getCeremonyCircuits documents) nextCircuitPosition
          = getNextCircuitForContribution documents nextCircuitPosition.
Proof.
  unfold getCeremonyCircuits.
  split; [apply sortBySequencePosition_sorted | ].
  split.
  - induction documents as [ | c l IH]; cbn [sortBySequencePosition]; [constructor | ].
    rewrite <- insertBySequencePosition_perm. apply perm_skip. exact IH.
  - intros position.
    assert (Hfilter : filter (fun d => sequencePosition d =? position)
                        (sortBySequencePosition documents)
                      = filter (fun d => sequencePosition d =? position) documents).
    { induction documents as [ | c l IH]; cbn [sortBySequencePosition]; [reflexivity | ].
      rewrite insertBySequencePosition_filter by apply sortBySequencePosition_sorted.
      cbn [filter]. rewrite IH. reflexivity. }
    split; [exact Hfilter | ].
    unfold getNextCircuitForContribution. cbv zeta. rewrite Hfilter. reflexivity.
Qed.
(* ----------------------------------------------------------------- *)
(** ** The regular expression of the contribution hash *)

Lemma string_app_assoc (a b c : string) : ((a ++ b) ++ c = a ++ (b ++ c))%string.
Proof.
  induction a as [ | x a IH]; cbn; [reflexivity | ]. f_equal. exact IH.
Qed.

Lemma stripPrefix_Some (p s r : string) :
  stripPrefix p s = Some r -> s = (p ++ r)%string.
Proof.
  revert s. induction p as [ | a p IH]; intros s H; cbn in *.
  - injection H as ->. reflexivity.
  - destruct s as [ | b s]; [discriminate | ].
    destruct (Ascii.eqb_spec a b) as [-> | _]; [ | discriminate].
    f_equal. apply IH. exact H.
Qed.

Lemma stripPrefix_append (p r : string) : stripPrefix p (p ++ r) = Some r.
Proof.
  induction p as [ | a p IH]; cbn; [reflexivity | ].
  rewrite Ascii.eqb_refl. exact IH.
Qed.

Lemma matchHere_AnyPlus (re : list RegexItem) (c : ascii) (s : string) :
  matchHere (AnyPlus :: re) (String c s)
  = if isLineTerminator c then None
    else match matchHere (AnyPlus :: re) s with
         | Some m => Some (String c m)
         | None => option_map (String c) (matchHere re s)
         end.
Proof. reflexivity. Qed.

(** What the matcher answers is denoted by the items and starts the
    string. *)
Lemma matchHere_sound (re : list RegexItem) (s m : string) :
  matchHere re s = Some m ->
  denotes re m /\ exists rest, s = (m ++ rest)%string.
Proof.
  revert s m. induction re as [ | [l | ] re IH]; intros s m H.
  - cbn in H. injection H as <-. split; [reflexivity | exists s; reflexivity].
  - cbn [matchHere] in H.
    destruct (stripPrefix l s) as [s0 | ] eqn:Hstrip; [ | discriminate].
    destruct (matchHere re s0) as [m0 | ] eqn:Hm0; [ | discriminate].
    cbn in H. injection H as <-.
    destruct (IH _ _ Hm0) as [Hden (rest & ->)].
    apply stripPrefix_Some in Hstrip. subst s. split.
    + exists m0. split; [reflexivity | exact Hden].
    + exists rest. rewrite string_app_assoc. reflexivity.
  - revert m H. induction s as [ | c s IHs]; intros m H; [discriminate | ].
    rewrite matchHere_AnyPlus in H.
    destruct (isLineTerminator c) eqn:Hc; [discriminate | ].
    destruct (matchHere (AnyPlus :: re) s) as [m1 | ] eqn:Hm1.
    + injection H as <-.
      destruct (IHs _ eq_refl) as [(a & m' & -> & Ha & Hlt & Hden) (rest & ->)].
      split.
      * exists (String c a), m'. split; [reflexivity | ].
        split; [discriminate | ].
        split; [ | exact Hden].
        unfold noLineTerminator in *. cbn. rewrite Hc, Hlt. reflexivity.
      * exists rest. reflexivity.
    + destruct (matchHere re s) as [m2 | ] eqn:Hm2; [ | discriminate].
      cbn in H. injection H as <-.
      destruct (IH _ _ Hm2) as [Hden (rest & ->)].
      split.
      * exists (String c EmptyString), m2. split; [reflexivity | ].
        split; [discriminate | ].
        split; [ | exact Hden].
        unfold noLineTerminator. cbn. rewrite Hc. reflexivity.
      * exists rest. reflexivity.
Qed.

(** A string that starts with a text denoted by the items is matched. *)
Lemma matchHere_complete (re : list RegexItem) (m rest : string) :
  denotes re m -> exists m', matchHere re (m ++ rest) = Some m'.
Proof.
  revert m rest. induction re as [ | [l | ] re IH]; intros m rest Hden.
  - exists EmptyString. reflexivity.
  - destruct Hden as (m0 & -> & Hden). cbn [matchHere].
    rewrite string_app_assoc, stripPrefix_append.
    destruct (IH _ rest Hden) as (m' & ->). eexists. reflexivity.
  - destruct Hden as (a & m0 & -> & Ha & Hlt & Hden).
    rewrite string_app_assoc.
    induction a as [ | c a IHa]; [contradiction | ].
    cbn [append]. rewrite matchHere_AnyPlus.
    unfold noLineTerminator in Hlt. cbn in Hlt. apply andb_prop in Hlt.
    destruct Hlt as [Hc Hlt]. apply negb_true_iff in Hc. rewrite Hc.
    destruct a as [ | c' a'].
    + cbn [append].
      destruct (matchHere (AnyPlus :: re) (m0 ++ rest)) as [m1 | ]; [eexists; reflexivity | ].
      destruct (IH _ rest Hden) as (m' & ->). eexists. reflexivity.
    + destruct (IHa ltac:(discriminate) Hlt) as (m' & ->). eexists. reflexivity.
Qed.

Lemma String_match_unfold (re : list RegexItem) (s : string) :
  String_match re s
  = match matchHere re s with
    | Some m => Some m
    | None =>
        match s with
        | EmptyString => None
        | String _ s' => String_match re s'
        end
    end.
Proof. destruct s; reflexivity. Qed.

Lemma String_match_sound (re : list RegexItem) (s m : string) :
  String_match re s = Some m ->
  denotes re m /\ exists before after, s = (before ++ m ++ after)%string.
Proof.
  induction s as [ | c s IH]; rewrite String_match_unfold.
  - destruct (matchHere re EmptyString) as [m' | ] eqn:Hm; [ | discriminate].
    intros H. injection H as ->.
    destruct (matchHere_sound _ _ _ Hm) as [Hden (rest & Hs)].
    split; [exact Hden | ]. exists EmptyString, rest. exact Hs.
  - destruct (matchHere re (String c s)) as [m' | ] eqn:Hm.
    + intros H. injection H as ->.
      destruct (matchHere_sound _ _ _ Hm) as [Hden (rest & Hs)].
      split; [exact Hden | ]. exists EmptyString, rest. exact Hs.
    + intros H. destruct (IH H) as [Hden (before & after & ->)].
      split; [exact Hden | ]. exists (String c before), after. reflexivity.
Qed.

Lemma String_match_complete (re : list RegexItem) (before m after : string) :
  denotes re m -> exists m', String_match re (before ++ m ++ after) = Some m'.
Proof.
  intros Hden. induction before as [ | c before IH]; rewrite String_match_unfold.
  - cbn [append]. destruct (matchHere_complete re m after Hden) as (m' & ->).
    eexists. reflexivity.
  - cbn [append]. destruct (matchHere re _) as [m' | ]; [eexists; reflexivity | ].
    exact IH.
Qed.

(** [match] with a pattern of literals and [.+] items answers a text
    exactly when the string contains a text that the pattern denotes,
    and the text answered is one of them. *)
Theorem String_match_denotes (re : list RegexItem) (s : string) :
  (forall m, String_match re s = Some m ->
     denotes re m /\ exists before after, s = (before ++ m ++ after)%string)
  /\ (String_match re s = None
      <-> ~ exists before m after, s = (before ++ m ++ after)%string /\ denotes re m).
Proof.
  split; [intros m; apply String_match_sound | ].
  split.
  - intros Hnone (before & m & after & -> & Hden).
    destruct (String_match_complete re before m after Hden) as (m' & Hm').
    rewrite Hm' in Hnone. discriminate.
  - intros Hno. destruct (String_match re s) as [m | ] eqn:Hm; [ | reflexivity].
    exfalso. apply Hno.
    destruct (String_match_sound _ _ _ Hm) as [Hden (before & after & Hs)].
    exists before, m, after. split; assumption.
Qed.
(* ----------------------------------------------------------------- *)
(** ** The contribution hash that is stored *)

Lemma String_replace_first_LF_TAB_TAB (p r : string) :
  ~ In LF (list_ascii_of_string p) ->
  String_replace LF_TAB_TAB "" (p ++ LF_TAB_TAB ++ r) = (p ++ r)%string.
Proof.
  induction p as [ | c p IH]; intros Hnot.
  - unfold LF_TAB_TAB. cbn [append String_replace stripPrefix].
    rewrite !Ascii.eqb_refl. reflexivity.
  - cbn in Hnot. cbn [append]. unfold LF_TAB_TAB at 1. cbn [String_replace stripPrefix].
    destruct (Ascii.eqb_spec LF c) as [Heq | _]; [symmetry in Heq; tauto | ].
    f_equal. apply IH. tauto.
Qed.

Lemma noLineTerminator_LF (a : string) :
  noLineTerminator a = true -> ~ In LF (list_ascii_of_string a).
Proof.
  unfold noLineTerminator. intros Hall Hin. rewrite forallb_forall in Hall.
  specialize (Hall LF Hin). discriminate Hall.
Qed.

(** The shape of a contribution hash: the heading and the first line of
    the hash on one line, then the three other lines of the hash. *)
Lemma contributionHash_shape (matched : string) :
  denotes contributionHashRegex matched ->
  exists a1 a2 a3 a4 a5 a6,
    Forall (fun a => a <> EmptyString /\ noLineTerminator a = true)
      [a1; a2; a3; a4; a5; a6]
    /\ matched
       = ("Contribution" ++ a1 ++ "Hash" ++ a2 ++ LF_TAB_TAB ++ a3 ++ LF_TAB_TAB ++ a4
            ++ LF_only ++ a5 ++ LF_TAB_TAB ++ a6 ++ LF_only)%string
    /\ String_replace LF_TAB_TAB "" matched
       = ("Contribution" ++ a1 ++ "Hash" ++ a2 ++ a3 ++ LF_TAB_TAB ++ a4
            ++ LF_only ++ a5 ++ LF_TAB_TAB ++ a6 ++ LF_only)%string.
Proof.
  unfold contributionHashRegex. cbn [denotes].
  intros (m1 & -> & a1 & m2 & -> & Hn1 & Hl1 & m3 & -> & a2 & m4 & -> & Hn2 & Hl2
          & m5 & -> & a3 & m6 & -> & Hn3 & Hl3 & m7 & -> & a4 & m8 & -> & Hn4 & Hl4
          & m9 & -> & a5 & m10 & -> & Hn5 & Hl5 & m11 & -> & a6 & m12 & -> & Hn6 & Hl6
          & m13 & -> & ->).
  exists a1, a2, a3, a4, a5, a6.
  split; [repeat (constructor; [split; assumption | ]); constructor | ].
  split; [reflexivity | ].
  set (tail := (a3 ++ LF_TAB_TAB ++ a4 ++ LF_only ++ a5 ++ LF_TAB_TAB ++ a6
                  ++ LF_only ++ "")%string).
  assert (Hsplit :
    ("Contribution" ++ a1 ++ "Hash" ++ a2 ++ LF_TAB_TAB ++ tail)%string
    = (("Contribution" ++ a1 ++ "Hash" ++ a2) ++ LF_TAB_TAB ++ tail)%string).
  { rewrite !string_app_assoc. reflexivity. }
  rewrite Hsplit, String_replace_first_LF_TAB_TAB.
  - rewrite !string_app_assoc. reflexivity.
  - rewrite !chars_append. intros Hin.
    repeat (apply in_app_or in Hin; destruct Hin as [Hin | Hin]).
    + revert Hin. apply (noLineTerminator_LF "Contribution"). reflexivity.
    + revert Hin. apply noLineTerminator_LF. exact Hl1.
    + revert Hin. apply (noLineTerminator_LF "Hash"). reflexivity.
    + revert Hin. apply noLineTerminator_LF. exact Hl2.
Qed.
Lemma no_hash_stored_in (k : ParticipantContributionStep) (finalize : bool)
    (P : string -> Prop) (tr : list Event) :
  k <> COMPUTING ->
  Forall (fun e => blockOf e = Some k \/ (finalize = false /\ isProgress e = true)) tr ->
  Forall (fun e => forall h, In h (storedHash e) -> P h) tr.
Proof.
  intros Hk. apply Forall_impl. intros e He h Hh.
  destruct e; cbn in Hh; try contradiction.
  destruct He as [He | [_ He]]; cbn in He; [congruence | discriminate He].
Qed.

(** The contribution hash that a run stores is the text matched in the
    transcript less its first line break with the two tabs that follow,
    and only the first: the heading and the first line of the hash come
    on one line, the three other lines of the hash stay on their own. *)
Theorem stored_contribution_hash_shape
    (truthy : ParticipantContributionStep -> bool) (w : World)
    (ceremony : CeremonyDocument) (circuit : CircuitDocument)
    (entropyOrBeacon ghUsername : string) (finalize : bool)
    (newParticipantData : option DocumentData) :
  Forall (fun e => forall h, In h (storedHash e) ->
            exists a1 a2 a3 a4 a5 a6,
              Forall (fun a => a <> EmptyString /\ noLineTerminator a = true)
                [a1; a2; a3; a4; a5; a6]
              /\ h = ("Contribution" ++ a1 ++ "Hash" ++ a2 ++ a3 ++ LF_TAB_TAB ++ a4
                        ++ LF_only ++ a5 ++ LF_TAB_TAB ++ a6 ++ LF_only)%string)
    (trace (makeContribution truthy w ceremony circuit entropyOrBeacon ghUsername
              finalize newParticipantData)).
Proof.
  unfold makeContribution. cbv zeta.
  apply Forall_trace_bind.
  { apply Forall_trace_when.
    apply (no_hash_stored_in DOWNLOADING finalize); [discriminate | ].
    apply downloadStep_events. }
  intros _. apply Forall_trace_bind.
  { apply Forall_trace_when. unfold computeStep, computeContribution. cbv zeta.
    apply Forall_trace_bind.
    { destruct finalize; apply Forall_trace_await; intros h []. }
    intros _.
    destruct (String_match contributionHashRegex _) as [matched | ] eqn:Hmatch;
      [ | constructor].
    apply Forall_trace_bind.
    - apply Forall_trace_await. intros h [<- | []].
      destruct (String_match_sound _ _ _ Hmatch) as [Hden _].
      destruct (contributionHash_shape matched Hden)
        as (a1 & a2 & a3 & a4 & a5 & a6 & Hall & _ & Hshape).
      exists a1, a2, a3, a4, a5, a6. split; assumption.
    - intros _. apply Forall_trace_when. unfold makeContributionStepProgress.
      apply Forall_trace_await. intros h []. }
  intros _. apply Forall_trace_bind.
  { apply Forall_trace_when.
    apply (no_hash_stored_in UPLOADING finalize); [discriminate | ].
    apply uploadStep_events. }
  intros _. apply Forall_trace_when. rewrite verifyStep_trace.
  constructor; [intros h [] | constructor].
Qed.

(* ----------------------------------------------------------------- *)
(** ** No step twice *)

Lemma stepsCompleted_app (l1 l2 : list Event) :
  stepsCompleted (l1 ++ l2) = stepsCompleted l1 ++ stepsCompleted l2.
Proof. unfold stepsCompleted. apply flat_map_app. Qed.

Lemma stepsCompleted_progress (w : World) (finalize : bool) (id : string) :
  stepsCompleted (trace (when (negb finalize) (makeContributionStepProgress w id))) = [].
Proof. destruct finalize; reflexivity. Qed.

Lemma downloadStep_once (w : World) (ceremony : CeremonyDocument)
    (circuit : CircuitDocument) (finalize : bool) :
  stepsCompleted (trace (downloadStep w ceremony circuit finalize)) = [DOWNLOADING].
Proof.
  unfold downloadStep, downloadContribution. cbv zeta.
  rewrite trace_bind, trace_await, stepsCompleted_app.
  destruct (outcome _); [rewrite stepsCompleted_progress | ]; reflexivity.
Qed.

Lemma computeStep_once (w : World) (ceremony : CeremonyDocument)
    (circuit : CircuitDocument) (entropyOrBeacon ghUsername : string) (finalize : bool) :
  let tr := trace (computeStep w ceremony circuit entropyOrBeacon ghUsername finalize) in
  stepsCompleted tr = [] \/ stepsCompleted tr = [COMPUTING].
Proof.
  cbv zeta. unfold computeStep. cbv zeta.
  rewrite trace_bind, stepsCompleted_app.
  assert (Hc : forall a b, stepsCompleted (trace (computeContribution w a b ghUsername
                                                     entropyOrBeacon finalize)) = []).
  { intros a b. unfold computeContribution. destruct finalize; reflexivity. }
  rewrite Hc. cbn [app].
  destruct (outcome _); [ | left; reflexivity].
  destruct (String_match contributionHashRegex _); [ | left; reflexivity].
  rewrite trace_bind, trace_await, stepsCompleted_app. right.
  destruct (outcome _); [rewrite stepsCompleted_progress | ]; reflexivity.
Qed.

Lemma uploadStep_once (w : World) (ceremony : CeremonyDocument)
    (circuit : CircuitDocument) (finalize : bool) (pd : option DocumentData) :
  let tr := trace (uploadStep w ceremony circuit finalize pd) in
  stepsCompleted tr = [] \/ stepsCompleted tr = [UPLOADING].
Proof.
  cbv zeta. unfold uploadStep.
  rewrite trace_bind, stepsCompleted_app.
  assert (Hrest : stepsCompleted
                    (match outcome (uploadCall w ceremony circuit finalize pd) with
                     | Done _ => trace (when (negb finalize)
                                          (makeContributionStepProgress w
                                             (ceremony_id ceremony)))
                     | Failed _ => []
                     end) = []).
  { destruct (outcome _); [apply stepsCompleted_progress | reflexivity]. }
  rewrite Hrest, app_nil_r.
  assert (Hup : forall b k p c1 c2 cid t,
            stepsCompleted (trace (multiPartUpload w b k p c1 c2 cid t)) = []
            \/ stepsCompleted (trace (multiPartUpload w b k p c1 c2 cid t)) = [UPLOADING]).
  { intros b k p c1 c2 cid t.
    destruct (multiPartUpload_shape w b k p c1 c2 cid t)
      as (pre & last & Htr & Hpre & Hlast & _ & _).
    cbv zeta in Htr. rewrite Htr, stepsCompleted_app.
    assert (Hquiet : stepsCompleted pre = []).
    { apply flat_map_nil_Forall. eapply Forall_impl; [ | exact Hpre].
      intros e [_ He]. rewrite He. reflexivity. }
    rewrite Hquiet.
    destruct Hlast as [-> | (uid & parts & ->)]; [left | right]; reflexivity. }
  unfold uploadCall. cbv zeta. destruct (negb finalize); apply Hup.
Qed.

Lemma when_once (c : bool) (m : Run unit) (k : ParticipantContributionStep) :
  stepsCompleted (trace m) = [] \/ stepsCompleted (trace m) = [k] ->
  stepsCompleted (trace (when c m)) = [] \/ stepsCompleted (trace (when c m)) = [k].
Proof. destruct c; cbn [when]; [trivial | left; reflexivity]. Qed.

Lemma sequence_stepsCompleted (a b c d : Run unit)
    (ka kb kc kd : ParticipantContributionStep) :
  stepsCompleted (trace a) = [] \/ stepsCompleted (trace a) = [ka] ->
  stepsCompleted (trace b) = [] \/ stepsCompleted (trace b) = [kb] ->
  stepsCompleted (trace c) = [] \/ stepsCompleted (trace c) = [kc] ->
  stepsCompleted (trace d) = [] \/ stepsCompleted (trace d) = [kd] ->
  exists sa sb sc sd,
    stepsCompleted (trace (a ;; b ;; c ;; d)) = sa ++ sb ++ sc ++ sd
    /\ (sa = [] \/ sa = [ka]) /\ (sb = [] \/ sb = [kb])
    /\ (sc = [] \/ sc = [kc]) /\ (sd = [] \/ sd = [kd]).
Proof.
  intros Ha Hb Hc Hd.
  rewrite trace_bind, stepsCompleted_app.
  exists (stepsCompleted (trace a)).
  destruct (outcome a).
  2:{ exists [], [], []. repeat split; auto. }
  rewrite trace_bind, stepsCompleted_app.
  exists (stepsCompleted (trace b)).
  destruct (outcome b).
  2:{ exists [], []. repeat split; auto. }
  rewrite trace_bind, stepsCompleted_app.
  exists (stepsCompleted (trace c)).
  destruct (outcome c).
  2:{ exists []. repeat split; auto. }
  exists (stepsCompleted (trace d)). repeat split; auto.
Qed.

(** In every run, however it ends, the calls that complete the steps
    come in the order download, computation, upload, verification, and
    none of them is made twice. *)
Theorem no_step_twice
    (truthy : ParticipantContributionStep -> bool) (w : World)
    (ceremony : CeremonyDocument) (circuit : CircuitDocument)
    (entropyOrBeacon ghUsername : string) (finalize : bool)
    (newParticipantData : option DocumentData) :
  StronglySorted (fun a b => (rank a < rank b)%nat)
    (stepsCompleted
       (trace (makeContribution truthy w ceremony circuit entropyOrBeacon ghUsername
                 finalize newParticipantData))).
Proof.
  unfold makeContribution. cbv zeta.
  set (step := optContributionStep newParticipantData).
  destruct (sequence_stepsCompleted
              (when (downloadCondition truthy finalize step)
                 (downloadStep w ceremony circuit finalize))
              (when (computeCondition truthy finalize step)
                 (computeStep w ceremony circuit entropyOrBeacon ghUsername finalize))
              (when (uploadCondition truthy finalize step)
                 (uploadStep w ceremony circuit finalize newParticipantData))
              (when (verifyCondition truthy finalize step)
                 (verifyStep w ceremony circuit ghUsername))
              DOWNLOADING COMPUTING UPLOADING VERIFYING)
    as (sa & sb & sc & sd & -> & Ha & Hb & Hc & Hd).
  - apply when_once. right. apply downloadStep_once.
  - apply when_once. apply computeStep_once.
  - apply when_once. apply uploadStep_once.
  - apply when_once. right. rewrite verifyStep_trace. reflexivity.
  - destruct Ha as [-> | ->], Hb as [-> | ->], Hc as [-> | ->], Hd as [-> | ->];
      cbn [app]; repeat (constructor; cbn [rank]; try lia).
Qed.
